(** * Game.tsx: the simulation engine of the defense game

    A shallow embedding of [src/components/Game.tsx]: the mutable refs of the
    React component become one record [Game], every handler of the component
    ([initGame], [nextWave], [update], [handleInput], the button callbacks and
    the [setTimeout] callbacks) becomes a function on that record, and the
    properties of the engine are proved about those functions.

    Conventions of the embedding.
    - JavaScript numbers that only ever hold integers (score, wave, ammo,
      shake intensity, target indices) are [Z]; every other number is an exact
      rational [Q].  The rounding of IEEE doubles is written out, as the
      function [Number_round] of the [MathObject], in the two computations
      whose outcome it decides: the distances [handleInput] compares to
      choose a tower, and the range of [randomRange].  Everywhere else
      arithmetic is exact.
    - In [distance(p, q) < r], [Math.sqrt] occurs on the left of a comparison
      with a speed or a radius; over the reals this is [0 < r] together with
      [dx^2 + dy^2 < r^2], which is how [distance_lt] computes it.
    - [Math.cos], [Math.sin], [Math.atan2], [Math.sqrt], [Math.pow],
      [Math.PI] and the sequence of values returned by [Math.random()] are
      the fields of a [MathObject] the engine is parametrised by; the field
      [draws] of [Game] counts the calls to [Math.random()] made by the game
      logic so far.
    - Reading a property of an array element that does not exist throws a
      [TypeError]; handlers that can do so return [option Game] and [None]
      stands for the uncaught exception.
    - Canvas drawing, the language switch and the display-only React mirrors
      of score, towers and cities are not part of the engine and are left
      out.  [setGameState] and [gameStateRef.current] are always assigned
      together and are one field, [gameState]; the value of the React state
      that the closures of the last render still hold is the field [shown]
      of a [Page], and [step] is the behaviour of a page that has been
      rendered since the last write. *)

From Stdlib Require Import String DecimalString.
From Stdlib Require Import ZArith QArith Qround Qminmax Bool List Lia Lqa.
Import ListNotations.

Open Scope Q_scope.

(** ** Types and constants *)

Inductive GameState : Type :=
  | MENU | PLAYING | PAUSED | WAVE_COMPLETE | GAME_OVER | VICTORY.

Definition GameState_eqb (a b : GameState) : bool :=
  match a, b with
  | MENU, MENU | PLAYING, PLAYING | PAUSED, PAUSED
  | WAVE_COMPLETE, WAVE_COMPLETE | GAME_OVER, GAME_OVER
  | VICTORY, VICTORY => true
  | _, _ => false
  end.

Record Point : Type := { p_x : Q; p_y : Q }.

Record Enemy : Type := {
  e_id : Q; e_x : Q; e_y : Q; e_vx : Q; e_vy : Q;
  e_color : string; e_dead : bool;
  e_targetIndex : Z;  (* 0-5 for cities, 6-8 for towers *)
  e_speed : Q; e_trail : list Point }.

Record Interceptor : Type := {
  i_id : Q; i_x : Q; i_y : Q; i_vx : Q; i_vy : Q;
  i_color : string; i_dead : bool;
  i_target : Point; i_speed : Q; i_trail : list Point;
  i_originTowerIndex : Z }.

Record Explosion : Type := {
  x_id : Q; x_x : Q; x_y : Q;
  x_radius : Q; x_maxRadius : Q; x_growthRate : Q;
  x_life : Q; x_color : string }.

Record Particle : Type := {
  pt_id : Q; pt_x : Q; pt_y : Q; pt_vx : Q; pt_vy : Q;
  pt_color : string; pt_dead : bool;
  pt_life : Q; pt_maxLife : Q; pt_size : Q }.

Record FloatingText : Type := {
  ft_id : Q; ft_x : Q; ft_y : Q;
  ft_text : string; ft_life : Q; ft_color : string; ft_vy : Q }.

Record Tower : Type := {
  t_x : Q; t_y : Q; t_ammo : Z; t_maxAmmo : Z; t_alive : bool }.

Record City : Type := { c_x : Q; c_y : Q; c_alive : bool }.

(** What a pending [setTimeout] callback does when it runs. *)
Inductive TimerAction : Type :=
  | SetGameState (g : GameState)   (* setGameState(g); gameStateRef.current = g *)
  | ClearShake.                    (* setShake(0) *)

Record Timer : Type := { tm_due : Q; tm_action : TimerAction }.

Record Canvas : Type := { width : Q; height : Q }.

(** [canvas.getBoundingClientRect()], as far as [handleInput] reads it. *)
Record Rect : Type := { left : Q; top : Q }.

Module COLORS.
Definition primary : string := "#00f3ff".
Definition secondary : string := "#ff00ff".
Definition danger : string := "#ff2a2a".
Definition warning : string := "#ffaa00".
Definition success : string := "#00ff66".
End COLORS.

(** The refs of the component. *)
Record Game : Type := {
  gameState : GameState;
  score : Z;
  wave : Z;                 (* the React state read by the updater of [setWave] *)
  waveRef : Z;
  towers : list Tower;
  cities : list City;
  enemies : list Enemy;
  interceptors : list Interceptor;
  explosions : list Explosion;
  particles : list Particle;
  floatingTexts : list FloatingText;
  lastTime : Q;
  spawnTimer : Q;
  isWaveClearing : bool;
  isEndlessMode : bool;
  waveBonus : Z;
  shake : Z;
  timers : list Timer;      (* callbacks handed to setTimeout, oldest first *)
  draws : nat }.

Definition set_gameState (v : GameState) (s : Game) : Game :=
  {| gameState := v; score := score s; wave := wave s; waveRef := waveRef s;
     towers := towers s; cities := cities s; enemies := enemies s;
     interceptors := interceptors s; explosions := explosions s;
     particles := particles s; floatingTexts := floatingTexts s;
     lastTime := lastTime s; spawnTimer := spawnTimer s;
     isWaveClearing := isWaveClearing s; isEndlessMode := isEndlessMode s;
     waveBonus := waveBonus s; shake := shake s; timers := timers s;
     draws := draws s |}.

Definition set_score (v : Z) (s : Game) : Game :=
  {| gameState := gameState s; score := v; wave := wave s;
     waveRef := waveRef s; towers := towers s; cities := cities s;
     enemies := enemies s; interceptors := interceptors s;
     explosions := explosions s; particles := particles s;
     floatingTexts := floatingTexts s; lastTime := lastTime s;
     spawnTimer := spawnTimer s; isWaveClearing := isWaveClearing s;
     isEndlessMode := isEndlessMode s; waveBonus := waveBonus s;
     shake := shake s; timers := timers s; draws := draws s |}.

Definition set_wave (v : Z) (s : Game) : Game :=
  {| gameState := gameState s; score := score s; wave := v;
     waveRef := waveRef s; towers := towers s; cities := cities s;
     enemies := enemies s; interceptors := interceptors s;
     explosions := explosions s; particles := particles s;
     floatingTexts := floatingTexts s; lastTime := lastTime s;
     spawnTimer := spawnTimer s; isWaveClearing := isWaveClearing s;
     isEndlessMode := isEndlessMode s; waveBonus := waveBonus s;
     shake := shake s; timers := timers s; draws := draws s |}.

Definition set_waveRef (v : Z) (s : Game) : Game :=
  {| gameState := gameState s; score := score s; wave := wave s;
     waveRef := v; towers := towers s; cities := cities s;
     enemies := enemies s; interceptors := interceptors s;
     explosions := explosions s; particles := particles s;
     floatingTexts := floatingTexts s; lastTime := lastTime s;
     spawnTimer := spawnTimer s; isWaveClearing := isWaveClearing s;
     isEndlessMode := isEndlessMode s; waveBonus := waveBonus s;
     shake := shake s; timers := timers s; draws := draws s |}.

Definition set_towers (v : list Tower) (s : Game) : Game :=
  {| gameState := gameState s; score := score s; wave := wave s;
     waveRef := waveRef s; towers := v; cities := cities s;
     enemies := enemies s; interceptors := interceptors s;
     explosions := explosions s; particles := particles s;
     floatingTexts := floatingTexts s; lastTime := lastTime s;
     spawnTimer := spawnTimer s; isWaveClearing := isWaveClearing s;
     isEndlessMode := isEndlessMode s; waveBonus := waveBonus s;
     shake := shake s; timers := timers s; draws := draws s |}.

Definition set_cities (v : list City) (s : Game) : Game :=
  {| gameState := gameState s; score := score s; wave := wave s;
     waveRef := waveRef s; towers := towers s; cities := v;
     enemies := enemies s; interceptors := interceptors s;
     explosions := explosions s; particles := particles s;
     floatingTexts := floatingTexts s; lastTime := lastTime s;
     spawnTimer := spawnTimer s; isWaveClearing := isWaveClearing s;
     isEndlessMode := isEndlessMode s; waveBonus := waveBonus s;
     shake := shake s; timers := timers s; draws := draws s |}.

Definition set_enemies (v : list Enemy) (s : Game) : Game :=
  {| gameState := gameState s; score := score s; wave := wave s;
     waveRef := waveRef s; towers := towers s; cities := cities s;
     enemies := v; interceptors := interceptors s;
     explosions := explosions s; particles := particles s;
     floatingTexts := floatingTexts s; lastTime := lastTime s;
     spawnTimer := spawnTimer s; isWaveClearing := isWaveClearing s;
     isEndlessMode := isEndlessMode s; waveBonus := waveBonus s;
     shake := shake s; timers := timers s; draws := draws s |}.

Definition set_interceptors (v : list Interceptor) (s : Game) : Game :=
  {| gameState := gameState s; score := score s; wave := wave s;
     waveRef := waveRef s; towers := towers s; cities := cities s;
     enemies := enemies s; interceptors := v; explosions := explosions s;
     particles := particles s; floatingTexts := floatingTexts s;
     lastTime := lastTime s; spawnTimer := spawnTimer s;
     isWaveClearing := isWaveClearing s; isEndlessMode := isEndlessMode s;
     waveBonus := waveBonus s; shake := shake s; timers := timers s;
     draws := draws s |}.

Definition set_explosions (v : list Explosion) (s : Game) : Game :=
  {| gameState := gameState s; score := score s; wave := wave s;
     waveRef := waveRef s; towers := towers s; cities := cities s;
     enemies := enemies s; interceptors := interceptors s; explosions := v;
     particles := particles s; floatingTexts := floatingTexts s;
     lastTime := lastTime s; spawnTimer := spawnTimer s;
     isWaveClearing := isWaveClearing s; isEndlessMode := isEndlessMode s;
     waveBonus := waveBonus s; shake := shake s; timers := timers s;
     draws := draws s |}.

Definition set_particles (v : list Particle) (s : Game) : Game :=
  {| gameState := gameState s; score := score s; wave := wave s;
     waveRef := waveRef s; towers := towers s; cities := cities s;
     enemies := enemies s; interceptors := interceptors s;
     explosions := explosions s; particles := v;
     floatingTexts := floatingTexts s; lastTime := lastTime s;
     spawnTimer := spawnTimer s; isWaveClearing := isWaveClearing s;
     isEndlessMode := isEndlessMode s; waveBonus := waveBonus s;
     shake := shake s; timers := timers s; draws := draws s |}.

Definition set_floatingTexts (v : list FloatingText) (s : Game) : Game :=
  {| gameState := gameState s; score := score s; wave := wave s;
     waveRef := waveRef s; towers := towers s; cities := cities s;
     enemies := enemies s; interceptors := interceptors s;
     explosions := explosions s; particles := particles s;
     floatingTexts := v; lastTime := lastTime s; spawnTimer := spawnTimer s;
     isWaveClearing := isWaveClearing s; isEndlessMode := isEndlessMode s;
     waveBonus := waveBonus s; shake := shake s; timers := timers s;
     draws := draws s |}.

Definition set_lastTime (v : Q) (s : Game) : Game :=
  {| gameState := gameState s; score := score s; wave := wave s;
     waveRef := waveRef s; towers := towers s; cities := cities s;
     enemies := enemies s; interceptors := interceptors s;
     explosions := explosions s; particles := particles s;
     floatingTexts := floatingTexts s; lastTime := v;
     spawnTimer := spawnTimer s; isWaveClearing := isWaveClearing s;
     isEndlessMode := isEndlessMode s; waveBonus := waveBonus s;
     shake := shake s; timers := timers s; draws := draws s |}.

Definition set_spawnTimer (v : Q) (s : Game) : Game :=
  {| gameState := gameState s; score := score s; wave := wave s;
     waveRef := waveRef s; towers := towers s; cities := cities s;
     enemies := enemies s; interceptors := interceptors s;
     explosions := explosions s; particles := particles s;
     floatingTexts := floatingTexts s; lastTime := lastTime s;
     spawnTimer := v; isWaveClearing := isWaveClearing s;
     isEndlessMode := isEndlessMode s; waveBonus := waveBonus s;
     shake := shake s; timers := timers s; draws := draws s |}.

Definition set_isWaveClearing (v : bool) (s : Game) : Game :=
  {| gameState := gameState s; score := score s; wave := wave s;
     waveRef := waveRef s; towers := towers s; cities := cities s;
     enemies := enemies s; interceptors := interceptors s;
     explosions := explosions s; particles := particles s;
     floatingTexts := floatingTexts s; lastTime := lastTime s;
     spawnTimer := spawnTimer s; isWaveClearing := v;
     isEndlessMode := isEndlessMode s; waveBonus := waveBonus s;
     shake := shake s; timers := timers s; draws := draws s |}.

Definition set_isEndlessMode (v : bool) (s : Game) : Game :=
  {| gameState := gameState s; score := score s; wave := wave s;
     waveRef := waveRef s; towers := towers s; cities := cities s;
     enemies := enemies s; interceptors := interceptors s;
     explosions := explosions s; particles := particles s;
     floatingTexts := floatingTexts s; lastTime := lastTime s;
     spawnTimer := spawnTimer s; isWaveClearing := isWaveClearing s;
     isEndlessMode := v; waveBonus := waveBonus s; shake := shake s;
     timers := timers s; draws := draws s |}.

Definition set_waveBonus (v : Z) (s : Game) : Game :=
  {| gameState := gameState s; score := score s; wave := wave s;
     waveRef := waveRef s; towers := towers s; cities := cities s;
     enemies := enemies s; interceptors := interceptors s;
     explosions := explosions s; particles := particles s;
     floatingTexts := floatingTexts s; lastTime := lastTime s;
     spawnTimer := spawnTimer s; isWaveClearing := isWaveClearing s;
     isEndlessMode := isEndlessMode s; waveBonus := v; shake := shake s;
     timers := timers s; draws := draws s |}.

Definition set_shake (v : Z) (s : Game) : Game :=
  {| gameState := gameState s; score := score s; wave := wave s;
     waveRef := waveRef s; towers := towers s; cities := cities s;
     enemies := enemies s; interceptors := interceptors s;
     explosions := explosions s; particles := particles s;
     floatingTexts := floatingTexts s; lastTime := lastTime s;
     spawnTimer := spawnTimer s; isWaveClearing := isWaveClearing s;
     isEndlessMode := isEndlessMode s; waveBonus := waveBonus s; shake := v;
     timers := timers s; draws := draws s |}.

Definition set_timers (v : list Timer) (s : Game) : Game :=
  {| gameState := gameState s; score := score s; wave := wave s;
     waveRef := waveRef s; towers := towers s; cities := cities s;
     enemies := enemies s; interceptors := interceptors s;
     explosions := explosions s; particles := particles s;
     floatingTexts := floatingTexts s; lastTime := lastTime s;
     spawnTimer := spawnTimer s; isWaveClearing := isWaveClearing s;
     isEndlessMode := isEndlessMode s; waveBonus := waveBonus s;
     shake := shake s; timers := v; draws := draws s |}.

Definition set_draws (v : nat) (s : Game) : Game :=
  {| gameState := gameState s; score := score s; wave := wave s;
     waveRef := waveRef s; towers := towers s; cities := cities s;
     enemies := enemies s; interceptors := interceptors s;
     explosions := explosions s; particles := particles s;
     floatingTexts := floatingTexts s; lastTime := lastTime s;
     spawnTimer := spawnTimer s; isWaveClearing := isWaveClearing s;
     isEndlessMode := isEndlessMode s; waveBonus := waveBonus s;
     shake := shake s; timers := timers s; draws := v |}.

(** ** Helper functions *)

Definition Qltb (a b : Q) : bool := negb (Qle_bool b a).

Definition sq (a : Q) : Q := a * a.   (* Math.pow(a, 2) *)

(** The square of [distance p1 p2]. *)
Definition distance2 (p1 p2 : Point) : Q :=
  sq (p_x p2 - p_x p1) + sq (p_y p2 - p_y p1).

(** [distance(p1, p2) < r] *)
Definition distance_lt (p1 p2 : Point) (r : Q) : bool :=
  Qltb 0 r && Qltb (distance2 p1 p2) (sq r).

(** [arr[k]] for a number [k]: [None] is JavaScript's [undefined]. *)
Definition arrayGet {A : Type} (arr : list A) (k : Z) : option A :=
  if (k <? 0)%Z then None else nth_error arr (Z.to_nat k).

(** [arr[k] = f(arr[k])] for an index that exists. *)
Fixpoint modify {A : Type} (f : A -> A) (k : nat) (arr : list A) : list A :=
  match arr, k with
  | [], _ => []
  | a :: arr', O => f a :: arr'
  | a :: arr', S k' => a :: modify f k' arr'
  end.

(** [arr.map((a, i) => f(a, i))], counting from [i]. *)
Fixpoint mapi_from {A B : Type} (f : A -> Z -> B) (i : Z) (arr : list A) : list B :=
  match arr with
  | [] => []
  | a :: arr' => f a i :: mapi_from f (i + 1) arr'
  end.

Definition mapi {A B : Type} (f : A -> Z -> B) (arr : list A) : list B :=
  mapi_from f 0 arr.

(** [arr.forEach] with a body that also writes to the refs. *)
Fixpoint forEach {A : Type} (body : A -> Game -> A * Game)
    (arr : list A) (s : Game) : list A * Game :=
  match arr with
  | [] => ([], s)
  | a :: arr' =>
      let (a', s1) := body a s in
      let (arr'', s2) := forEach body arr' s1 in
      (a' :: arr'', s2)
  end.

(** The same, for a body that may throw. *)
Fixpoint forEachE {A : Type} (body : A -> Game -> option (A * Game))
    (arr : list A) (s : Game) : option (list A * Game) :=
  match arr with
  | [] => Some ([], s)
  | a :: arr' =>
      match body a s with
      | None => None
      | Some (a', s1) =>
          match forEachE body arr' s1 with
          | None => None
          | Some (arr'', s2) => Some (a' :: arr'', s2)
          end
      end
  end.

Definition numLength {A : Type} (arr : list A) : Z := Z.of_nat (length arr).

Definition enemyPoint (e : Enemy) : Point := {| p_x := e_x e; p_y := e_y e |}.
Definition interceptorPoint (p : Interceptor) : Point :=
  {| p_x := i_x p; p_y := i_y p |}.
Definition explosionPoint (e : Explosion) : Point :=
  {| p_x := x_x e; p_y := x_y e |}.

Definition killEnemy (e : Enemy) : Enemy :=
  {| e_id := e_id e; e_x := e_x e; e_y := e_y e; e_vx := e_vx e;
     e_vy := e_vy e; e_color := e_color e; e_dead := true;
     e_targetIndex := e_targetIndex e; e_speed := e_speed e;
     e_trail := e_trail e |}.

Definition killInterceptor (p : Interceptor) : Interceptor :=
  {| i_id := i_id p; i_x := i_x p; i_y := i_y p; i_vx := i_vx p;
     i_vy := i_vy p; i_color := i_color p; i_dead := true;
     i_target := i_target p; i_speed := i_speed p; i_trail := i_trail p;
     i_originTowerIndex := i_originTowerIndex p |}.

(** [city.alive = false] *)
Definition destroyCity (c : City) : City :=
  {| c_x := c_x c; c_y := c_y c; c_alive := false |}.

(** [tower.alive = false; tower.ammo = 0] *)
Definition destroyTower (t : Tower) : Tower :=
  {| t_x := t_x t; t_y := t_y t; t_ammo := 0; t_maxAmmo := t_maxAmmo t;
     t_alive := false |}.

(** [tower.ammo--] *)
Definition useAmmo (t : Tower) : Tower :=
  {| t_x := t_x t; t_y := t_y t; t_ammo := t_ammo t - 1;
     t_maxAmmo := t_maxAmmo t; t_alive := t_alive t |}.

(** [{ ...t, alive: true, ammo: t.maxAmmo }] *)
Definition repairTower (t : Tower) : Tower :=
  {| t_x := t_x t; t_y := t_y t; t_ammo := t_maxAmmo t;
     t_maxAmmo := t_maxAmmo t; t_alive := true |}.

Definition initialTowers : list Tower :=
  [ {| t_x := 0; t_y := 0; t_ammo := 20; t_maxAmmo := 20; t_alive := true |};
    {| t_x := 0; t_y := 0; t_ammo := 40; t_maxAmmo := 40; t_alive := true |};
    {| t_x := 0; t_y := 0; t_ammo := 20; t_maxAmmo := 20; t_alive := true |} ].

(** [Array(6).fill({ x: 0, y: 0, alive: true })].  The six entries of the
    array built by [fill] are one object; [initGame] replaces the array by a
    deep copy (six objects) before any handler writes to a city, since
    cities are only written by [update] while PLAYING and PLAYING is first
    entered through [initGame]. *)
Definition initialCities : list City :=
  repeat {| c_x := 0; c_y := 0; c_alive := true |} 6.

(** A scheduled callback: [setTimeout(callback, delay)] called at [now]. *)
Definition setTimeout (a : TimerAction) (delay now : Q) (s : Game) : Game :=
  set_timers (timers s ++ [ {| tm_due := now + delay; tm_action := a |} ]) s.

(** The refs when the component is mounted. *)
Definition mounted : Game :=
  {| gameState := MENU; score := 0; wave := 1; waveRef := 1;
     towers := initialTowers; cities := initialCities;
     enemies := []; interceptors := []; explosions := []; particles := [];
     floatingTexts := []; lastTime := 0; spawnTimer := 0;
     isWaveClearing := false; isEndlessMode := false;
     waveBonus := 0; shake := 0; timers := []; draws := 0 |}.

(** [dt] capped to 50 at the head of [update]. *)
Definition safeDt (time : Q) (s : Game) : Q := Qmin (time - lastTime s) 50.

Definition towerPositions (cv : Canvas) (towerY : Q) : list Point :=
  [ {| p_x := width cv * 0.1; p_y := towerY |};
    {| p_x := width cv * 0.5; p_y := towerY |};
    {| p_x := width cv * 0.9; p_y := towerY |} ].

Definition cityPositions (cv : Canvas) (cityY : Q) : list Point :=
  map (fun x => {| p_x := x; p_y := cityY |})
      [ width cv * 0.2; width cv * 0.3; width cv * 0.4;
        width cv * 0.6; width cv * 0.7; width cv * 0.8 ].

(** [+${amount}] *)
Definition plusText (amount : Z) : string :=
  String.append "+" (NilZero.string_of_int (Z.to_int amount)).

(** An entry of the [towerPositions] array of [handleInput]. *)
Record TowerPos : Type := { tp_x : Q; tp_y : Q; tp_idx : Z }.

(** The events the component reacts to. *)
Inductive Event : Type :=
  | StartClick (now : Q)        (* start button of the MENU overlay *)
  | RestartClick (now : Q)      (* restart button of GAME_OVER and VICTORY *)
  | PauseClick                  (* pause button of the HUD *)
  | ResumeClick                 (* resume button of the PAUSED overlay *)
  | QuitClick                   (* quit button of the PAUSED overlay *)
  | NextWaveClick (now : Q)     (* next-wave button of WAVE_COMPLETE *)
  | EndlessClick (now : Q)      (* endless-mode button of VICTORY *)
  | Tap (clientX clientY : Q) (canvas : option Canvas) (rect : Rect)
  | Frame (time : Q) (canvas : option Canvas)   (* requestAnimationFrame *)
  | Timeout (n : nat).          (* the n-th pending setTimeout callback runs *)

(** The Math object of the browser.  [Math_random k] is what the [k]-th call
    of [Math.random()] by the game logic returns; [Number_round q] is the
    double that an arithmetic operation returns when its exact result is
    [q]. *)
Record MathObject : Type := {
  Math_cos : Q -> Q;
  Math_sin : Q -> Q;
  Math_atan2 : Q -> Q -> Q;
  Math_sqrt : Q -> Q;
  Math_pow : Q -> Q -> Q;
  Math_PI : Q;
  Math_random : nat -> Q;
  Number_round : Q -> Q }.

(** ** The engine *)

Section Engine.

Variable M : MathObject.

Definition random (s : Game) : Q * Game :=
  (Math_random M (draws s), set_draws (S (draws s)) s).

(** [Math.random() * (max - min) + min], each operation returning a
    double. *)
Definition randomRange (min max : Q) (s : Game) : Q * Game :=
  let (r, s) := random s in
  (Number_round M (Number_round M (r * Number_round M (max - min)) + min), s).

Definition initGame (now : Q) (s : Game) : Game :=
  let s := set_score 0 s in
  let s := set_wave 1 s in
  let s := set_waveRef 1 s in
  let s := set_isEndlessMode false s in
  let s := set_towers initialTowers s in
  let s := set_cities initialCities s in
  let s := set_enemies [] s in
  let s := set_interceptors [] s in
  let s := set_explosions [] s in
  let s := set_particles [] s in
  let s := set_floatingTexts [] s in
  let s := set_isWaveClearing false s in
  let s := set_gameState PLAYING s in
  set_lastTime now s.

Definition nextWave (now : Q) (s : Game) : Game :=
  (* Repair towers and refill ammo *)
  let newTowers := map repairTower (towers s) in
  let s := set_towers newTowers s in
  let newWave := (wave s + 1)%Z in
  let s := set_waveRef newWave s in
  let s := set_wave newWave s in
  let s := set_isWaveClearing false s in
  let s := set_gameState PLAYING s in
  set_lastTime now s.

Definition triggerShake (intensity : Z) (now : Q) (s : Game) : Game :=
  setTimeout ClearShake 300 now (set_shake intensity s).

Definition spawnExplosion (x y : Q) (color : string) (s : Game) : Game :=
  let (id, s) := random s in
  set_explosions
    (explosions s ++
     [ {| x_id := id; x_x := x; x_y := y; x_radius := 0; x_maxRadius := 60;
          x_growthRate := 4; x_life := 1; x_color := color |} ]) s.

Fixpoint spawnParticles (x y : Q) (count : nat) (color : string)
    (s : Game) : Game :=
  match count with
  | O => s
  | S count' =>
      let (r, s) := random s in
      let angle := r * Math_PI M * 2 in
      let (speed, s) := randomRange 1 4 s in
      let (id, s) := random s in
      let (size, s) := randomRange 1 3 s in
      spawnParticles x y count' color
        (set_particles
           (particles s ++
            [ {| pt_id := id; pt_x := x; pt_y := y;
                 pt_vx := Math_cos M angle * speed;
                 pt_vy := Math_sin M angle * speed;
                 pt_color := color; pt_dead := false;
                 pt_life := 1; pt_maxLife := 1; pt_size := size |} ]) s)
  end.

Definition addScore (amount : Z) (x y : Q) (s : Game) : Game :=
  let s := set_score (score s + amount)%Z s in
  let (id, s) := random s in
  set_floatingTexts
    (floatingTexts s ++
     [ {| ft_id := id; ft_x := x; ft_y := y; ft_text := plusText amount;
          ft_life := 1; ft_color := COLORS.success; ft_vy := -1 |} ]) s.

(** *** [update]: spawning enemies *)

Definition aliveCities (s : Game) : list Z :=
  filter (fun i => negb (i =? -1)%Z)
         (mapi (fun c i => if c_alive c then i else (-1)%Z) (cities s)).

Definition aliveTowers (s : Game) : list Z :=
  filter (fun i => negb (i =? -1)%Z)
         (mapi (fun t i => if t_alive t then (i + 6)%Z else (-1)%Z) (towers s)).

Definition spawnEnemy (time : Q) (cv : Canvas) (s : Game) : option Game :=
  let groundY := height cv - 40 in
  let towerY := groundY - 20 in
  let cityY := groundY - 10 in
  if isWaveClearing s then Some s else
  let waveDifficulty := inject_Z (waveRef s) in
  let spawnRate := Qmax 500 (2000 - waveDifficulty * 150) in
  let speedBase := 1 + waveDifficulty * 0.2 in
  if Qltb spawnRate (time - spawnTimer s) then
    let s := set_spawnTimer time s in
    let possibleTargets := aliveCities s ++ aliveTowers s in
    if (0 <? numLength possibleTargets)%Z then
      let (r, s) := random s in
      match arrayGet possibleTargets
              (Qfloor (r * inject_Z (numLength possibleTargets))) with
      | None => None
      | Some targetIdx =>
          match (if (targetIdx <? 6)%Z
                 then arrayGet (cityPositions cv cityY) targetIdx
                 else arrayGet (towerPositions cv towerY) (targetIdx - 6)%Z) with
          | None => None
          | Some t =>
              let (r, s) := random s in
              let startX := r * width cv in
              let startY := -20 in
              let angle := Math_atan2 M (p_y t - startY) (p_x t - startX) in
              let (id, s) := random s in
              Some (set_enemies
                      (enemies s ++
                       [ {| e_id := id; e_x := startX; e_y := startY;
                            e_vx := Math_cos M angle * speedBase;
                            e_vy := Math_sin M angle * speedBase;
                            e_color := COLORS.danger; e_dead := false;
                            e_targetIndex := targetIdx;
                            e_speed := speedBase; e_trail := [] |} ]) s)
          end
      end
    else Some s
  else Some s.

(** *** [update]: the wave-clear check and its settlement *)

Definition ammoBonus (ts : list Tower) : Z :=
  fold_left (fun bonus t => if t_alive t then (bonus + t_ammo t * 5)%Z else bonus)
            ts 0%Z.

Definition checkWaveClear (time : Q) (cv : Canvas) (s : Game) : Game :=
  let targetScore := (waveRef s * 200)%Z in
  let s := if (targetScore <=? score s)%Z && negb (isWaveClearing s)
           then set_isWaveClearing true s else s in
  if isWaveClearing s && (numLength (enemies s) =? 0)%Z
     && (numLength (explosions s) =? 0)%Z
  then
    let bonus := ammoBonus (towers s) in
    let s := set_waveBonus bonus s in
    let s := addScore bonus (width cv / 2) (height cv / 2) s in
    let s :=
      if (1000 <=? score s)%Z && negb (GameState_eqb (gameState s) VICTORY)
         && negb (isEndlessMode s)
      then setTimeout (SetGameState VICTORY) 2000 time s
      else setTimeout (SetGameState WAVE_COMPLETE) 2000 time s in
    set_isWaveClearing false s
  else s.

(** *** [update]: moving the entities *)

Definition moveInterceptor (p : Interceptor) : Interceptor :=
  let x := i_x p + i_vx p in
  let y := i_y p + i_vy p in
  let trail := i_trail p ++ [ {| p_x := x; p_y := y |} ] in
  {| i_id := i_id p; i_x := x; i_y := y; i_vx := i_vx p; i_vy := i_vy p;
     i_color := i_color p; i_dead := i_dead p; i_target := i_target p;
     i_speed := i_speed p;
     i_trail := if (10 <? numLength trail)%Z then tl trail else trail;
     i_originTowerIndex := i_originTowerIndex p |}.

Definition stepInterceptor (p : Interceptor) (s : Game) : Interceptor * Game :=
  let p := moveInterceptor p in
  if distance_lt (interceptorPoint p) (i_target p) (i_speed p)
  then (killInterceptor p,
        spawnExplosion (p_x (i_target p)) (p_y (i_target p)) COLORS.primary s)
  else (p, s).

Definition stepExplosion (e : Explosion) : Explosion :=
  if Qltb (x_radius e) (x_maxRadius e)
  then {| x_id := x_id e; x_x := x_x e; x_y := x_y e;
          x_radius := x_radius e + x_growthRate e;
          x_maxRadius := x_maxRadius e; x_growthRate := x_growthRate e;
          x_life := x_life e; x_color := x_color e |}
  else {| x_id := x_id e; x_x := x_x e; x_y := x_y e;
          x_radius := x_radius e;
          x_maxRadius := x_maxRadius e; x_growthRate := x_growthRate e;
          x_life := x_life e - 0.05; x_color := x_color e |}.

Definition moveEnemy (e : Enemy) : Enemy :=
  let x := e_x e + e_vx e in
  let y := e_y e + e_vy e in
  let trail := e_trail e ++ [ {| p_x := x; p_y := y |} ] in
  {| e_id := e_id e; e_x := x; e_y := y; e_vx := e_vx e; e_vy := e_vy e;
     e_color := e_color e; e_dead := e_dead e;
     e_targetIndex := e_targetIndex e; e_speed := e_speed e;
     e_trail := if (15 <? numLength trail)%Z then tl trail else trail |}.

(** The [for (const exp of explosionsRef.current)] loop: it stops at the
    first explosion that covers the enemy. *)
Definition caughtBy (e : Enemy) (exps : list Explosion) : option Explosion :=
  find (fun exp => distance_lt (enemyPoint e) (explosionPoint exp) (x_radius exp))
       exps.

Definition blastCheck (e : Enemy) (s : Game) : Enemy * Game :=
  match caughtBy e (explosions s) with
  | Some _ =>
      let s := addScore 20 (e_x e) (e_y e) s in
      let s := spawnParticles (e_x e) (e_y e) 10 COLORS.danger s in
      let s := spawnExplosion (e_x e) (e_y e) COLORS.secondary s in
      (killEnemy e, s)
  | None => (e, s)
  end.

(** The damage of an enemy that reached the ground. *)
Definition resolveImpact (time : Q) (e : Enemy) (s : Game) : option Game :=
  if (e_targetIndex e <? 6)%Z then
    let cityIdx := e_targetIndex e in
    match arrayGet (cities s) cityIdx with
    | None => None
    | Some c =>
        if c_alive c then
          let s := set_cities (modify destroyCity (Z.to_nat cityIdx) (cities s)) s in
          let s := triggerShake 20 time s in
          if forallb (fun c => negb (c_alive c)) (cities s)
          then Some (set_gameState GAME_OVER s)
          else Some s
        else Some s
    end
  else
    let towerIdx := (e_targetIndex e - 6)%Z in
    match arrayGet (towers s) towerIdx with
    | None => None
    | Some t =>
        if t_alive t then
          let s := set_towers (modify destroyTower (Z.to_nat towerIdx) (towers s)) s in
          Some (triggerShake 20 time s)
        else Some s
    end.

Definition stepEnemy (groundY time : Q) (e : Enemy) (s : Game)
    : option (Enemy * Game) :=
  let e := moveEnemy e in
  let (e, s) := blastCheck e s in
  if negb (e_dead e) && Qle_bool (groundY - 5) (e_y e) then
    let e := killEnemy e in
    let s := spawnExplosion (e_x e) (e_y e) COLORS.warning s in
    let s := spawnParticles (e_x e) (e_y e) 15 COLORS.warning s in
    let s := triggerShake 5 time s in
    match resolveImpact time e s with
    | None => None
    | Some s => Some (e, s)
    end
  else Some (e, s).

Definition stepParticle (p : Particle) : Particle :=
  let life := pt_life p - 0.02 in
  {| pt_id := pt_id p; pt_x := pt_x p + pt_vx p; pt_y := pt_y p + pt_vy p;
     pt_vx := pt_vx p; pt_vy := pt_vy p; pt_color := pt_color p;
     pt_dead := if Qle_bool life 0 then true else pt_dead p;
     pt_life := life; pt_maxLife := pt_maxLife p; pt_size := pt_size p |}.

Definition stepFloatingText (t : FloatingText) : FloatingText :=
  {| ft_id := ft_id t; ft_x := ft_x t; ft_y := ft_y t + ft_vy t;
     ft_text := ft_text t; ft_life := ft_life t - 0.015;
     ft_color := ft_color t; ft_vy := ft_vy t |}.

Definition updateInterceptors (s : Game) : Game :=
  let (ps, s) := forEach stepInterceptor (interceptors s) s in
  set_interceptors ps s.

Definition updateEnemies (groundY time : Q) (s : Game) : option Game :=
  match forEachE (stepEnemy groundY time) (enemies s) s with
  | None => None
  | Some (es, s) => Some (set_enemies es s)
  end.

(** Cleanup Dead Entities *)
Definition cleanup (s : Game) : Game :=
  let s := set_interceptors (filter (fun p => negb (i_dead p)) (interceptors s)) s in
  let s := set_enemies (filter (fun e => negb (e_dead e)) (enemies s)) s in
  let s := set_explosions (filter (fun e => Qltb 0 (x_life e)) (explosions s)) s in
  let s := set_particles (filter (fun p => negb (pt_dead p)) (particles s)) s in
  set_floatingTexts (filter (fun t => Qltb 0 (ft_life t)) (floatingTexts s)) s.

(** The game logic of one frame, run when the state is PLAYING. *)
Definition gameLogic (time : Q) (cv : Canvas) (s : Game) : option Game :=
  let groundY := height cv - 40 in
  match spawnEnemy time cv s with
  | None => None
  | Some s =>
      let s := checkWaveClear time cv s in
      let s := updateInterceptors s in
      let s := set_explosions (map stepExplosion (explosions s)) s in
      match updateEnemies groundY time s with
      | None => None
      | Some s =>
          let s := set_particles (map stepParticle (particles s)) s in
          let s := set_floatingTexts (map stepFloatingText (floatingTexts s)) s in
          Some (cleanup s)
      end
  end.

(** [update(time)]; [canvas] is [None] when [canvasRef.current] or its 2d
    context is null. *)
Definition update (time : Q) (canvas : option Canvas) (s : Game) : option Game :=
  let dt := time - lastTime s in
  (* Cap dt to prevent huge jumps if tab was inactive *)
  let safeDt := Qmin dt 50 in
  let s := set_lastTime time s in
  match canvas with
  | None => Some s
  | Some cv =>
      let isPaused := negb (GameState_eqb (gameState s) PLAYING) in
      if negb isPaused then gameLogic time cv s else Some s
  end.

(** *** Input handling *)

Definition inputTowerPositions (cv : Canvas) : list TowerPos :=
  let towerY := height cv - 60 in
  [ {| tp_x := width cv * 0.1; tp_y := towerY; tp_idx := 0 |};
    {| tp_x := width cv * 0.5; tp_y := towerY; tp_idx := 1 |};
    {| tp_x := width cv * 0.9; tp_y := towerY; tp_idx := 2 |} ].

(** [d] in the loop of [handleInput]:
    [Math.sqrt(Math.pow(t.x - x, 2) + Math.pow(t.y - y, 2))], each
    operation returning a double. *)
Definition tapDistance (x y : Q) (t : TowerPos) : Q :=
  Math_sqrt M
    (Number_round M
       (Math_pow M (Number_round M (tp_x t - x)) 2 +
        Math_pow M (Number_round M (tp_y t - y)) 2)).

(** [d < minDist]; [minDist] is [None] while it is [Infinity]. *)
Definition closer (d : Q) (minDist : option Q) : bool :=
  match minDist with
  | None => true
  | Some m => Qltb d m
  end.

(** The loop [towerPositions.forEach] of [handleInput], on the pair
    [(nearestTower, minDist)]. *)
Fixpoint searchNearest (x y : Q) (ts : list Tower) (positions : list TowerPos)
    (acc : Z * option Q) : option (Z * option Q) :=
  match positions with
  | [] => Some acc
  | t :: positions' =>
      let d := tapDistance x y t in
      if closer d (snd acc) then
        match arrayGet ts (tp_idx t) with
        | None => None
        | Some tw =>
            if t_alive tw && (0 <? t_ammo tw)%Z
            then searchNearest x y ts positions' (tp_idx t, Some d)
            else searchNearest x y ts positions' acc
        end
      else searchNearest x y ts positions' acc
  end.

Definition launch (x y : Q) (tPos : TowerPos) (nearestTower : Z) (id : Q)
    : Interceptor :=
  let speed := 15 in
  let angle := Math_atan2 M (y - tp_y tPos) (x - tp_x tPos) in
  {| i_id := id; i_x := tp_x tPos; i_y := tp_y tPos;
     i_vx := Math_cos M angle * speed; i_vy := Math_sin M angle * speed;
     i_color := COLORS.primary; i_dead := false;
     i_target := {| p_x := x; p_y := y |}; i_speed := speed;
     i_trail := []; i_originTowerIndex := nearestTower |}.

Definition handleInput (clientX clientY : Q) (canvas : option Canvas)
    (rect : Rect) (s : Game) : option Game :=
  if negb (GameState_eqb (gameState s) PLAYING) then Some s else
  match canvas with
  | None => Some s
  | Some cv =>
      let x := clientX - left rect in
      let y := clientY - top rect in
      let positions := inputTowerPositions cv in
      match searchNearest x y (towers s) positions ((-1)%Z, None) with
      | None => None
      | Some (nearestTower, _) =>
          if negb (nearestTower =? -1)%Z then
            match arrayGet positions nearestTower with
            | None => None
            | Some tPos =>
                let (id, s) := random s in
                let s := set_interceptors
                           (interceptors s ++ [ launch x y tPos nearestTower id ]) s in
                (* Decrease ammo in Ref AND State *)
                match arrayGet (towers s) nearestTower with
                | None => None
                | Some _ =>
                    Some (set_towers
                            (modify useAmmo (Z.to_nat nearestTower) (towers s)) s)
                end
            end
          else Some s
      end
  end.

(** *** Buttons and timers *)

(** The pause button of the HUD.  Its handler tests the React state
    [gameState] of the render that created it, here [shown], and writes the
    state and the ref. *)
Definition pauseButton (shown : GameState) (s : Game) : Game :=
  if GameState_eqb shown PLAYING then set_gameState PAUSED s
  else if GameState_eqb shown PAUSED then set_gameState PLAYING s
  else s.

(** The two buttons of the PAUSED overlay. *)
Definition resumeButton (s : Game) : Game := set_gameState PLAYING s.
Definition quitButton (s : Game) : Game := set_gameState MENU s.

(** The endless-mode button of the VICTORY overlay. *)
Definition endlessButton (now : Q) (s : Game) : Game :=
  let s := set_gameState PLAYING s in
  let s := set_isEndlessMode true s in
  (* Endless mode logic: just continue *)
  nextWave now s.

Definition runCallback (a : TimerAction) (s : Game) : Game :=
  match a with
  | SetGameState g => set_gameState g s
  | ClearShake => set_shake 0 s
  end.

(** The [n]-th pending callback runs and leaves the timer queue. *)
Definition fireTimer (n : nat) (s : Game) : Game :=
  match nth_error (timers s) n with
  | None => s
  | Some t =>
      runCallback (tm_action t)
        (set_timers (firstn n (timers s) ++ skipn (S n) (timers s)) s)
  end.

(** One event of the browser, on a page that React has rendered since the
    last write of the state, so that the overlays and the pause button see
    the current state ([pageStep] below is the page between two renders).
    A button exists only while the overlay that contains it is rendered, so
    a click on it in another state is no event at all; [step] leaves the
    game as it is there. *)
Definition step (ev : Event) (s : Game) : option Game :=
  match ev with
  | StartClick now =>
      Some (if GameState_eqb (gameState s) MENU then initGame now s else s)
  | RestartClick now =>
      Some (if GameState_eqb (gameState s) GAME_OVER
               || GameState_eqb (gameState s) VICTORY
            then initGame now s else s)
  | PauseClick => Some (pauseButton (gameState s) s)
  | ResumeClick =>
      Some (if GameState_eqb (gameState s) PAUSED then resumeButton s else s)
  | QuitClick =>
      Some (if GameState_eqb (gameState s) PAUSED then quitButton s else s)
  | NextWaveClick now =>
      Some (if GameState_eqb (gameState s) WAVE_COMPLETE then nextWave now s else s)
  | EndlessClick now =>
      Some (if GameState_eqb (gameState s) VICTORY then endlessButton now s else s)
  | Tap clientX clientY canvas rect => handleInput clientX clientY canvas rect s
  | Frame time canvas => update time canvas s
  | Timeout n => Some (fireTimer n s)
  end.

(** A run of the game: the events are handled one after the other. *)
Fixpoint run (evs : list Event) (s : Game) : option Game :=
  match evs with
  | [] => Some s
  | ev :: evs' =>
      match step ev s with
      | None => None
      | Some s' => run evs' s'
      end
  end.

(** The states a game can be in: those a run reaches from the mounted
    component. *)
Definition reachable (s : Game) : Prop :=
  exists evs, run evs mounted = Some s.

(** *** The page between two renders

    [setGameState] and [gameStateRef.current] are assigned together, but the
    overlays and the closures of the buttons are those of the last render:
    they hold the value the React state [gameState] had then.  A write made
    by [update] or by a [setTimeout] callback is rendered later, so that
    until then the page still shows, and the pause button still tests, the
    value before the write.  The write of a click handler is rendered before
    the next event is delivered. *)
Record Page : Type := { refs : Game; shown : GameState }.

(** The buttons carried by a page rendered for state [g]: each overlay has
    its own, the pause button is always there; the canvas, the frames and
    the timers do not depend on the render. *)
Definition offered (ev : Event) (g : GameState) : bool :=
  match ev, g with
  | StartClick _, MENU
  | RestartClick _, GAME_OVER | RestartClick _, VICTORY
  | ResumeClick, PAUSED | QuitClick, PAUSED
  | NextWaveClick _, WAVE_COMPLETE
  | EndlessClick _, VICTORY => true
  | PauseClick, _ | Tap _ _ _ _, _ | Frame _ _, _ | Timeout _, _ => true
  | _, _ => false
  end.

(** The handlers as they are written: no button callback tests the state,
    except the pause button, which tests the [gameState] of its closure. *)
Definition handle (ev : Event) (g : GameState) (s : Game) : option Game :=
  match ev with
  | StartClick now | RestartClick now => Some (initGame now s)
  | PauseClick => Some (pauseButton g s)
  | ResumeClick => Some (resumeButton s)
  | QuitClick => Some (quitButton s)
  | NextWaveClick now => Some (nextWave now s)
  | EndlessClick now => Some (endlessButton now s)
  | Tap clientX clientY canvas rect => handleInput clientX clientY canvas rect s
  | Frame time canvas => update time canvas s
  | Timeout n => Some (fireTimer n s)
  end.

(** The clicks whose handler calls [setGameState]. *)
Definition rerenders (ev : Event) (g : GameState) : bool :=
  match ev with
  | PauseClick => GameState_eqb g PLAYING || GameState_eqb g PAUSED
  | Tap _ _ _ _ | Frame _ _ | Timeout _ => false
  | _ => true
  end.

Inductive PageEvent : Type :=
  | Handle (ev : Event)   (* an event reaches its handler *)
  | Render.               (* React renders the pending state *)

(** One step of the page.  [None] stands for an uncaught exception, and
    also for a click on a button that the page does not carry: such a
    sequence of events is not a run of the page. *)
Definition pageStep (e : PageEvent) (p : Page) : option Page :=
  match e with
  | Render => Some {| refs := refs p; shown := gameState (refs p) |}
  | Handle ev =>
      if offered ev (shown p) then
        match handle ev (shown p) (refs p) with
        | None => None
        | Some s' =>
            Some {| refs := s';
                    shown := if rerenders ev (shown p) then gameState s'
                             else shown p |}
        end
      else None
  end.

Fixpoint pageRun (es : list PageEvent) (p : Page) : option Page :=
  match es with
  | [] => Some p
  | e :: es' =>
      match pageStep e p with
      | None => None
      | Some p' => pageRun es' p'
      end
  end.

(** The page when the component is mounted. *)
Definition mountedPage : Page := {| refs := mounted; shown := MENU |}.

End Engine.

(** ** A Math object to run the engine on

    [sampleMath rnd] is exact at the quarter turns: [atan2] of a direction
    along an axis, and [cos] and [sin] of 0, PI/2, -PI/2 and PI, with 355/113
    standing for PI.  Elsewhere it answers with a low-order polynomial; the
    runs below only reach the exact cases.  [rnd] is the sequence
    [Math.random()] returns. *)

Definition samplePI : Q := 355 # 113.

Definition sampleAtan2 (y x : Q) : Q :=
  if Qeq_bool x 0 then
    if Qltb 0 y then samplePI / 2
    else if Qltb y 0 then - (samplePI / 2) else 0
  else if Qeq_bool y 0 then
    if Qltb 0 x then 0 else samplePI
  else if Qltb 0 x then y / x
  else if Qltb 0 y then samplePI + y / x else y / x - samplePI.

Definition sampleCos (a : Q) : Q :=
  if Qeq_bool a 0 then 1
  else if Qeq_bool a (samplePI / 2) || Qeq_bool a (- (samplePI / 2)) then 0
  else if Qeq_bool a samplePI then -1
  else 1 - a * a / 2.

Definition sampleSin (a : Q) : Q :=
  if Qeq_bool a 0 || Qeq_bool a samplePI then 0
  else if Qeq_bool a (samplePI / 2) then 1
  else if Qeq_bool a (- (samplePI / 2)) then -1
  else a - a * a * a / 6.

(** *** Doubles

    The arithmetic of IEEE binary64 numbers on rationals: rounding to 53
    significant bits, a tie going to the even significand.  Overflow and
    subnormal numbers are left out. *)

(** The largest [k] with [2^k <= n / d]. *)
Definition log2floor (n d : positive) : Z :=
  let k := (Z.log2 (Zpos n) - Z.log2 (Zpos d))%Z in
  if (Zpos n * 2 ^ Z.max 0 (- k) <? Zpos d * 2 ^ Z.max 0 k)%Z then (k - 1)%Z else k.

(** [n / d] rounded to the nearest integer, a tie going to the even one. *)
Definition roundHalfEven (n d : Z) : Z :=
  let q := (n / d)%Z in
  let r := (n mod d)%Z in
  if (2 * r <? d)%Z then q
  else if (d <? 2 * r)%Z then (q + 1)%Z
  else if Z.even q then q else (q + 1)%Z.

(** [m * 2^e], in lowest terms. *)
Definition scale2 (m e : Z) : Q :=
  Qred (if (0 <=? e)%Z then inject_Z (m * 2 ^ e) else Qmake m (Z.to_pos (2 ^ (- e)))).

(** The double nearest to [q]. *)
Definition roundDouble (q : Q) : Q :=
  match Qnum q with
  | Z0 => 0
  | Zpos n | Zneg n =>
      let e := (log2floor n (Qden q) - 52)%Z in
      let m := roundHalfEven (Zpos n * 2 ^ Z.max 0 (- e)) (Zpos (Qden q) * 2 ^ Z.max 0 e) in
      scale2 (Z.sgn (Qnum q) * m) e
  end.

(** [Math.sqrt]: the double nearest to the square root of [q]; 0 stands in
    for the NaN of a negative argument. *)
Definition sqrtDouble (q : Q) : Q :=
  match Qnum q with
  | Zpos n =>
      let e := (log2floor n (Qden q) / 2 - 52)%Z in
      let N := (Zpos n * 2 ^ Z.max 0 (- (2 * e)))%Z in
      let D := (Zpos (Qden q) * 2 ^ Z.max 0 (2 * e))%Z in
      let m := Z.sqrt (N / D) in
      let c := ((2 * m + 1) * (2 * m + 1) * D)%Z in
      let m' := if (c <? 4 * N)%Z then (m + 1)%Z
                else if (4 * N <? c)%Z then m
                else if Z.even m then m else (m + 1)%Z in
      scale2 m' e
  | _ => 0
  end.

(** [Math.pow] on doubles, for the whole exponents the engine uses. *)
Definition samplePow (a b : Q) : Q := roundDouble (Qpower a (Qfloor b)).

Definition sampleMath (rnd : nat -> Q) : MathObject :=
  {| Math_cos := sampleCos; Math_sin := sampleSin; Math_atan2 := sampleAtan2;
     Math_sqrt := sqrtDouble; Math_pow := samplePow;
     Math_PI := samplePI; Math_random := rnd; Number_round := roundDouble |}.

(** ** Runs used to exercise the engine *)

Definition canvas800 : Canvas := {| width := 800; height := 600 |}.
Definition canvas100 : Canvas := {| width := 800; height := 100 |}.
Definition origin : Rect := {| left := 0; top := 0 |}.

(** [n] frames on canvas [cv], the first at time [t], [dt] apart. *)
Fixpoint frames (cv : Canvas) (n : nat) (t dt : Q) : list Event :=
  match n with
  | O => []
  | S n' => Frame t (Some cv) :: frames cv n' (t + dt) dt
  end.

(** The state a run ends in ([mounted] stands in for a run that threw). *)
Definition stateAfter (M : MathObject) (evs : list Event) (s : Game) : Game :=
  match run M evs s with
  | Some s' => s'
  | None => mounted
  end.

(** Two lists of numbers that agree as rationals. *)
Fixpoint sameNumbers (l1 l2 : list Q) : bool :=
  match l1, l2 with
  | [], [] => true
  | a :: l1', b :: l2' => Qeq_bool a b && sameNumbers l1' l2'
  | _, _ => false
  end.

(** [Math.random()] always returning 0. *)
Definition quietMath : MathObject := sampleMath (fun _ => 0).

(** A game just started, and the same game with one interceptor in flight
    from the middle tower, straight up towards (400, 300). *)
Definition deployed : Game := initGame 0 mounted.

Definition tapMiddle : Event := Tap 400 300 (Some canvas800) origin.

Definition airborne : Game := stateAfter quietMath [ tapMiddle ] deployed.

(** The scenario of the end-of-wave bonus: wave 3, score 600, nothing in
    the air, two towers alive with 10 and 0 ammo and one tower destroyed. *)
Definition waveThreeCleared : Game :=
  {| gameState := PLAYING; score := 600; wave := 3; waveRef := 3;
     towers :=
       [ {| t_x := 0; t_y := 0; t_ammo := 10; t_maxAmmo := 20; t_alive := true |};
         {| t_x := 0; t_y := 0; t_ammo := 0; t_maxAmmo := 40; t_alive := true |};
         {| t_x := 0; t_y := 0; t_ammo := 0; t_maxAmmo := 20; t_alive := false |} ];
     cities := initialCities;
     enemies := []; interceptors := []; explosions := []; particles := [];
     floatingTexts := []; lastTime := 1484; spawnTimer := 1000;
     isWaveClearing := true; isEndlessMode := false;
     waveBonus := 0; shake := 0; timers := []; draws := 0 |}.

(** A first wave played from the mounted component: ten frames two seconds
    apart each spawn an enemy above the middle tower (the random draws pick
    target 7 and the start abscissa 400), one tap at (400, 30) sends an
    interceptor, whose blast and its chain destroy the ten enemies; seventy
    more frames later the score is 200, the wave is clearing and nothing is
    in the air. *)
Definition columnRandom (k : nat) : Q :=
  if (k <? 30)%nat then
    match (k mod 3)%nat with
    | O => 7 # 9
    | 1%nat => 1 # 2
    | _ => 0
    end
  else 0.

Definition columnMath : MathObject := sampleMath columnRandom.

Definition firstWave : list Event :=
  StartClick 0 :: frames canvas800 10 2000 2000 ++
  [ Tap 400 30 (Some canvas800) origin ] ++ frames canvas800 70 20016 16.

(** The game loses its six cities: six frames two seconds apart each spawn
    an enemy straight above one city of a canvas 100 high, and sixty-one
    more frames bring five of them down; the next frame brings down the
    sixth. *)
Definition siegeRandom (k : nat) : Q :=
  nth k [ 0; 0.2; 0;  1 # 9; 0.3; 0;  2 # 9; 0.4; 0;
          3 # 9; 0.6; 0;  4 # 9; 0.7; 0;  5 # 9; 0.8; 0 ] 0.

Definition siegeMath : MathObject := sampleMath siegeRandom.

Definition siege : list Event :=
  StartClick 0 :: frames canvas100 6 2000 2000 ++ frames canvas100 61 12016 16.

Definition lastStand : Game := stateAfter siegeMath siege mounted.

Definition lastFrame : Event := Frame 12992 (Some canvas100).

Definition fallen : Game := stateAfter siegeMath [ lastFrame ] lastStand.

(** The chain kill: a started game with two enemies falling side by side,
    50 apart; the first is 40 from the point (400, 300) the player taps, the
    second 90 from it, out of reach of a blast of radius 60 there. *)
Definition fallingAt (x y : Q) (target : Z) : Enemy :=
  {| e_id := 0; e_x := x; e_y := y; e_vx := 0; e_vy := 1.2;
     e_color := COLORS.danger; e_dead := false; e_targetIndex := target;
     e_speed := 1.2; e_trail := [] |}.

Definition chainStart : Game :=
  set_enemies [ fallingAt 440 260 3; fallingAt 490 260 4 ] deployed.

Definition chain (n : nat) : list Event := tapMiddle :: frames canvas800 n 16 16.

(** What a run shows of the chain: score, enemies left, interceptors in
    flight, blasts, ammo. *)
Definition tally (s : Game) : Z * nat * nat * nat * list Z :=
  (score s, List.length (enemies s), List.length (interceptors s),
   List.length (explosions s), map t_ammo (towers s)).

(** A game with the middle tower destroyed and the third city lost. *)
Definition battered : Game :=
  set_cities (modify destroyCity 2 initialCities)
    (set_towers (modify destroyTower 1 initialTowers) deployed).

(** An enemy about to enter a blast of radius 44 around (400, 300). *)
Definition blastAt400 : Explosion :=
  {| x_id := 0; x_x := 400; x_y := 300; x_radius := 44; x_maxRadius := 60;
     x_growthRate := 4; x_life := 1; x_color := COLORS.primary |}.

Definition underBlast : Game := set_explosions [ blastAt400 ] deployed.


(** ** Vocabulary of the properties *)

Definition allCitiesDead (s : Game) : bool :=
  forallb (fun c => negb (c_alive c)) (cities s).

Definition someCityAlive (s : Game) : bool := existsb c_alive (cities s).

(** Elementwise: a city that is alive afterwards was alive before. *)
Definition citiesNotRestored (cs cs' : list City) : Prop :=
  Forall2 (fun c c' => c_alive c' = true -> c_alive c = true) cs cs'.

(** Elementwise: no tower has more ammo afterwards, and ammo that was not
    negative is not negative afterwards. *)
Definition ammoNotIncreased (ts ts' : list Tower) : Prop :=
  Forall2 (fun t t' => (t_ammo t' <= t_ammo t)%Z /\
                       ((0 <= t_ammo t)%Z -> (0 <= t_ammo t')%Z)) ts ts'.

(** The callbacks [update] hands to [setTimeout]. *)
Definition engineTimer (t : Timer) : bool :=
  match tm_action t with
  | ClearShake | SetGameState WAVE_COMPLETE | SetGameState VICTORY => true
  | SetGameState _ => false
  end.

(** The shape every run keeps: three towers, six cities, enemies aimed at
    one of the nine structures, no negative ammo or capacity, only timers of
    the engine,
    and the wave ref in step with the wave state. *)
Record wellFormed (s : Game) : Prop := {
  wf_towers : List.length (towers s) = 3%nat;
  wf_cities : List.length (cities s) = 6%nat;
  wf_targets : Forall (fun e => (0 <= e_targetIndex e < 9)%Z) (enemies s);
  wf_ammo : Forall (fun t => (0 <= t_ammo t)%Z) (towers s);
  wf_maxAmmo : Forall (fun t => (0 <= t_maxAmmo t)%Z) (towers s);
  wf_timers : forallb engineTimer (timers s) = true;
  wf_wave : waveRef s = wave s }.

(** What one frame or one tap may do to the structures and to the state
    machine: cities are not restored, ammo does not grow, the state is kept
    or becomes GAME_OVER with the last city just lost, and defeat is
    recorded whenever the cities are all dead. *)
Record evolves (s s' : Game) : Prop := {
  ev_cities : citiesNotRestored (cities s) (cities s');
  ev_towers : Forall (fun t => (0 <= t_ammo t)%Z) (towers s) ->
              ammoNotIncreased (towers s) (towers s');
  ev_towers_length : List.length (towers s') = List.length (towers s);
  ev_maxAmmo : map t_maxAmmo (towers s') = map t_maxAmmo (towers s);
  ev_state : gameState s' = gameState s \/
             (gameState s' = GAME_OVER /\ allCitiesDead s' = true /\
              someCityAlive s = true);
  ev_defeat : (allCitiesDead s = true -> gameState s = GAME_OVER) ->
              allCitiesDead s' = true -> gameState s' = GAME_OVER;
  ev_wave : wave s' = wave s;
  ev_waveRef : waveRef s' = waveRef s;
  ev_timers : forallb engineTimer (timers s) = true ->
              forallb engineTimer (timers s') = true }.

(** The test [handleInput] makes of a tower: alive and ammo left. *)
Definition canFire (t : Tower) : bool := t_alive t && (0 <? t_ammo t)%Z.

(** What a frame makes of an interceptor: it moves, and it is dead once it
    is within its speed of its target. *)
Definition advanceInterceptor (p : Interceptor) : Interceptor :=
  let p' := moveInterceptor p in
  if distance_lt (interceptorPoint p') (i_target p') (i_speed p')
  then killInterceptor p' else p'.

(** [Math.random()] returns a number in the range 0 (inclusive) to 1
    (exclusive). *)
Definition unitRandom (M : MathObject) : Prop :=
  forall k, 0 <= Math_random M k /\ Math_random M k < 1.

(** GAME_OVER is only shown over six dead cities. *)
Definition noFalseDefeat (s : Game) : Prop :=
  gameState s = GAME_OVER -> allCitiesDead s = true.

(** The two resets that refill towers. *)
Inductive ResetKind : Type := NewWave | GameStart.

(** The reset an event performs in a state, if any: the buttons that call
    [nextWave] or [initGame], in the states whose overlay shows them. *)
Definition resetOf (ev : Event) (g : GameState) : option ResetKind :=
  match ev, g with
  | NextWaveClick _, WAVE_COMPLETE | EndlessClick _, VICTORY => Some NewWave
  | StartClick _, MENU | RestartClick _, GAME_OVER
  | RestartClick _, VICTORY => Some GameStart
  | _, _ => None
  end.

(** The transitions of the state machine as the code makes them. *)
Definition codeTransition (ev : Event) (g g' : GameState) : bool :=
  match ev, g, g' with
  | StartClick _, MENU, PLAYING
  | RestartClick _, GAME_OVER, PLAYING | RestartClick _, VICTORY, PLAYING
  | PauseClick, PLAYING, PAUSED | PauseClick, PAUSED, PLAYING
  | ResumeClick, PAUSED, PLAYING
  | QuitClick, PAUSED, MENU
  | NextWaveClick _, WAVE_COMPLETE, PLAYING
  | EndlessClick _, VICTORY, PLAYING
  | Frame _ _, PLAYING, GAME_OVER
  | Timeout _, PLAYING, WAVE_COMPLETE | Timeout _, PLAYING, VICTORY => true
  | _, _, _ => false
  end.

(** The transitions the specification lists: start, the pause toggle,
    defeat, wave completion and victory after the grace delay, next wave,
    endless continuation, and the restart from the two terminal states
    (whether it is read as going through the menu or straight to a reset
    game). *)
Definition listedTransition (g g' : GameState) : bool :=
  match g, g' with
  | MENU, PLAYING
  | PLAYING, PAUSED | PAUSED, PLAYING
  | PLAYING, GAME_OVER | PLAYING, WAVE_COMPLETE | PLAYING, VICTORY
  | WAVE_COMPLETE, PLAYING | VICTORY, PLAYING
  | GAME_OVER, MENU | GAME_OVER, PLAYING | VICTORY, MENU => true
  | _, _ => false
  end.

(** Taps, frames and the clicks and callbacks that do not reset towers. *)
Definition keepsWave (ev : Event) : bool :=
  match ev with
  | StartClick _ | RestartClick _ | NextWaveClick _ | EndlessClick _ => false
  | _ => true
  end.

(** The test of the loop over explosions: the enemy is inside the blast. *)
Definition covers (e : Enemy) (b : Explosion) : bool :=
  distance_lt (enemyPoint e) (explosionPoint b) (x_radius b).


(** ** Vocabulary of the further properties *)

(** The ammo left in all towers together. *)
Definition totalAmmo (ts : list Tower) : Z :=
  fold_right (fun t sum => (t_ammo t + sum)%Z) 0%Z ts.

(** Taps, and frames and taps. *)
Definition isTap (ev : Event) : bool :=
  match ev with
  | Tap _ _ _ _ => true
  | _ => false
  end.

Definition isFrameOrTap (ev : Event) : bool :=
  match ev with
  | Tap _ _ _ _ | Frame _ _ => true
  | _ => false
  end.

(** The timestamp of the last frame of a list of events, [t] if there is
    none. *)
Fixpoint lastFrameTime (evs : list Event) (t : Q) : Q :=
  match evs with
  | [] => t
  | Frame time _ :: evs' => lastFrameTime evs' time
  | _ :: evs' => lastFrameTime evs' t
  end.

(** A structure index that points at a destroyed city or tower. *)
Definition aimsAtRuin (e : Enemy) (s : Game) : Prop :=
  if (e_targetIndex e <? 6)%Z
  then exists c, arrayGet (cities s) (e_targetIndex e) = Some c /\ c_alive c = false
  else exists t, arrayGet (towers s) (e_targetIndex e - 6) = Some t /\ t_alive t = false.

(** A structure index that points at a city or tower that is alive. *)
Definition aimsAtAlive (e : Enemy) (s : Game) : Prop :=
  if (e_targetIndex e <? 6)%Z
  then exists c, arrayGet (cities s) (e_targetIndex e) = Some c /\ c_alive c = true
  else exists t, arrayGet (towers s) (e_targetIndex e - 6) = Some t /\ t_alive t = true.


(** A blast as [spawnExplosion] makes it. *)
Definition freshBlast (b : Explosion) : Prop :=
  x_radius b = 0 /\ x_maxRadius b = 60 /\ x_growthRate b = 4 /\ x_life b = 1.

(** The explosions of [s'] are those of [s] followed by fresh blasts. *)
Definition blastsAdded (s s' : Game) : Prop :=
  exists bs, explosions s' = explosions s ++ bs /\ Forall freshBlast bs.





(** The started game with an interceptor one step from its target
    (400, 300), an enemy about to pass through that point, an enemy a step
    above the impact line and an enemy far from both. *)
Definition crossfire : Game :=
  set_interceptors
    [ {| i_id := 0; i_x := 400; i_y := 310; i_vx := 0; i_vy := -15;
         i_color := COLORS.primary; i_dead := false;
         i_target := {| p_x := 400; p_y := 300 |}; i_speed := 15;
         i_trail := []; i_originTowerIndex := 1 |} ]
    (set_enemies [ fallingAt 400 299 3; fallingAt 700 554 5; fallingAt 100 100 4 ]
       deployed).

(** A particle as [spawnParticles] makes it at a point, in a colour. *)
Definition freshParticle (x y : Q) (color : string) (p : Particle) : Prop :=
  pt_x p = x /\ pt_y p = y /\ pt_color p = color /\ pt_dead p = false /\
  pt_life p = 1 /\ pt_maxLife p = 1 /\ 1 <= pt_size p /\ pt_size p <= 3.

(** What the properties use of the rounding of doubles: it is monotone, and
    exact on the whole numbers up to 2^53. *)
Definition roundsToNearest (M : MathObject) : Prop :=
  (forall a b, a <= b -> Number_round M a <= Number_round M b) /\
  (forall n : Z, (Z.abs n <= 2 ^ 53)%Z ->
                 Number_round M (inject_Z n) == inject_Z n).

(** A coarse arithmetic, rounding to the nearest half, and a [Math.random()]
    that always returns 0.9. *)
Definition roundToHalves (q : Q) : Q := inject_Z (Qfloor (2 * q + (1 # 2))) / 2.

Definition coarseMath : MathObject :=
  {| Math_cos := sampleCos; Math_sin := sampleSin; Math_atan2 := sampleAtan2;
     Math_sqrt := sqrtDouble; Math_pow := samplePow;
     Math_PI := samplePI; Math_random := fun _ => 0.9;
     Number_round := roundToHalves |}.

(** A started game with every city and every tower destroyed. *)
Definition razed : Game :=
  set_cities (map destroyCity initialCities)
    (set_towers (map destroyTower initialTowers) deployed).

(** The started game with a blast of radius 44 around (400, 300), one enemy
    about to move into it and one far from it. *)
Definition underFire : Game :=
  set_enemies [ fallingAt 400 299 3; fallingAt 100 100 4 ] underBlast.

(** The started game with one enemy a step above the impact line of a
    canvas 600 high, aimed at the fourth city, and one far above. *)
Definition atTheLine : Game :=
  set_enemies [ fallingAt 400 554 3; fallingAt 100 100 4 ] deployed.

(** The started game with an interceptor on its way up that has 10 trail
    points and an enemy that has 15. *)
Definition trailing : Game :=
  set_interceptors
    [ {| i_id := 0; i_x := 400; i_y := 400; i_vx := 0; i_vy := -15;
         i_color := COLORS.primary; i_dead := false;
         i_target := {| p_x := 400; p_y := 100 |}; i_speed := 15;
         i_trail := repeat {| p_x := 400; p_y := 540 |} 10;
         i_originTowerIndex := 1 |} ]
    (set_enemies
       [ {| e_id := 0; e_x := 100; e_y := 100; e_vx := 0; e_vy := 1.2;
            e_color := COLORS.danger; e_dead := false; e_targetIndex := 4;
            e_speed := 1.2; e_trail := repeat {| p_x := 100; p_y := 0 |} 15 |} ]
       deployed).

(** A blast just spawned at (400, 300). *)
Definition newBlast : Explosion :=
  {| x_id := 0; x_x := 400; x_y := 300; x_radius := 0; x_maxRadius := 60;
     x_growthRate := 4; x_life := 1; x_color := COLORS.primary |}.

(** * Properties *)

(** ** Comparisons, array reads and writes *)

Lemma Qltb_lt (a b : Q) : Qltb a b = true <-> a < b.
Proof.
  unfold Qltb. rewrite negb_true_iff. split.
  - intros H. apply Qnot_le_lt. intros Hle.
    apply Qle_bool_iff in Hle. congruence.
  - intros H. destruct (Qle_bool b a) eqn:E; [ | reflexivity ].
    apply Qle_bool_iff in E. lra.
Qed.

Lemma Qltb_ge (a b : Q) : Qltb a b = false <-> b <= a.
Proof.
  unfold Qltb. rewrite negb_false_iff. apply Qle_bool_iff.
Qed.

Lemma arrayGet_Some {A : Type} (arr : list A) (k : Z) (a : A) :
  arrayGet arr k = Some a ->
  (0 <= k)%Z /\ nth_error arr (Z.to_nat k) = Some a.
Proof.
  unfold arrayGet. destruct (Z.ltb_spec k 0); [ discriminate | auto ].
Qed.

Lemma arrayGet_in_range {A : Type} (arr : list A) (k : Z) :
  (0 <= k < numLength arr)%Z -> exists a, arrayGet arr k = Some a.
Proof.
  unfold arrayGet, numLength. intros [H0 H1].
  destruct (Z.ltb_spec k 0); [ lia | ].
  destruct (nth_error arr (Z.to_nat k)) eqn:E; [ eauto | ].
  apply nth_error_None in E. lia.
Qed.

Lemma modify_length {A : Type} (f : A -> A) (k : nat) (arr : list A) :
  List.length (modify f k arr) = List.length arr.
Proof.
  revert k. induction arr as [ | a arr IH ]; intros [ | k ]; simpl; auto.
Qed.

(** A write to one element relates the array to itself elementwise as soon
    as the relation holds between that element and its new value. *)
Lemma modify_Forall2 {A : Type} (R : A -> A -> Prop) (f : A -> A) :
  (forall a, R a a) ->
  forall k arr, (forall a, nth_error arr k = Some a -> R a (f a)) ->
  Forall2 R arr (modify f k arr).
Proof.
  intros Hrefl k arr. revert k.
  induction arr as [ | a arr IH ]; intros [ | k ] Hf; simpl; constructor; auto.
  clear IH Hf. induction arr; constructor; auto.
Qed.

Lemma ammoNotIncreased_nonneg (ts ts' : list Tower) :
  ammoNotIncreased ts ts' ->
  Forall (fun t => (0 <= t_ammo t)%Z) ts ->
  Forall (fun t => (0 <= t_ammo t)%Z) ts'.
Proof.
  induction 1 as [ | t t' ts ts' [_ H] _ IH ]; intros Hall; [ constructor | ].
  inversion Hall; subst. constructor; auto.
Qed.

Lemma map_modify {A B : Type} (g : A -> B) (f : A -> A) :
  (forall a, g (f a) = g a) ->
  forall k arr, map g (modify f k arr) = map g arr.
Proof.
  intros H k arr. revert k.
  induction arr as [ | a arr IH ]; intros [ | k ]; simpl; congruence.
Qed.

Lemma Forall2_refl {A : Type} (R : A -> A -> Prop) :
  (forall a, R a a) -> forall l, Forall2 R l l.
Proof. intros H l. induction l; constructor; auto. Qed.

Lemma Forall2_trans {A : Type} (R : A -> A -> Prop) :
  (forall a b c, R a b -> R b c -> R a c) ->
  forall l1 l2 l3, Forall2 R l1 l2 -> Forall2 R l2 l3 -> Forall2 R l1 l3.
Proof.
  intros Htr l1 l2 l3 H12. revert l3.
  induction H12; intros l3 H23; inversion H23; subst; constructor; eauto.
Qed.

Lemma GameState_eqb_eq (a b : GameState) : GameState_eqb a b = true <-> a = b.
Proof. destruct a, b; simpl; split; congruence. Qed.

Lemma GameState_eqb_neq (a b : GameState) : GameState_eqb a b = false <-> a <> b.
Proof. destruct a, b; simpl; split; congruence. Qed.

Section Properties.

Variable M : MathObject.

(** ** What the spawning helpers leave alone *)

Lemma spawnParticles_frame {A : Type} (f : Game -> A) :
  (forall v s, f (set_particles v s) = f s) ->
  (forall v s, f (set_draws v s) = f s) ->
  forall x y n c s, f (spawnParticles M x y n c s) = f s.
Proof.
  intros Hp Hd x y n c. induction n as [ | n IH ]; intros s; simpl.
  - reflexivity.
  - unfold randomRange, random. cbn -[spawnParticles].
    rewrite IH, Hp. now rewrite !Hd.
Qed.

Lemma spawnExplosion_frame {A : Type} (f : Game -> A) :
  (forall v s, f (set_explosions v s) = f s) ->
  (forall v s, f (set_draws v s) = f s) ->
  forall x y c s, f (spawnExplosion M x y c s) = f s.
Proof.
  intros He Hd x y c s. unfold spawnExplosion, random. cbn.
  now rewrite He, Hd.
Qed.

Lemma addScore_frame {A : Type} (f : Game -> A) :
  (forall v s, f (set_floatingTexts v s) = f s) ->
  (forall v s, f (set_draws v s) = f s) ->
  (forall v s, f (set_score v s) = f s) ->
  forall a x y s, f (addScore M a x y s) = f s.
Proof.
  intros Ht Hd Hs a x y s. unfold addScore, random. cbn.
  now rewrite Ht, Hd, Hs.
Qed.

Lemma spawnEnemy_frame {A : Type} (f : Game -> A) :
  (forall v s, f (set_spawnTimer v s) = f s) ->
  (forall v s, f (set_draws v s) = f s) ->
  (forall v s, f (set_enemies v s) = f s) ->
  forall time cv s s', spawnEnemy M time cv s = Some s' -> f s' = f s.
Proof.
  intros Ht Hd He time cv s s'. unfold spawnEnemy, random.
  destruct (isWaveClearing s); [ congruence | ].
  destruct (Qltb _ _); [ | congruence ].
  destruct (_ <? _)%Z; cbn.
  - destruct (arrayGet _ _) as [ targetIdx | ]; [ | discriminate ].
    destruct (if (targetIdx <? 6)%Z then _ else _); [ | discriminate ].
    intros [= <-]. now rewrite He, !Hd, Ht.
  - intros [= <-]. apply Ht.
Qed.

Lemma forEach_frame {A B : Type} (f : Game -> B) (body : A -> Game -> A * Game) :
  (forall a s, f (snd (body a s)) = f s) ->
  forall arr s, f (snd (forEach body arr s)) = f s.
Proof.
  intros Hb arr. induction arr as [ | a arr IH ]; intros s; simpl.
  - reflexivity.
  - specialize (Hb a s). destruct (body a s) as [ a' s1 ].
    specialize (IH s1). destruct (forEach body arr s1). simpl in *.
    congruence.
Qed.

Lemma updateInterceptors_frame {A : Type} (f : Game -> A) :
  (forall v s, f (set_interceptors v s) = f s) ->
  (forall v s, f (set_explosions v s) = f s) ->
  (forall v s, f (set_draws v s) = f s) ->
  forall s, f (updateInterceptors M s) = f s.
Proof.
  intros Hi He Hd s. unfold updateInterceptors.
  pose proof (forEach_frame f (stepInterceptor M)) as H.
  specialize (H (fun a s0 => ltac:(
    unfold stepInterceptor; destruct (distance_lt _ _ _); simpl;
    [ apply spawnExplosion_frame; assumption | reflexivity ])) (interceptors s) s).
  destruct (forEach _ _ _). simpl in H. now rewrite Hi.
Qed.

Lemma cleanup_frame {A : Type} (f : Game -> A) :
  (forall v s, f (set_interceptors v s) = f s) ->
  (forall v s, f (set_enemies v s) = f s) ->
  (forall v s, f (set_explosions v s) = f s) ->
  (forall v s, f (set_particles v s) = f s) ->
  (forall v s, f (set_floatingTexts v s) = f s) ->
  forall s, f (cleanup s) = f s.
Proof.
  intros Hi He Hx Hp Ht s. unfold cleanup.
  now rewrite Ht, Hp, Hx, He, Hi.
Qed.

(** ** [evolves] is a preorder, and what keeps it *)

Lemma evolves_refl (s : Game) : evolves s s.
Proof.
  constructor; auto.
  - apply Forall2_refl. auto.
  - intros _. apply Forall2_refl. intros a. split; [ lia | auto ].
Qed.

Lemma citiesNotRestored_dead (cs cs' : list City) :
  citiesNotRestored cs cs' ->
  forallb (fun c => negb (c_alive c)) cs = true ->
  forallb (fun c => negb (c_alive c)) cs' = true.
Proof.
  induction 1 as [ | c c' cs cs' Hc _ IH ]; simpl; [ auto | ].
  rewrite !andb_true_iff, !negb_true_iff. intros [Hd Hrest]. split; auto.
  destruct (c_alive c'); [ | reflexivity ].
  rewrite Hc in Hd by reflexivity. discriminate.
Qed.

Lemma citiesNotRestored_alive (cs cs' : list City) :
  citiesNotRestored cs cs' -> existsb c_alive cs' = true -> existsb c_alive cs = true.
Proof.
  induction 1 as [ | c c' cs cs' Hc _ IH ]; simpl; [ auto | ].
  rewrite !orb_true_iff. intros [ H | H ]; auto.
Qed.

Lemma evolves_trans (s1 s2 s3 : Game) :
  evolves s1 s2 -> evolves s2 s3 -> evolves s1 s3.
Proof.
  intros H12 H23. constructor.
  - eapply Forall2_trans; [ | apply H12 | apply H23 ]. cbv beta. auto.
  - intros N1. pose proof (ev_towers _ _ H12 N1) as R12.
    pose proof (ammoNotIncreased_nonneg _ _ R12 N1) as N2.
    eapply Forall2_trans; [ | apply R12 | apply (ev_towers _ _ H23 N2) ].
    cbv beta. intros a b c [? ?] [? ?]. split; [ lia | auto ].
  - rewrite (ev_towers_length _ _ H23). apply (ev_towers_length _ _ H12).
  - rewrite (ev_maxAmmo _ _ H23). apply (ev_maxAmmo _ _ H12).
  - destruct (ev_state _ _ H23) as [ E23 | (E23 & D3 & A2) ].
    + destruct (ev_state _ _ H12) as [ E12 | (E12 & D2 & A1) ].
      * left. congruence.
      * right. repeat split; [ congruence | | assumption ].
        apply (citiesNotRestored_dead _ _ (ev_cities _ _ H23) D2).
    + right. repeat split; auto.
      apply (citiesNotRestored_alive _ _ (ev_cities _ _ H12) A2).
  - intros H1. apply (ev_defeat _ _ H23). apply (ev_defeat _ _ H12 H1).
  - rewrite (ev_wave _ _ H23). apply (ev_wave _ _ H12).
  - rewrite (ev_waveRef _ _ H23). apply (ev_waveRef _ _ H12).
  - intros H1. apply (ev_timers _ _ H23). apply (ev_timers _ _ H12 H1).
Qed.

(** A change that touches neither the structures nor the state machine,
    and adds only timers of the engine. *)
Lemma evolves_frame (s s' : Game) :
  gameState s' = gameState s -> cities s' = cities s ->
  towers s' = towers s -> wave s' = wave s -> waveRef s' = waveRef s ->
  (forallb engineTimer (timers s) = true ->
   forallb engineTimer (timers s') = true) ->
  evolves s s'.
Proof.
  intros Hg Hc Ht Hw Hr Htm.
  pose proof (evolves_refl s) as R.
  constructor; unfold allCitiesDead, someCityAlive; rewrite ?Hg, ?Hc, ?Ht; auto;
    apply R.
Qed.

(** Projections of setters. *)
Ltac fields :=
  cbn [ gameState score wave waveRef towers
        cities enemies interceptors explosions particles
        floatingTexts lastTime spawnTimer isWaveClearing isEndlessMode
        waveBonus shake timers draws set_gameState
        set_score set_wave set_waveRef set_towers set_cities
        set_enemies set_interceptors set_explosions set_particles set_floatingTexts
        set_lastTime set_spawnTimer set_isWaveClearing set_isEndlessMode set_waveBonus
        set_shake set_timers set_draws ] in *.

Arguments spawnParticles : simpl never.
Arguments spawnExplosion : simpl never.
Arguments addScore : simpl never.
Arguments triggerShake : simpl never.

Lemma triggerShake_evolves (i : Z) (now : Q) (s : Game) :
  evolves s (triggerShake i now s).
Proof.
  apply evolves_frame.
  1-5: reflexivity.
  unfold triggerShake, setTimeout. cbn [timers set_timers set_shake]. intros H.
  rewrite forallb_app, H. reflexivity.
Qed.

Lemma spawnExplosion_evolves (x y : Q) (c : string) (s : Game) :
  evolves s (spawnExplosion M x y c s).
Proof.
  apply evolves_frame.
  - apply (spawnExplosion_frame gameState); reflexivity.
  - apply (spawnExplosion_frame cities); reflexivity.
  - apply (spawnExplosion_frame towers); reflexivity.
  - apply (spawnExplosion_frame wave); reflexivity.
  - apply (spawnExplosion_frame waveRef); reflexivity.
  - rewrite (spawnExplosion_frame timers) by reflexivity. auto.
Qed.

Lemma spawnParticles_evolves (x y : Q) (n : nat) (c : string) (s : Game) :
  evolves s (spawnParticles M x y n c s).
Proof.
  apply evolves_frame.
  - apply (spawnParticles_frame gameState); reflexivity.
  - apply (spawnParticles_frame cities); reflexivity.
  - apply (spawnParticles_frame towers); reflexivity.
  - apply (spawnParticles_frame wave); reflexivity.
  - apply (spawnParticles_frame waveRef); reflexivity.
  - rewrite (spawnParticles_frame timers) by reflexivity. auto.
Qed.

Lemma addScore_evolves (a : Z) (x y : Q) (s : Game) :
  evolves s (addScore M a x y s).
Proof.
  apply evolves_frame.
  - apply (addScore_frame gameState); reflexivity.
  - apply (addScore_frame cities); reflexivity.
  - apply (addScore_frame towers); reflexivity.
  - apply (addScore_frame wave); reflexivity.
  - apply (addScore_frame waveRef); reflexivity.
  - rewrite (addScore_frame timers) by reflexivity. auto.
Qed.

Lemma blastCheck_evolves (e : Enemy) (s : Game) :
  evolves s (snd (blastCheck M e s)).
Proof.
  unfold blastCheck. destruct (caughtBy e (explosions s)); cbn [snd].
  - eapply evolves_trans; [ apply addScore_evolves | ].
    eapply evolves_trans; [ apply spawnParticles_evolves | ].
    apply spawnExplosion_evolves.
  - apply evolves_refl.
Qed.

Lemma nth_error_existsb {A : Type} (p : A -> bool) (l : list A) (k : nat) (a : A) :
  nth_error l k = Some a -> p a = true -> existsb p l = true.
Proof.
  intros Hn Hp. apply existsb_exists. exists a. split; [ | assumption ].
  eapply nth_error_In; eassumption.
Qed.

Lemma resolveImpact_evolves (time : Q) (e : Enemy) (s s' : Game) :
  resolveImpact time e s = Some s' -> evolves s s'.
Proof.
  unfold resolveImpact. pose proof (evolves_refl s) as R.
  destruct (e_targetIndex e <? 6)%Z.
  - destruct (arrayGet (cities s) (e_targetIndex e)) as [ c | ] eqn:Hget;
      [ | discriminate ].
    apply arrayGet_Some in Hget. destruct Hget as [_ Hnth].
    destruct (c_alive c) eqn:Halive;
      [ | intros [= <-]; exact R ].
    unfold triggerShake, setTimeout. fields.
    assert (Hcities : citiesNotRestored (cities s)
              (modify destroyCity (Z.to_nat (e_targetIndex e)) (cities s))).
    { apply modify_Forall2; [ auto | ]. intros a Ha _. congruence. }
    destruct (forallb _ _) eqn:Hall; intros [= <-];
      constructor; unfold allCitiesDead, someCityAlive; fields;
      try exact Hcities; try apply R.
    + right. repeat split; [ exact Hall | ].
      eapply nth_error_existsb; eassumption.
    + auto.
    + intros H. rewrite forallb_app, H. reflexivity.
    + left. reflexivity.
    + intros _ H. congruence.
    + intros H. rewrite forallb_app, H. reflexivity.
  - destruct (arrayGet (towers s) (e_targetIndex e - 6)) as [ t | ] eqn:Hget;
      [ | discriminate ].
    apply arrayGet_Some in Hget. destruct Hget as [_ Hnth].
    destruct (t_alive t) eqn:Halive;
      [ | intros [= <-]; exact R ].
    unfold triggerShake, setTimeout. fields. intros [= <-].
    constructor; unfold allCitiesDead, someCityAlive; fields; try apply R.
    + intros Hnn. apply modify_Forall2; [ intros a; split; [ lia | auto ] | ].
      intros a Ha. cbn. split; [ | lia ].
      rewrite Forall_forall in Hnn. apply Hnn.
      eapply nth_error_In; eassumption.
    + apply modify_length.
    + apply map_modify. reflexivity.
    + intros H. rewrite forallb_app, H. reflexivity.
Qed.

Lemma stepEnemy_evolves (groundY time : Q) (e e' : Enemy) (s s' : Game) :
  stepEnemy M groundY time e s = Some (e', s') -> evolves s s'.
Proof.
  unfold stepEnemy.
  pose proof (blastCheck_evolves (moveEnemy e) s) as Hb.
  destruct (blastCheck M (moveEnemy e) s) as [ e1 s1 ]. cbn [snd] in Hb.
  destruct (negb (e_dead e1) && Qle_bool (groundY - 5) (e_y e1)).
  - destruct (resolveImpact _ _ _) as [ s2 | ] eqn:Hr; [ | discriminate ].
    intros [= <- <-]. apply resolveImpact_evolves in Hr.
    eapply evolves_trans; [ exact Hb | ].
    eapply evolves_trans; [ apply spawnExplosion_evolves | ].
    eapply evolves_trans; [ apply spawnParticles_evolves | ].
    eapply evolves_trans; [ apply triggerShake_evolves | ].
    exact Hr.
  - intros [= <- <-]. exact Hb.
Qed.

(** What holds of the state before a loop and is kept by every turn of
    its body holds after the loop. *)
Lemma forEachE_invariant {A : Type} (body : A -> Game -> option (A * Game))
    (R : Game -> Game -> Prop) :
  (forall s, R s s) ->
  (forall s1 s2 s3, R s1 s2 -> R s2 s3 -> R s1 s3) ->
  (forall a s a' s', body a s = Some (a', s') -> R s s') ->
  forall arr s arr' s', forEachE body arr s = Some (arr', s') -> R s s'.
Proof.
  intros Hrefl Htrans Hbody arr.
  induction arr as [ | a arr IH ]; intros s arr' s'; simpl.
  - intros [= <- <-]. apply Hrefl.
  - destruct (body a s) as [ [a1 s1] | ] eqn:Hb; [ | discriminate ].
    destruct (forEachE body arr s1) as [ [arr1 s2] | ] eqn:Hf; [ | discriminate ].
    intros [= <- <-]. eapply Htrans; eauto.
Qed.

Lemma forEachE_Forall2 {A : Type} (body : A -> Game -> option (A * Game))
    (Q : A -> A -> Prop) :
  (forall a s a' s', body a s = Some (a', s') -> Q a a') ->
  forall arr s arr' s', forEachE body arr s = Some (arr', s') -> Forall2 Q arr arr'.
Proof.
  intros Hbody arr.
  induction arr as [ | a arr IH ]; intros s arr' s'; simpl.
  - intros [= <- <-]. constructor.
  - destruct (body a s) as [ [a1 s1] | ] eqn:Hb; [ | discriminate ].
    destruct (forEachE body arr s1) as [ [arr1 s2] | ] eqn:Hf; [ | discriminate ].
    intros [= <- <-]. constructor; eauto.
Qed.

Lemma setTimeout_evolves (a : TimerAction) (delay now : Q) (s : Game) :
  engineTimer {| tm_due := now + delay; tm_action := a |} = true ->
  evolves s (setTimeout a delay now s).
Proof.
  intros Ha. apply evolves_frame.
  1-5: reflexivity.
  unfold setTimeout. fields. intros H. rewrite forallb_app, H. cbn [forallb].
  now rewrite Ha.
Qed.

Lemma checkWaveClear_evolves (time : Q) (cv : Canvas) (s : Game) :
  evolves s (checkWaveClear M time cv s).
Proof.
  unfold checkWaveClear. cbv zeta.
  remember (if (waveRef s * 200 <=? score s)%Z && negb (isWaveClearing s)
            then set_isWaveClearing true s else s) as s1 eqn:E1.
  assert (H1 : evolves s s1).
  { subst s1. destruct (_ && _); [ | apply evolves_refl ].
    apply evolves_frame; auto. }
  clear E1.
  match goal with |- evolves _ (if ?c then _ else _) => destruct c end;
    [ | exact H1 ].
  remember (addScore M (ammoBonus (towers s1)) (width cv / 2) (height cv / 2)
              (set_waveBonus (ammoBonus (towers s1)) s1)) as s2 eqn:E2.
  assert (H2 : evolves s1 s2).
  { subst s2. eapply evolves_trans; [ | apply addScore_evolves ].
    apply evolves_frame; auto. }
  clear E2.
  apply (evolves_trans _ s1); [ exact H1 | ].
  apply (evolves_trans _ s2); [ exact H2 | ].
  match goal with
  | |- evolves _ (set_isWaveClearing false ?x) => apply (evolves_trans _ x)
  end; [ | apply evolves_frame; auto ].
  match goal with |- evolves _ (if ?c then _ else _) => destruct c end;
    apply setTimeout_evolves; reflexivity.
Qed.

Lemma spawnEnemy_evolves (time : Q) (cv : Canvas) (s s' : Game) :
  spawnEnemy M time cv s = Some s' -> evolves s s'.
Proof.
  intros H. apply evolves_frame.
  - apply (spawnEnemy_frame gameState) in H; auto.
  - apply (spawnEnemy_frame cities) in H; auto.
  - apply (spawnEnemy_frame towers) in H; auto.
  - apply (spawnEnemy_frame wave) in H; auto.
  - apply (spawnEnemy_frame waveRef) in H; auto.
  - apply (spawnEnemy_frame timers) in H; auto. now rewrite H.
Qed.

Lemma updateInterceptors_evolves (s : Game) : evolves s (updateInterceptors M s).
Proof.
  apply evolves_frame.
  - apply (updateInterceptors_frame gameState); reflexivity.
  - apply (updateInterceptors_frame cities); reflexivity.
  - apply (updateInterceptors_frame towers); reflexivity.
  - apply (updateInterceptors_frame wave); reflexivity.
  - apply (updateInterceptors_frame waveRef); reflexivity.
  - rewrite (updateInterceptors_frame timers) by reflexivity. auto.
Qed.

Lemma updateEnemies_evolves (groundY time : Q) (s s' : Game) :
  updateEnemies M groundY time s = Some s' -> evolves s s'.
Proof.
  unfold updateEnemies.
  destruct (forEachE _ _ _) as [ [es s1] | ] eqn:Hf; [ | discriminate ].
  intros [= <-].
  apply (evolves_trans _ s1); [ | apply evolves_frame; auto ].
  revert Hf. apply forEachE_invariant.
  - apply evolves_refl.
  - apply evolves_trans.
  - intros a s0 a' s0'. apply stepEnemy_evolves.
Qed.

Lemma cleanup_evolves (s : Game) : evolves s (cleanup s).
Proof. apply evolves_frame; auto. Qed.

Lemma gameLogic_evolves (time : Q) (cv : Canvas) (s s' : Game) :
  gameLogic M time cv s = Some s' -> evolves s s'.
Proof.
  unfold gameLogic.
  destruct (spawnEnemy M time cv s) as [ s1 | ] eqn:H1; [ | discriminate ].
  cbv zeta.
  remember (updateInterceptors M (checkWaveClear M time cv s1)) as s2 eqn:E2.
  destruct (updateEnemies _ _ _ _) as [ s3 | ] eqn:H3; [ | discriminate ].
  intros [= <-].
  apply (evolves_trans _ s1); [ apply (spawnEnemy_evolves _ _ _ _ H1) | ].
  apply (evolves_trans _ s2).
  { subst s2. eapply evolves_trans;
      [ apply checkWaveClear_evolves | apply updateInterceptors_evolves ]. }
  apply updateEnemies_evolves in H3.
  apply (evolves_trans _ s3).
  { eapply evolves_trans; [ | exact H3 ]. apply evolves_frame; auto. }
  eapply evolves_trans; [ | apply cleanup_evolves ].
  apply evolves_frame; auto.
Qed.

Lemma update_evolves (time : Q) (canvas : option Canvas) (s s' : Game) :
  update M time canvas s = Some s' -> evolves s s'.
Proof.
  unfold update. intros H.
  eapply evolves_trans; [ apply (evolves_frame s (set_lastTime time s)); auto | ].
  destruct canvas as [ cv | ]; [ | injection H as <-; apply evolves_refl ].
  destruct (negb (negb _)).
  - eapply gameLogic_evolves; eassumption.
  - injection H as <-. apply evolves_refl.
Qed.

(** ** [handleInput] *)

Lemma three_towers (ts : list Tower) :
  List.length ts = 3%nat -> exists t0 t1 t2, ts = [t0; t1; t2].
Proof.
  destruct ts as [ | t0 [ | t1 [ | t2 [ | ] ] ] ]; try discriminate. eauto.
Qed.

Lemma arrayGet_three {A : Type} (a0 a1 a2 a : A) (j : Z) :
  arrayGet [a0; a1; a2] j = Some a ->
  (j = 0%Z /\ a = a0) \/ (j = 1%Z /\ a = a1) \/ (j = 2%Z /\ a = a2).
Proof.
  intros H. apply arrayGet_Some in H. destruct H as [H0 H].
  destruct (Z.to_nat j) as [ | [ | [ | n ] ] ] eqn:E; simpl in H.
  - left. split; [ lia | congruence ].
  - right. left. split; [ lia | congruence ].
  - right. right. split; [ lia | congruence ].
  - destruct n; discriminate.
Qed.

Arguments tapDistance : simpl never.
Arguments Qltb : simpl never.
Arguments launch : simpl never.

Lemma handleInput_spec (clientX clientY : Q) (cv : Canvas) (rect : Rect) (s : Game) :
  gameState s = PLAYING -> List.length (towers s) = 3%nat ->
  let x := clientX - left rect in
  let y := clientY - top rect in
  let positions := inputTowerPositions cv in
  (existsb canFire (towers s) = true ->
   exists k t pos,
     arrayGet (towers s) k = Some t /\ canFire t = true /\
     arrayGet positions k = Some pos /\
     (forall j tj pj,
         arrayGet (towers s) j = Some tj -> canFire tj = true ->
         arrayGet positions j = Some pj ->
         tapDistance M x y pos <= tapDistance M x y pj /\
         ((j < k)%Z -> tapDistance M x y pos < tapDistance M x y pj)) /\
     handleInput M clientX clientY (Some cv) rect s =
     Some (set_towers (modify useAmmo (Z.to_nat k) (towers s))
             (set_interceptors
                (interceptors s ++
                 [ launch M x y pos k (Math_random M (draws s)) ])
                (set_draws (S (draws s)) s)))) /\
  (existsb canFire (towers s) = false ->
   handleInput M clientX clientY (Some cv) rect s = Some s).
Proof.
  intros Hplay Hlen x y positions.
  destruct (three_towers _ Hlen) as (t0 & t1 & t2 & Hts).
  unfold handleInput, random. rewrite Hplay. cbn [GameState_eqb negb].
  fold x y. fold positions. fields. rewrite Hts.
  subst positions. unfold inputTowerPositions.
  set (p0 := {| tp_x := width cv * 0.1; tp_y := height cv - 60; tp_idx := 0 |}).
  set (p1 := {| tp_x := width cv * 0.5; tp_y := height cv - 60; tp_idx := 1 |}).
  set (p2 := {| tp_x := width cv * 0.9; tp_y := height cv - 60; tp_idx := 2 |}).
  assert (G0 : forall A (a b c : A), arrayGet [a; b; c] 0 = Some a) by reflexivity.
  assert (G1 : forall A (a b c : A), arrayGet [a; b; c] 1 = Some b) by reflexivity.
  assert (G2 : forall A (a b c : A), arrayGet [a; b; c] 2 = Some c) by reflexivity.
  cbn [searchNearest closer snd existsb].
  change (tp_idx p0) with 0%Z. change (tp_idx p1) with 1%Z.
  change (tp_idx p2) with 2%Z. rewrite !G0, !G1, !G2.
  change (t_alive t0 && (0 <? t_ammo t0)%Z) with (canFire t0).
  change (t_alive t1 && (0 <? t_ammo t1)%Z) with (canFire t1).
  change (t_alive t2 && (0 <? t_ammo t2)%Z) with (canFire t2).
  destruct (canFire t0) eqn:C0, (canFire t1) eqn:C1, (canFire t2) eqn:C2;
    cbn [closer snd orb].
  all: repeat match goal with
       | |- context [Qltb ?a ?b] =>
           let E := fresh "E" in destruct (Qltb a b) eqn:E;
           [ apply Qltb_lt in E | apply Qltb_ge in E ]
       end.
  all: cbn [negb Z.eqb]; rewrite ?G0, ?G1, ?G2.
  all: (split; [ intros H; try discriminate H; clear H
               | intros; try discriminate; try reflexivity ]).
  all: match goal with
       | |- exists k t pos, _ /\ _ /\ _ /\ _ /\
              Some (set_towers (modify useAmmo (Z.to_nat ?k0) _)
                      (set_interceptors (_ ++ [ launch _ _ _ ?p _ _ ]) _)) = _ =>
           exists k0; eexists; exists p;
           split; [ first [ apply G0 | apply G1 | apply G2 ] | ];
           split; [ assumption | ];
           split; [ reflexivity | ];
           split; [ | reflexivity ]
       end.
  all: intros j tj pj Hj Hc Hp;
       apply arrayGet_three in Hj; apply arrayGet_three in Hp;
       destruct Hj as [ [-> ->] | [ [-> ->] | [-> ->] ] ];
       destruct Hp as [ [? ->] | [ [? ->] | [? ->] ] ];
       try discriminate; try congruence;
       (split; [ lra | intros Hlt; first [ lia | lra ] ]).
Qed.
Lemma handleInput_cases (clientX clientY : Q) (canvas : option Canvas)
    (rect : Rect) (s s' : Game) :
  List.length (towers s) = 3%nat ->
  handleInput M clientX clientY canvas rect s = Some s' ->
  s' = s \/
  exists k t p,
    gameState s = PLAYING /\
    arrayGet (towers s) k = Some t /\ canFire t = true /\
    s' = set_towers (modify useAmmo (Z.to_nat k) (towers s))
           (set_interceptors (interceptors s ++ [ p ])
              (set_draws (S (draws s)) s)).
Proof.
  intros Hlen H.
  destruct (GameState_eqb (gameState s) PLAYING) eqn:Hg.
  - apply GameState_eqb_eq in Hg. destruct canvas as [ cv | ].
    + destruct (handleInput_spec clientX clientY cv rect s Hg Hlen) as [Hfire Hnone].
      destruct (existsb canFire (towers s)).
      * destruct (Hfire eq_refl) as (k & t & pos & Hk & Hc & _ & _ & Hs).
        right. exists k, t. eexists. repeat split; try eassumption.
        rewrite Hs in H. injection H as <-. reflexivity.
      * rewrite (Hnone eq_refl) in H. left. congruence.
    + unfold handleInput in H. rewrite Hg in H. left. cbn in H. congruence.
  - unfold handleInput in H. rewrite Hg in H. left. cbn in H. congruence.
Qed.

Lemma handleInput_evolves (clientX clientY : Q) (canvas : option Canvas)
    (rect : Rect) (s s' : Game) :
  List.length (towers s) = 3%nat ->
  handleInput M clientX clientY canvas rect s = Some s' -> evolves s s'.
Proof.
  intros Hlen H.
  destruct (handleInput_cases _ _ _ _ _ _ Hlen H)
    as [ -> | (k & t & p & _ & Hk & Hc & ->) ]; [ apply evolves_refl | ].
  apply arrayGet_Some in Hk. destruct Hk as [_ Hk].
  pose proof (evolves_refl s) as R.
  constructor; unfold allCitiesDead, someCityAlive; fields; try apply R.
  - intros _. apply modify_Forall2; [ intros a; split; [ lia | auto ] | ].
    intros a Ha. assert (a = t) by congruence. subst a.
    unfold canFire in Hc. apply andb_true_iff in Hc. destruct Hc as [_ Hc].
    apply Z.ltb_lt in Hc. cbn. lia.
  - apply modify_length.
  - apply map_modify. reflexivity.
Qed.

(** ** Well-formed games stay well formed *)

Lemma Forall2_length_eq {A B : Type} (R : A -> B -> Prop) (l : list A) (l' : list B) :
  Forall2 R l l' -> List.length l' = List.length l.
Proof. induction 1; simpl; congruence. Qed.

Lemma evolves_cities_length (s s' : Game) :
  evolves s s' -> List.length (cities s') = List.length (cities s).
Proof. intros H. apply (Forall2_length_eq _ _ _ (ev_cities _ _ H)). Qed.

Lemma spawnEnemy_enemies (time : Q) (cv : Canvas) (s s' : Game) :
  spawnEnemy M time cv s = Some s' ->
  enemies s' = enemies s \/
  exists e, enemies s' = enemies s ++ [ e ] /\
            (0 <= e_targetIndex e < 9)%Z /\ e_dead e = false /\
            e_y e == -20.
Proof.
  unfold spawnEnemy, random.
  destruct (isWaveClearing s); [ intros [= <-]; auto | ].
  destruct (Qltb _ _); [ | intros [= <-]; auto ].
  destruct (_ <? _)%Z; fields; [ | intros [= <-]; auto ].
  destruct (arrayGet _ _) as [ targetIdx | ]; [ | discriminate ].
  destruct (Z.ltb_spec targetIdx 6) as [ Hlt | Hge ].
  - destruct (arrayGet _ _) as [ t | ] eqn:Hpos; [ | discriminate ].
    apply arrayGet_Some in Hpos. destruct Hpos as [H0 _].
    intros [= <-]. right. eexists. split; [ reflexivity | ].
    cbn [e_targetIndex e_dead e_y]. repeat split; try lia; try reflexivity.
  - destruct (arrayGet _ _) as [ t | ] eqn:Hpos; [ | discriminate ].
    apply arrayGet_Some in Hpos. destruct Hpos as [H0 Hnth].
    assert (Hr : (Z.to_nat (targetIdx - 6) < 3)%nat).
    { unfold towerPositions in Hnth.
      destruct (Z.to_nat (targetIdx - 6)) as [ | [ | [ | n ] ] ];
        try lia. destruct n; discriminate. }
    intros [= <-]. right. eexists. split; [ reflexivity | ].
    cbn [e_targetIndex e_dead e_y]. repeat split; try lia; try reflexivity.
Qed.

Lemma stepEnemy_target (groundY time : Q) (e e' : Enemy) (s s' : Game) :
  stepEnemy M groundY time e s = Some (e', s') ->
  e_targetIndex e' = e_targetIndex e.
Proof.
  unfold stepEnemy, blastCheck.
  destruct (caughtBy (moveEnemy e) (explosions s));
    cbn [e_dead killEnemy negb andb e_targetIndex].
  - intros [= <- _]. reflexivity.
  - destruct (negb (e_dead (moveEnemy e)) && _).
    + match goal with
      | |- match ?r with Some _ => _ | None => _ end = _ -> _ =>
          destruct r; [ | discriminate ]
      end.
      intros [= <- _]. reflexivity.
    + intros [= <- _]. reflexivity.
Qed.

Lemma resolveImpact_frame {A : Type} (f : Game -> A) :
  (forall v s, f (set_cities v s) = f s) ->
  (forall v s, f (set_towers v s) = f s) ->
  (forall v s, f (set_gameState v s) = f s) ->
  (forall v s, f (set_shake v s) = f s) ->
  (forall v s, f (set_timers v s) = f s) ->
  forall time e s s', resolveImpact time e s = Some s' -> f s' = f s.
Proof.
  intros Hc Ht Hg Hs Htm time e s s'.
  unfold resolveImpact, triggerShake, setTimeout.
  destruct (e_targetIndex e <? 6)%Z.
  - destruct (arrayGet (cities s) _) as [ c | ]; [ | discriminate ].
    destruct (c_alive c); [ | congruence ].
    destruct (forallb _ _); intros [= <-];
      now rewrite ?Hg, Htm, Hs, Hc.
  - destruct (arrayGet (towers s) _) as [ t | ]; [ | discriminate ].
    destruct (t_alive t); [ | congruence ].
    intros [= <-]. now rewrite Htm, Hs, Ht.
Qed.

Lemma blastCheck_frame {A : Type} (f : Game -> A) :
  (forall v s, f (set_explosions v s) = f s) ->
  (forall v s, f (set_particles v s) = f s) ->
  (forall v s, f (set_floatingTexts v s) = f s) ->
  (forall v s, f (set_draws v s) = f s) ->
  (forall v s, f (set_score v s) = f s) ->
  forall e s e1 s1, blastCheck M e s = (e1, s1) -> f s1 = f s.
Proof.
  intros He Hp Ht Hd Hs e s e1 s1. unfold blastCheck.
  destruct (caughtBy e (explosions s)); intros [= _ <-]; [ | reflexivity ].
  rewrite (spawnExplosion_frame f) by assumption.
  rewrite (spawnParticles_frame f) by assumption.
  apply (addScore_frame f); assumption.
Qed.

Lemma stepEnemy_frame {A : Type} (f : Game -> A) :
  (forall v s, f (set_explosions v s) = f s) ->
  (forall v s, f (set_particles v s) = f s) ->
  (forall v s, f (set_floatingTexts v s) = f s) ->
  (forall v s, f (set_draws v s) = f s) ->
  (forall v s, f (set_score v s) = f s) ->
  (forall v s, f (set_cities v s) = f s) ->
  (forall v s, f (set_towers v s) = f s) ->
  (forall v s, f (set_gameState v s) = f s) ->
  (forall v s, f (set_shake v s) = f s) ->
  (forall v s, f (set_timers v s) = f s) ->
  forall groundY time e s e' s',
    stepEnemy M groundY time e s = Some (e', s') -> f s' = f s.
Proof.
  intros He Hp Ht Hd Hs Hc Htw Hg Hsh Htm groundY time e s e' s'.
  unfold stepEnemy.
  pose proof (blastCheck_frame f He Hp Ht Hd Hs (moveEnemy e) s) as Hb.
  destruct (blastCheck M (moveEnemy e) s) as [ e1 s1 ].
  specialize (Hb e1 s1 eq_refl).
  destruct (negb (e_dead e1) && Qle_bool (groundY - 5) (e_y e1));
    [ | intros [= _ <-]; exact Hb ].
  match goal with
  | |- match ?r with Some _ => _ | None => _ end = _ -> _ =>
      destruct r as [ s2 | ] eqn:Hr; [ | discriminate ]
  end.
  intros [= _ <-]. rewrite <- Hb.
  apply (resolveImpact_frame f Hc Htw Hg Hsh Htm) in Hr.
  rewrite Hr. unfold triggerShake, setTimeout. rewrite Htm, Hsh.
  rewrite (spawnParticles_frame f) by assumption.
  apply (spawnExplosion_frame f); assumption.
Qed.

Lemma stepEnemy_enemies (groundY time : Q) (e e' : Enemy) (s s' : Game) :
  stepEnemy M groundY time e s = Some (e', s') -> enemies s' = enemies s.
Proof. apply (stepEnemy_frame enemies); reflexivity. Qed.

Lemma checkWaveClear_frame {A : Type} (f : Game -> A) :
  (forall v s, f (set_isWaveClearing v s) = f s) ->
  (forall v s, f (set_waveBonus v s) = f s) ->
  (forall v s, f (set_score v s) = f s) ->
  (forall v s, f (set_draws v s) = f s) ->
  (forall v s, f (set_floatingTexts v s) = f s) ->
  (forall v s, f (set_timers v s) = f s) ->
  forall time cv s, f (checkWaveClear M time cv s) = f s.
Proof.
  intros Hw Hb Hs Hd Ht Htm time cv s. unfold checkWaveClear. cbv zeta.
  remember (if (waveRef s * 200 <=? score s)%Z && negb (isWaveClearing s)
            then set_isWaveClearing true s else s) as s1 eqn:E1.
  assert (H1 : f s1 = f s).
  { subst s1. destruct ((waveRef s * 200 <=? score s)%Z && negb (isWaveClearing s));
      [ apply Hw | reflexivity ]. }
  clear E1. rewrite <- H1.
  match goal with |- f (if ?c then _ else _) = _ => destruct c end;
    [ | reflexivity ].
  rewrite Hw.
  match goal with |- f (if ?c then _ else _) = _ => destruct c end;
    unfold setTimeout; rewrite Htm; rewrite (addScore_frame f) by assumption;
    apply Hb.
Qed.

Lemma stepEnemy_moves (groundY time : Q) (e e' : Enemy) (s s' : Game) :
  stepEnemy M groundY time e s = Some (e', s') ->
  e' = moveEnemy e \/ e' = killEnemy (moveEnemy e).
Proof.
  unfold stepEnemy, blastCheck.
  destruct (caughtBy (moveEnemy e) (explosions s));
    cbn [e_dead killEnemy negb andb].
  - intros [= <- _]. auto.
  - destruct (negb (e_dead (moveEnemy e)) && _).
    + match goal with
      | |- match ?r with Some _ => _ | None => _ end = _ -> _ =>
          destruct r; [ | discriminate ]
      end.
      intros [= <- _]. auto.
    + intros [= <- _]. auto.
Qed.

(** The enemies after a frame: those of the frame's start and the one the
    frame spawned, each moved by its velocity, without the dead ones. *)
Lemma gameLogic_enemies (time : Q) (cv : Canvas) (s s' : Game) :
  gameLogic M time cv s = Some s' ->
  exists s1 es,
    spawnEnemy M time cv s = Some s1 /\
    Forall2 (fun e e' => e' = moveEnemy e \/ e' = killEnemy (moveEnemy e))
            (enemies s1) es /\
    enemies s' = filter (fun e => negb (e_dead e)) es.
Proof.
  unfold gameLogic.
  destruct (spawnEnemy M time cv s) as [ s1 | ] eqn:H1; [ | discriminate ].
  cbv zeta.
  remember (updateInterceptors M (checkWaveClear M time cv s1)) as s2 eqn:E2.
  assert (He : enemies s2 = enemies s1).
  { subst s2. rewrite (updateInterceptors_frame enemies) by reflexivity.
    apply (checkWaveClear_frame enemies); reflexivity. }
  clear E2. unfold updateEnemies. fields. rewrite He.
  match goal with
  | |- match match ?r with Some _ => _ | None => _ end with _ => _ end = _ -> _ =>
      destruct r as [ [es s3] | ] eqn:Hf; [ | discriminate ]
  end.
  intros [= <-]. exists s1, es. split; [ reflexivity | ]. split.
  - revert Hf. apply forEachE_Forall2. intros a s0 a' s0'. apply stepEnemy_moves.
  - unfold cleanup. fields. reflexivity.
Qed.

Lemma forEach_fst {A : Type} (body : A -> Game -> A * Game) (g : A -> A) :
  (forall a s, fst (body a s) = g a) ->
  forall arr s, fst (forEach body arr s) = map g arr.
Proof.
  intros Hg arr. induction arr as [ | a arr IH ]; intros s; simpl.
  - reflexivity.
  - specialize (Hg a s). destruct (body a s) as [ a' s1 ].
    specialize (IH s1). destruct (forEach body arr s1). simpl in *.
    congruence.
Qed.

Lemma stepInterceptor_fst (p : Interceptor) (s : Game) :
  fst (stepInterceptor M p s) = advanceInterceptor p.
Proof.
  unfold stepInterceptor, advanceInterceptor. cbv zeta.
  destruct (distance_lt _ _ _); reflexivity.
Qed.

(** The interceptors after a frame, read off the interceptors before. *)
Lemma gameLogic_interceptors (time : Q) (cv : Canvas) (s s' : Game) :
  gameLogic M time cv s = Some s' ->
  interceptors s' =
  filter (fun p => negb (i_dead p)) (map advanceInterceptor (interceptors s)).
Proof.
  unfold gameLogic.
  destruct (spawnEnemy M time cv s) as [ s1 | ] eqn:H1; [ | discriminate ].
  cbv zeta.
  remember (checkWaveClear M time cv s1) as s2 eqn:E2.
  assert (Hi : interceptors s2 = interceptors s).
  { subst s2. rewrite (checkWaveClear_frame interceptors) by reflexivity.
    apply (spawnEnemy_frame interceptors) in H1; auto. }
  clear E2.
  remember (updateInterceptors M s2) as s3 eqn:E3.
  assert (H3 : interceptors s3 = map advanceInterceptor (interceptors s)).
  { subst s3. unfold updateInterceptors. rewrite <- Hi.
    rewrite <- (forEach_fst (stepInterceptor M) advanceInterceptor
                  stepInterceptor_fst (interceptors s2) s2).
    destruct (forEach (stepInterceptor M) (interceptors s2) s2). reflexivity. }
  clear E3.
  match goal with
  | |- match ?r with Some _ => _ | None => _ end = _ -> _ =>
      destruct r as [ s4 | ] eqn:H4; [ | discriminate ]
  end.
  intros [= <-]. unfold cleanup. fields. rewrite <- H3.
  unfold updateEnemies in H4.
  match type of H4 with
  | match ?r with Some _ => _ | None => _ end = _ =>
      destruct r as [ [es s5] | ] eqn:Hf; [ | discriminate ]
  end.
  injection H4 as <-. fields.
  assert (H5 : interceptors s5 = interceptors s3); [ | now rewrite H5 ].
  change (interceptors s3) with
    (interceptors (set_explosions (map stepExplosion (explosions s3)) s3)).
  revert Hf.
  apply (forEachE_invariant (stepEnemy M (height cv - 40) time)
           (fun a b => interceptors b = interceptors a));
    [ reflexivity | congruence | ].
  intros a s0 a' s0'. apply (stepEnemy_frame interceptors); reflexivity.
Qed.

(** ** No handler throws on a well-formed game *)

Lemma In_mapi_from {A : Type} (f : A -> Z -> Z) (off : Z) :
  (forall a i, f a i = (-1)%Z \/ f a i = (i + off)%Z) ->
  forall (arr : list A) (j k : Z),
    In j (filter (fun i => negb (i =? -1)%Z) (mapi_from f k arr)) ->
    (k + off <= j < k + off + numLength arr)%Z.
Proof.
  intros Hf arr j. unfold numLength.
  induction arr as [ | a arr IH ]; intros k; simpl; [ tauto | ].
  destruct (Z.eqb_spec (f a k) (-1)); simpl.
  - intros H. apply IH in H. lia.
  - intros [ <- | H ].
    + destruct (Hf a k); lia.
    + apply IH in H. lia.
Qed.

Lemma aliveCities_range (s : Game) (j : Z) :
  In j (aliveCities s) -> (0 <= j < numLength (cities s))%Z.
Proof.
  unfold aliveCities, mapi. intros H.
  apply (In_mapi_from _ 0) in H; [ lia | ].
  intros a i. destruct (c_alive a); [ right; lia | left; reflexivity ].
Qed.

Lemma aliveTowers_range (s : Game) (j : Z) :
  In j (aliveTowers s) -> (6 <= j < 6 + numLength (towers s))%Z.
Proof.
  unfold aliveTowers, mapi. intros H.
  apply (In_mapi_from _ 6) in H; [ lia | ].
  intros a i. destruct (t_alive a); [ right; lia | left; reflexivity ].
Qed.

Lemma Qfloor_unit (r : Q) (n : Z) :
  0 <= r -> r < 1 -> (0 < n)%Z -> (0 <= Qfloor (r * inject_Z n) < n)%Z.
Proof.
  intros H0 H1 Hn.
  assert (Hq : 0 < inject_Z n) by (change 0 with (inject_Z 0); now rewrite <- Zlt_Qlt).
  split.
  - change 0%Z with (Qfloor 0). apply Qfloor_resp_le. nra.
  - rewrite Zlt_Qlt. eapply Qle_lt_trans; [ apply Qfloor_le | ]. nra.
Qed.

Lemma spawnEnemy_total (time : Q) (cv : Canvas) (s : Game) :
  unitRandom M ->
  List.length (towers s) = 3%nat -> List.length (cities s) = 6%nat ->
  exists s', spawnEnemy M time cv s = Some s'.
Proof.
  intros Hrnd Ht Hc. unfold spawnEnemy, random.
  destruct (isWaveClearing s); [ eauto | ].
  destruct (Qltb _ _); [ | eauto ].
  fields.
  set (targets := aliveCities (set_spawnTimer time s) ++
                  aliveTowers (set_spawnTimer time s)).
  destruct (Z.ltb_spec 0 (numLength targets)) as [ Hpos | ]; [ | eauto ].
  destruct (Hrnd (draws s)) as [Hr0 Hr1].
  destruct (arrayGet_in_range targets
              (Qfloor (Math_random M (draws s) * inject_Z (numLength targets))))
    as [ targetIdx Hget ]; [ apply Qfloor_unit; assumption | ].
  rewrite Hget.
  assert (Hin : In targetIdx targets).
  { apply arrayGet_Some in Hget. destruct Hget as [_ Hget].
    eapply nth_error_In; eassumption. }
  assert (Hrange : (0 <= targetIdx < 6)%Z \/ (6 <= targetIdx < 9)%Z).
  { subst targets. apply in_app_or in Hin. destruct Hin as [ Hin | Hin ].
    - apply aliveCities_range in Hin. unfold numLength in Hin. fields.
      rewrite Hc in Hin. left. lia.
    - apply aliveTowers_range in Hin. unfold numLength in Hin. fields.
      rewrite Ht in Hin. right. lia. }
  destruct (Z.ltb_spec targetIdx 6) as [ Hlt | Hge ].
  - destruct (arrayGet_in_range (cityPositions cv (height cv - 40 - 10)) targetIdx)
      as [ t Hp ]; [ unfold numLength; simpl; lia | ].
    rewrite Hp. eauto.
  - destruct (arrayGet_in_range (towerPositions cv (height cv - 40 - 20))
                (targetIdx - 6)) as [ t Hp ]; [ unfold numLength; simpl; lia | ].
    rewrite Hp. eauto.
Qed.

Lemma triggerShake_frame {A : Type} (f : Game -> A) :
  (forall v s, f (set_shake v s) = f s) ->
  (forall v s, f (set_timers v s) = f s) ->
  forall i now s, f (triggerShake i now s) = f s.
Proof.
  intros Hs Ht i now s. unfold triggerShake, setTimeout. now rewrite Ht, Hs.
Qed.

Lemma resolveImpact_total (time : Q) (e : Enemy) (s : Game) :
  List.length (towers s) = 3%nat -> List.length (cities s) = 6%nat ->
  (0 <= e_targetIndex e < 9)%Z ->
  exists s', resolveImpact time e s = Some s'.
Proof.
  intros Ht Hc Hr. unfold resolveImpact.
  destruct (Z.ltb_spec (e_targetIndex e) 6) as [ Hlt | Hge ].
  - destruct (arrayGet_in_range (cities s) (e_targetIndex e)) as [ c Hg ];
      [ unfold numLength; lia | ].
    rewrite Hg. destruct (c_alive c); [ | eauto ].
    match goal with |- exists _, (if ?c then _ else _) = _ => destruct c end; eauto.
  - destruct (arrayGet_in_range (towers s) (e_targetIndex e - 6)) as [ t Hg ];
      [ unfold numLength; lia | ].
    rewrite Hg. destruct (t_alive t); eauto.
Qed.

Lemma stepEnemy_total (groundY time : Q) (e : Enemy) (s : Game) :
  List.length (towers s) = 3%nat -> List.length (cities s) = 6%nat ->
  (0 <= e_targetIndex e < 9)%Z ->
  exists r, stepEnemy M groundY time e s = Some r.
Proof.
  intros Ht Hc Hr. unfold stepEnemy.
  pose proof (blastCheck_frame towers) as Fb.
  pose proof (blastCheck_frame cities) as Fc.
  specialize (Fb ltac:(reflexivity) ltac:(reflexivity) ltac:(reflexivity)
                 ltac:(reflexivity) ltac:(reflexivity) (moveEnemy e) s).
  specialize (Fc ltac:(reflexivity) ltac:(reflexivity) ltac:(reflexivity)
                 ltac:(reflexivity) ltac:(reflexivity) (moveEnemy e) s).
  assert (He : forall e1 s1, blastCheck M (moveEnemy e) s = (e1, s1) ->
                             e_targetIndex e1 = e_targetIndex e).
  { intros e1 s1. unfold blastCheck.
    destruct (caughtBy (moveEnemy e) (explosions s)); intros [= <- _]; reflexivity. }
  destruct (blastCheck M (moveEnemy e) s) as [ e1 s1 ].
  specialize (Fb e1 s1 eq_refl). specialize (Fc e1 s1 eq_refl).
  specialize (He e1 s1 eq_refl).
  destruct (negb (e_dead e1) && Qle_bool (groundY - 5) (e_y e1)); [ | eauto ].
  match goal with
  | |- exists _, match resolveImpact ?t ?a ?b with _ => _ end = _ =>
      destruct (resolveImpact_total t a b) as [ s2 H2 ]
  end.
  - rewrite (triggerShake_frame towers) by reflexivity.
    rewrite (spawnParticles_frame towers) by reflexivity.
    rewrite (spawnExplosion_frame towers) by reflexivity. congruence.
  - rewrite (triggerShake_frame cities) by reflexivity.
    rewrite (spawnParticles_frame cities) by reflexivity.
    rewrite (spawnExplosion_frame cities) by reflexivity. congruence.
  - cbn [killEnemy e_targetIndex]. lia.
  - rewrite H2. eauto.
Qed.

Lemma forEachE_total {A : Type} (body : A -> Game -> option (A * Game))
    (I : Game -> Prop) (P : A -> Prop) :
  (forall a s, I s -> P a -> exists a' s', body a s = Some (a', s') /\ I s') ->
  forall arr s, I s -> Forall P arr ->
                exists r, forEachE body arr s = Some r.
Proof.
  intros Hb arr. induction arr as [ | a arr IH ]; intros s Hi Hall; simpl.
  - eauto.
  - inversion Hall; subst.
    destruct (Hb a s Hi) as (a' & s1 & -> & Hi1); [ assumption | ].
    destruct (IH s1 Hi1) as [ [arr' s2] -> ]; [ assumption | ]. eauto.
Qed.

Lemma updateEnemies_total (groundY time : Q) (s : Game) :
  List.length (towers s) = 3%nat -> List.length (cities s) = 6%nat ->
  Forall (fun e => (0 <= e_targetIndex e < 9)%Z) (enemies s) ->
  exists s', updateEnemies M groundY time s = Some s'.
Proof.
  intros Ht Hc He. unfold updateEnemies.
  destruct (forEachE_total (stepEnemy M groundY time)
              (fun g => List.length (towers g) = 3%nat /\
                        List.length (cities g) = 6%nat)
              (fun e => (0 <= e_targetIndex e < 9)%Z)) with (arr := enemies s) (s := s)
    as [ [es s1] Hf ]; auto.
  - intros a g [Hgt Hgc] Ha.
    destruct (stepEnemy_total groundY time a g Hgt Hgc Ha) as [ [a' g'] Hs ].
    exists a', g'. split; [ assumption | ].
    apply stepEnemy_evolves in Hs. split.
    + rewrite (ev_towers_length _ _ Hs). assumption.
    + rewrite (evolves_cities_length _ _ Hs). assumption.
  - rewrite Hf. eauto.
Qed.

Lemma gameLogic_total (time : Q) (cv : Canvas) (s : Game) :
  unitRandom M -> wellFormed s -> exists s', gameLogic M time cv s = Some s'.
Proof.
  intros Hrnd [Ht Hc He _ _ _ _]. unfold gameLogic.
  destruct (spawnEnemy_total time cv s Hrnd Ht Hc) as [ s1 H1 ]. rewrite H1.
  cbv zeta.
  remember (updateInterceptors M (checkWaveClear M time cv s1)) as s2 eqn:E2.
  assert (H2 : towers s2 = towers s /\ cities s2 = cities s /\
               enemies s2 = enemies s1).
  { subst s2. repeat split.
    - rewrite (updateInterceptors_frame towers) by reflexivity.
      rewrite (checkWaveClear_frame towers) by reflexivity.
      apply (spawnEnemy_frame towers) in H1; auto.
    - rewrite (updateInterceptors_frame cities) by reflexivity.
      rewrite (checkWaveClear_frame cities) by reflexivity.
      apply (spawnEnemy_frame cities) in H1; auto.
    - rewrite (updateInterceptors_frame enemies) by reflexivity.
      apply (checkWaveClear_frame enemies); reflexivity. }
  clear E2. destruct H2 as (H2t & H2c & H2e).
  destruct (updateEnemies_total (height cv - 40) time
              (set_explosions (map stepExplosion (explosions s2)) s2))
    as [ s3 H3 ]; fields.
  - congruence.
  - congruence.
  - rewrite H2e. destruct (spawnEnemy_enemies _ _ _ _ H1) as [ -> | (e & -> & Hr & _) ];
      [ assumption | ].
    apply Forall_app. split; [ assumption | ]. constructor; [ assumption | constructor ].
  - rewrite H3. eauto.
Qed.

Lemma update_total (time : Q) (canvas : option Canvas) (s : Game) :
  unitRandom M -> wellFormed s -> exists s', update M time canvas s = Some s'.
Proof.
  intros Hrnd Hwf. unfold update. destruct canvas as [ cv | ]; [ | eauto ].
  destruct (negb (negb _)); [ | eauto ].
  apply gameLogic_total; [ assumption | ].
  destruct Hwf. constructor; assumption.
Qed.

Lemma gameLogic_targets (time : Q) (cv : Canvas) (s s' : Game) :
  gameLogic M time cv s = Some s' ->
  Forall (fun e => (0 <= e_targetIndex e < 9)%Z) (enemies s) ->
  Forall (fun e => (0 <= e_targetIndex e < 9)%Z) (enemies s').
Proof.
  intros H Hall.
  destruct (gameLogic_enemies _ _ _ _ H) as (s1 & es & H1 & Hmv & ->).
  assert (H1e : Forall (fun e => (0 <= e_targetIndex e < 9)%Z) (enemies s1)).
  { destruct (spawnEnemy_enemies _ _ _ _ H1) as [ -> | (e & -> & Hr & _) ];
      [ assumption | ].
    apply Forall_app. split; [ assumption | ]. constructor; [ assumption | constructor ]. }
  clear H H1 Hall. apply Forall_forall. intros e' Hin.
  apply filter_In in Hin. destruct Hin as [Hin _].
  revert e' Hin. apply Forall_forall.
  induction Hmv as [ | e e' es0 es1 Hee _ IH ]; [ constructor | ].
  inversion H1e; subst. constructor; [ | auto ].
  destruct Hee as [ -> | -> ]; assumption.
Qed.

Lemma evolves_wellFormed (s s' : Game) :
  evolves s s' ->
  Forall (fun e => (0 <= e_targetIndex e < 9)%Z) (enemies s') ->
  wellFormed s -> wellFormed s'.
Proof.
  intros Hev He [Ht Hc _ Ha Hm Htm Hw]. constructor.
  - rewrite (ev_towers_length _ _ Hev). assumption.
  - rewrite (evolves_cities_length _ _ Hev). assumption.
  - assumption.
  - apply (ammoNotIncreased_nonneg _ _ (ev_towers _ _ Hev Ha) Ha).
  - apply Forall_map. rewrite (ev_maxAmmo _ _ Hev). apply Forall_map. assumption.
  - apply (ev_timers _ _ Hev Htm).
  - rewrite (ev_wave _ _ Hev), (ev_waveRef _ _ Hev). assumption.
Qed.

Lemma update_wellFormed (time : Q) (canvas : option Canvas) (s s' : Game) :
  update M time canvas s = Some s' -> wellFormed s -> wellFormed s'.
Proof.
  intros H Hwf. apply (evolves_wellFormed s); [ eapply update_evolves; eassumption | | assumption ].
  unfold update in H. destruct canvas as [ cv | ].
  - destruct (negb (negb _)).
    + apply gameLogic_targets in H; [ assumption | apply Hwf ].
    + injection H as <-. apply Hwf.
  - injection H as <-. apply Hwf.
Qed.

Lemma handleInput_wellFormed (clientX clientY : Q) (canvas : option Canvas)
    (rect : Rect) (s s' : Game) :
  handleInput M clientX clientY canvas rect s = Some s' ->
  wellFormed s -> wellFormed s'.
Proof.
  intros H Hwf.
  apply (evolves_wellFormed s);
    [ eapply handleInput_evolves; [ apply Hwf | eassumption ] | | assumption ].
  destruct (handleInput_cases _ _ _ _ _ _ (wf_towers _ Hwf) H)
    as [ -> | (k & t & p & _ & _ & _ & ->) ]; apply Hwf.
Qed.

Lemma handleInput_total (clientX clientY : Q) (canvas : option Canvas)
    (rect : Rect) (s : Game) :
  wellFormed s -> exists s', handleInput M clientX clientY canvas rect s = Some s'.
Proof.
  intros Hwf.
  destruct (GameState_eqb (gameState s) PLAYING) eqn:Hg.
  - apply GameState_eqb_eq in Hg. destruct canvas as [ cv | ].
    + destruct (handleInput_spec clientX clientY cv rect s Hg (wf_towers _ Hwf))
        as [Hfire Hnone].
      destruct (existsb canFire (towers s)).
      * destruct (Hfire eq_refl) as (k & t & pos & _ & _ & _ & _ & Hs). eauto.
      * rewrite (Hnone eq_refl). eauto.
    + unfold handleInput. rewrite Hg. cbn. eauto.
  - unfold handleInput. rewrite Hg. cbn. eauto.
Qed.

Lemma initGame_wellFormed (now : Q) (s : Game) :
  forallb engineTimer (timers s) = true -> wellFormed (initGame now s).
Proof.
  intros Ht. constructor; try reflexivity; cbn.
  - constructor.
  - repeat constructor; discriminate.
  - repeat constructor; discriminate.
  - assumption.
Qed.

Lemma nextWave_wellFormed (now : Q) (s : Game) :
  wellFormed s -> wellFormed (nextWave now s).
Proof.
  intros [Ht Hc He Ha Hm Htm Hw]. constructor; cbn; auto.
  - rewrite length_map. assumption.
  - apply Forall_map. cbn. assumption.
  - apply Forall_map. cbn. assumption.
Qed.

(** ** Events *)

Lemma handleInput_frame {A : Type} (f : Game -> A) :
  (forall v s, f (set_towers v s) = f s) ->
  (forall v s, f (set_interceptors v s) = f s) ->
  (forall v s, f (set_draws v s) = f s) ->
  forall clientX clientY canvas rect s s',
    handleInput M clientX clientY canvas rect s = Some s' -> f s' = f s.
Proof.
  intros Ht Hi Hd clientX clientY canvas rect s s'. unfold handleInput, random.
  destruct (negb (GameState_eqb (gameState s) PLAYING)); [ congruence | ].
  destruct canvas as [ cv | ]; [ | congruence ].
  destruct (searchNearest _ _ _ _ _) as [ [k m] | ]; [ | discriminate ].
  destruct (negb (k =? -1)%Z); [ | congruence ].
  destruct (arrayGet (inputTowerPositions cv) k); [ | discriminate ].
  fields. destruct (arrayGet (towers s) k); [ | discriminate ].
  intros [= <-]. now rewrite Ht, Hi, Hd.
Qed.

Lemma someCityAlive_not_dead (s : Game) :
  someCityAlive s = negb (allCitiesDead s).
Proof.
  unfold someCityAlive, allCitiesDead.
  induction (cities s) as [ | c cs IH ]; simpl; [ reflexivity | ].
  rewrite IH. destruct (c_alive c); reflexivity.
Qed.

Lemma In_remove {A : Type} (a : A) (n : nat) (l : list A) :
  In a (firstn n l ++ skipn (S n) l) -> In a l.
Proof.
  revert n. induction l as [ | b l IH ]; intros [ | n ]; simpl; auto.
  intros [ H | H ]; eauto.
Qed.

Lemma forallb_remove {A : Type} (p : A -> bool) (n : nat) (l : list A) :
  forallb p l = true -> forallb p (firstn n l ++ skipn (S n) l) = true.
Proof.
  intros H. rewrite forallb_forall in *. intros a Ha. apply H.
  eapply In_remove; eassumption.
Qed.

Lemma fireTimer_cases (n : nat) (s : Game) :
  forallb engineTimer (timers s) = true ->
  fireTimer n s = s \/
  exists t, nth_error (timers s) n = Some t /\
    let s1 := set_timers (firstn n (timers s) ++ skipn (S n) (timers s)) s in
    (tm_action t = ClearShake /\ fireTimer n s = set_shake 0 s1) \/
    (tm_action t = SetGameState WAVE_COMPLETE /\
     fireTimer n s = set_gameState WAVE_COMPLETE s1) \/
    (tm_action t = SetGameState VICTORY /\
     fireTimer n s = set_gameState VICTORY s1).
Proof.
  intros Hall. unfold fireTimer.
  destruct (nth_error (timers s) n) as [ t | ] eqn:Hn; [ | auto ].
  right. exists t. split; [ reflexivity | ].
  rewrite forallb_forall in Hall. specialize (Hall t (nth_error_In _ _ Hn)).
  unfold engineTimer in Hall. cbv zeta.
  destruct (tm_action t) as [ [ ] | ]; try discriminate; cbn [runCallback]; auto.
Qed.

Lemma fireTimer_wellFormed (n : nat) (s : Game) :
  wellFormed s -> wellFormed (fireTimer n s).
Proof.
  intros Hwf. pose proof Hwf as [Ht Hc He Ha Hm Htm Hw].
  destruct (fireTimer_cases n s Htm)
    as [ -> | (t & _ & [ [_ ->] | [ [_ ->] | [_ ->] ] ]) ]; [ assumption | | | ];
    constructor; fields; auto using forallb_remove.
Qed.

Lemma step_wellFormed (ev : Event) (s s' : Game) :
  step M ev s = Some s' -> wellFormed s -> wellFormed s'.
Proof.
  intros H Hwf. pose proof Hwf as [Ht Hc He Ha Hm Htm Hw].
  destruct ev; cbn [step] in H;
    try (injection H as <-;
         repeat match goal with
                | |- wellFormed (if ?c then _ else _) => destruct c
                end;
         auto using initGame_wellFormed, nextWave_wellFormed, fireTimer_wellFormed).
  - unfold pauseButton.
    repeat match goal with
           | |- wellFormed (if ?c then _ else _) => destruct c
           end; auto; constructor; auto.
  - constructor; auto.
  - constructor; auto.
  - apply nextWave_wellFormed. constructor; auto.
  - eapply handleInput_wellFormed; eassumption.
  - eapply update_wellFormed; eassumption.
Qed.

Lemma step_total (ev : Event) (s : Game) :
  unitRandom M -> wellFormed s -> exists s', step M ev s = Some s'.
Proof.
  intros Hrnd Hwf. destruct ev; cbn [step]; eauto.
  - apply handleInput_total. assumption.
  - apply update_total; assumption.
Qed.

Lemma run_wellFormed (evs : list Event) (s s' : Game) :
  run M evs s = Some s' -> wellFormed s -> wellFormed s'.
Proof.
  revert s. induction evs as [ | ev evs IH ]; intros s; simpl.
  - intros [= <-]. auto.
  - destruct (step M ev s) as [ s1 | ] eqn:Hs; [ | discriminate ].
    intros Hr Hwf. apply (IH s1 Hr). eapply step_wellFormed; eassumption.
Qed.

Lemma mounted_wellFormed : wellFormed mounted.
Proof.
  constructor; try reflexivity; cbn.
  - constructor.
  - repeat constructor; discriminate.
  - repeat constructor; discriminate.
Qed.

Lemma reachable_wellFormed (s : Game) : reachable M s -> wellFormed s.
Proof.
  intros [evs H]. eapply run_wellFormed; [ exact H | apply mounted_wellFormed ].
Qed.

Lemma run_total (evs : list Event) (s : Game) :
  unitRandom M -> wellFormed s -> exists s', run M evs s = Some s'.
Proof.
  intros Hrnd. revert s. induction evs as [ | ev evs IH ]; intros s Hwf; simpl.
  - eauto.
  - destruct (step_total ev s Hrnd Hwf) as [ s1 Hs ]. rewrite Hs.
    apply IH. eapply step_wellFormed; eassumption.
Qed.

Lemma run_app (evs1 evs2 : list Event) (s : Game) :
  run M (evs1 ++ evs2) s =
  match run M evs1 s with
  | Some s1 => run M evs2 s1
  | None => None
  end.
Proof.
  revert s. induction evs1 as [ | ev evs1 IH ]; intros s; simpl; [ reflexivity | ].
  destruct (step M ev s); [ apply IH | reflexivity ].
Qed.

Lemma reachable_step (ev : Event) (s s' : Game) :
  reachable M s -> step M ev s = Some s' -> reachable M s'.
Proof.
  intros [evs H] Hs. exists (evs ++ [ ev ]). rewrite run_app, H. simpl.
  now rewrite Hs.
Qed.

(** ** The claims *)

Lemma update_not_playing (time : Q) (canvas : option Canvas) (s : Game) :
  gameState s <> PLAYING -> update M time canvas s = Some (set_lastTime time s).
Proof.
  intros Hg. unfold update. destruct canvas as [ cv | ]; [ | reflexivity ].
  apply GameState_eqb_neq in Hg. cbn [gameState set_lastTime].
  rewrite Hg. reflexivity.
Qed.

(** C10.  A frame that runs while the game is in any state other than
    PLAYING (MENU, PAUSED, WAVE_COMPLETE, GAME_OVER or VICTORY) changes
    nothing of the simulation: [update] returns the game it was given with
    only the frame clock [lastTime] set to the timestamp, so no enemy is
    spawned, no entity moves or is culled, and score, wave, towers, cities,
    timers and the random draws are as before. *)
Theorem frame_outside_playing_changes_nothing
    (time : Q) (canvas : option Canvas) (s : Game) :
  gameState s <> PLAYING ->
  exists s',
    update M time canvas s = Some s' /\ s' = set_lastTime time s /\
    gameState s' = gameState s /\ score s' = score s /\
    wave s' = wave s /\ waveRef s' = waveRef s /\
    towers s' = towers s /\ cities s' = cities s /\
    enemies s' = enemies s /\ interceptors s' = interceptors s /\
    explosions s' = explosions s /\ particles s' = particles s /\
    floatingTexts s' = floatingTexts s /\ spawnTimer s' = spawnTimer s /\
    isWaveClearing s' = isWaveClearing s /\ timers s' = timers s /\
    draws s' = draws s.
Proof.
  intros Hg. exists (set_lastTime time s). split.
  - apply update_not_playing. assumption.
  - repeat split.
Qed.





Lemma step_noFalseDefeat (ev : Event) (s s' : Game) :
  step M ev s = Some s' -> forallb engineTimer (timers s) = true ->
  noFalseDefeat s -> noFalseDefeat s'.
Proof.
  unfold noFalseDefeat. intros H Htm Hinv.
  assert (Hev : evolves s s' -> gameState s' = GAME_OVER -> allCitiesDead s' = true).
  { intros E Hg. destruct (ev_state _ _ E) as [ Hs | (_ & Hd & _) ]; [ | exact Hd ].
    rewrite Hs in Hg.
    apply (citiesNotRestored_dead _ _ (ev_cities _ _ E) (Hinv Hg)). }
  destruct ev; cbn [step] in H.
  - injection H as <-. destruct (gameState s) eqn:E; cbn; try discriminate; rewrite ?E; auto.
  - injection H as <-. destruct (gameState s) eqn:E; cbn; try discriminate; rewrite ?E; auto.
  - injection H as <-. unfold pauseButton.
    destruct (gameState s) eqn:E; cbn; try discriminate; rewrite ?E; auto.
  - injection H as <-. destruct (gameState s) eqn:E; cbn; try discriminate; rewrite ?E; auto.
  - injection H as <-. destruct (gameState s) eqn:E; cbn; try discriminate; rewrite ?E; auto.
  - injection H as <-. destruct (gameState s) eqn:E; cbn; try discriminate; rewrite ?E; auto.
  - injection H as <-. destruct (gameState s) eqn:E; cbn; try discriminate; rewrite ?E; auto.
  - pose proof (handleInput_frame gameState ltac:(reflexivity) ltac:(reflexivity)
                  ltac:(reflexivity) _ _ _ _ _ _ H) as Hg.
    pose proof (handleInput_frame cities ltac:(reflexivity) ltac:(reflexivity)
                  ltac:(reflexivity) _ _ _ _ _ _ H) as Hc.
    unfold allCitiesDead. rewrite Hg, Hc. exact Hinv.
  - apply Hev. eapply update_evolves; eassumption.
  - injection H as <-.
    destruct (fireTimer_cases n s Htm)
      as [ -> | (t & _ & [ [_ ->] | [ [_ ->] | [_ ->] ] ]) ];
      cbn; try discriminate; assumption.
Qed.

Lemma run_noFalseDefeat (evs : list Event) (s s' : Game) :
  run M evs s = Some s' -> wellFormed s -> noFalseDefeat s -> noFalseDefeat s'.
Proof.
  revert s. induction evs as [ | ev evs IH ]; intros s; simpl.
  - intros [= <-]. auto.
  - destruct (step M ev s) as [ s1 | ] eqn:Hs; [ | discriminate ].
    intros Hr Hwf Hinv. apply (IH s1 Hr).
    + eapply step_wellFormed; eassumption.
    + eapply step_noFalseDefeat; [ eassumption | apply Hwf | assumption ].
Qed.

Lemma step_cities_eq (ev : Event) (s s' : Game) :
  step M ev s = Some s' ->
  (exists time canvas, ev = Frame time canvas) \/
  cities s' = cities s \/ cities s' = initialCities.
Proof.
  destruct ev; cbn [step]; intros H.
  - injection H as <-. destruct (gameState s); cbn; auto.
  - injection H as <-. destruct (gameState s); cbn; auto.
  - injection H as <-. unfold pauseButton.
    destruct (gameState s); cbn; auto.
  - injection H as <-. destruct (gameState s); cbn; auto.
  - injection H as <-. destruct (gameState s); cbn; auto.
  - injection H as <-. destruct (gameState s); cbn; auto.
  - injection H as <-. destruct (gameState s); cbn; auto.
  - right. left. apply (handleInput_frame cities) in H; auto.
  - left. eauto.
  - injection H as <-. right. left. unfold fireTimer.
    destruct (nth_error (timers s) n) as [ t | ]; [ | reflexivity ].
    destruct (tm_action t); reflexivity.
Qed.

Lemma step_defeat (ev : Event) (s s' : Game) :
  step M ev s = Some s' ->
  someCityAlive s = true -> allCitiesDead s' = true ->
  gameState s' = GAME_OVER /\ exists time canvas, ev = Frame time canvas.
Proof.
  intros H Ha Hd.
  assert (Hn : allCitiesDead s = false).
  { rewrite someCityAlive_not_dead in Ha. now apply negb_true_iff in Ha. }
  destruct (step_cities_eq ev s s' H) as [ (time & canvas & ->) | [ Hc | Hc ] ].
  - split; [ | eauto ]. cbn [step] in H. apply update_evolves in H.
    apply (ev_defeat _ _ H); [ congruence | assumption ].
  - unfold allCitiesDead in *. rewrite Hc in Hd. congruence.
  - unfold allCitiesDead in *. rewrite Hc in Hd. discriminate.
Qed.

Lemma step_gameState (ev : Event) (s s' : Game) :
  step M ev s = Some s' -> forallb engineTimer (timers s) = true ->
  match ev with
  | Timeout _ =>
      gameState s' = gameState s \/ gameState s' = WAVE_COMPLETE \/
      gameState s' = VICTORY
  | _ =>
      gameState s' = gameState s \/
      codeTransition ev (gameState s) (gameState s') = true
  end.
Proof.
  intros H Htm. destruct ev; cbn [step] in H.
  - injection H as <-. destruct (gameState s) eqn:E; cbn; rewrite ?E; auto.
  - injection H as <-. destruct (gameState s) eqn:E; cbn; rewrite ?E; auto.
  - injection H as <-. unfold pauseButton.
    destruct (gameState s) eqn:E; cbn; rewrite ?E; auto.
  - injection H as <-. destruct (gameState s) eqn:E; cbn; rewrite ?E; auto.
  - injection H as <-. destruct (gameState s) eqn:E; cbn; rewrite ?E; auto.
  - injection H as <-. destruct (gameState s) eqn:E; cbn; rewrite ?E; auto.
  - injection H as <-. destruct (gameState s) eqn:E; cbn; rewrite ?E; auto.
  - left. apply (handleInput_frame gameState) in H; auto.
  - unfold update in H. destruct canvas as [ cv | ]; [ | injection H as <-; auto ].
    cbn [gameState set_lastTime] in H.
    destruct (GameState_eqb (gameState s) PLAYING) eqn:E; cbn [negb] in H;
      [ | injection H as <-; auto ].
    apply GameState_eqb_eq in E. apply gameLogic_evolves in H.
    destruct (ev_state _ _ H) as [ Hs | (Hs & _) ]; cbn [gameState set_lastTime] in Hs;
      [ auto | ].
    right. rewrite E, Hs. reflexivity.
  - injection H as <-.
    destruct (fireTimer_cases n s Htm)
      as [ -> | (t & _ & [ [_ ->] | [ [_ ->] | [_ ->] ] ]) ]; cbn; auto.
Qed.

(** C3.  GAME_OVER goes with six dead cities, both ways.  In a run from
    the mounted component: (1) a game with a city alive is never in
    GAME_OVER; (2) an event that starts with a city alive and ends with
    all cities dead (the last city is destroyed) ends in GAME_OVER, and it
    is a frame; (3) an event that enters GAME_OVER is one that destroyed
    the last alive city. *)
Theorem game_over_iff_all_cities_dead
    (evs : list Event) (ev : Event) (s s' : Game) :
  run M evs mounted = Some s -> step M ev s = Some s' ->
  (someCityAlive s = true -> gameState s <> GAME_OVER) /\
  (someCityAlive s' = true -> gameState s' <> GAME_OVER) /\
  (someCityAlive s = true -> allCitiesDead s' = true ->
   gameState s' = GAME_OVER /\ exists time canvas, ev = Frame time canvas) /\
  (gameState s <> GAME_OVER -> gameState s' = GAME_OVER ->
   someCityAlive s = true /\ allCitiesDead s' = true /\
   List.length (cities s') = 6%nat).
Proof.
  intros Hrun Hstep.
  assert (Hwf : wellFormed s)
    by (eapply run_wellFormed; [ exact Hrun | apply mounted_wellFormed ]).
  assert (Hinv : noFalseDefeat s).
  { eapply run_noFalseDefeat; [ exact Hrun | apply mounted_wellFormed | ].
    intros H. discriminate H. }
  assert (Hinv' : noFalseDefeat s').
  { eapply step_noFalseDefeat; [ exact Hstep | apply Hwf | exact Hinv ]. }
  assert (Hwf' : wellFormed s') by (eapply step_wellFormed; eassumption).
  split; [ | split; [ | split ] ].
  - intros Ha Hg. rewrite someCityAlive_not_dead, (Hinv Hg) in Ha. discriminate.
  - intros Ha Hg. rewrite someCityAlive_not_dead, (Hinv' Hg) in Ha. discriminate.
  - apply step_defeat. assumption.
  - intros Hn Hg. pose proof (Hinv' Hg) as Hd. split; [ | split ].
    + pose proof (step_gameState ev s s' Hstep (wf_timers _ Hwf)) as T.
      destruct ev; cbn beta iota in T;
        try (exfalso; destruct T as [ T | T ]; [ congruence | ];
             rewrite Hg in T; destruct (gameState s); discriminate).
      * cbn [step] in Hstep. apply update_evolves in Hstep.
        destruct (ev_state _ _ Hstep) as [ E | (_ & _ & E) ];
          [ congruence | assumption ].
      * exfalso. destruct T as [ T | [ T | T ] ]; congruence.
    + assumption.
    + apply Hwf'.
Qed.

Lemma ammo_bounds (ts ts' : list Tower) :
  ammoNotIncreased ts ts' -> Forall (fun t => (0 <= t_ammo t)%Z) ts ->
  Forall2 (fun t t' => (0 <= t_ammo t' <= t_ammo t)%Z) ts ts'.
Proof.
  induction 1 as [ | t t' ts ts' [Hle Hnn] _ IH ]; intros Hall;
    [ constructor | ].
  inversion Hall; subst. constructor; [ split; auto | auto ].
Qed.

Lemma ammo_bounds_refl (ts : list Tower) :
  Forall (fun t => (0 <= t_ammo t)%Z) ts ->
  Forall2 (fun t t' => (0 <= t_ammo t' <= t_ammo t)%Z) ts ts.
Proof. induction 1; constructor; auto. lia. Qed.

Lemma step_towers (ev : Event) (s s' : Game) :
  wellFormed s -> step M ev s = Some s' ->
  match resetOf ev (gameState s) with
  | None => Forall2 (fun t t' => (0 <= t_ammo t' <= t_ammo t)%Z) (towers s) (towers s')
  | Some NewWave => towers s' = map repairTower (towers s)
  | Some GameStart => towers s' = initialTowers
  end.
Proof.
  intros Hwf H. pose proof (ammo_bounds_refl _ (wf_ammo _ Hwf)) as R.
  destruct ev; cbn [step] in H.
  - injection H as <-. destruct (gameState s) eqn:E; cbn; auto.
  - injection H as <-. destruct (gameState s) eqn:E; cbn; auto.
  - injection H as <-. unfold pauseButton.
    destruct (gameState s) eqn:E; cbn; auto.
  - injection H as <-. destruct (gameState s) eqn:E; cbn; auto.
  - injection H as <-. destruct (gameState s) eqn:E; cbn; auto.
  - injection H as <-. destruct (gameState s) eqn:E; cbn; auto.
  - injection H as <-. destruct (gameState s) eqn:E; cbn; auto.
  - assert (Hn : resetOf (Tap clientX clientY canvas rect) (gameState s) = None)
      by reflexivity.
    rewrite Hn. apply handleInput_evolves in H; [ | apply Hwf ].
    apply ammo_bounds; [ apply (ev_towers _ _ H) | ]; apply Hwf.
  - assert (Hn : resetOf (Frame time canvas) (gameState s) = None) by reflexivity.
    rewrite Hn. apply update_evolves in H.
    apply ammo_bounds; [ apply (ev_towers _ _ H) | ]; apply Hwf.
  - assert (Hn : resetOf (Timeout n) (gameState s) = None) by reflexivity.
    rewrite Hn. injection H as <-. unfold fireTimer.
    destruct (nth_error (timers s) n) as [ t | ]; [ | exact R ].
    destruct (tm_action t); exact R.
Qed.

Lemma resetOf_keepsWave (ev : Event) (g : GameState) :
  keepsWave ev = true -> resetOf ev g = None.
Proof. destruct ev; try discriminate; reflexivity. Qed.

Lemma run_towers (evs : list Event) (s s' : Game) :
  wellFormed s -> forallb keepsWave evs = true -> run M evs s = Some s' ->
  Forall2 (fun t t' => (0 <= t_ammo t' <= t_ammo t)%Z) (towers s) (towers s').
Proof.
  revert s. induction evs as [ | ev evs IH ]; intros s Hwf; simpl.
  - intros _ [= <-]. apply ammo_bounds_refl. apply Hwf.
  - rewrite andb_true_iff. intros [Hk Hks].
    destruct (step M ev s) as [ s1 | ] eqn:Hs; [ | discriminate ].
    intros Hr. pose proof (step_towers ev s s1 Hwf Hs) as H1.
    rewrite (resetOf_keepsWave _ _ Hk) in H1.
    eapply Forall2_trans; [ | exact H1 | ].
    + cbv beta. intros a b c ? ?. lia.
    + apply IH; [ eapply step_wellFormed; eassumption | assumption | assumption ].
Qed.

(** C6, as the code has it.  From a well-formed game, across every
    sequence of taps, frames, pause clicks and timer callbacks (no click
    that resets), every tower's ammo stays non-negative and never
    increases; an event then changes ammo upwards only as a reset: the
    new-wave reset ([nextWave], by the next-wave or endless button) refills
    every tower to its maxAmmo, the game-start reset ([initGame], by the
    start or restart button) installs the initial towers 20/40/20, and any
    other event leaves ammo non-negative and not increased. *)
Theorem ammo_grows_only_by_a_reset
    (evs : list Event) (ev : Event) (s s1 s' : Game) :
  wellFormed s -> forallb keepsWave evs = true ->
  run M evs s = Some s1 -> step M ev s1 = Some s' ->
  Forall2 (fun t t1 => (0 <= t_ammo t1 <= t_ammo t)%Z) (towers s) (towers s1) /\
  match resetOf ev (gameState s1) with
  | None =>
      Forall2 (fun t t' => (0 <= t_ammo t' <= t_ammo t)%Z) (towers s1) (towers s')
  | Some NewWave =>
      Forall2 (fun t t' => t_ammo t' = t_maxAmmo t /\ t_alive t' = true)
              (towers s1) (towers s')
  | Some GameStart => map t_ammo (towers s') = [20; 40; 20]%Z
  end.
Proof.
  intros Hwf Hk Hr Hs. split; [ eapply run_towers; eassumption | ].
  assert (Hwf1 : wellFormed s1) by (eapply run_wellFormed; eassumption).
  pose proof (step_towers ev s1 s' Hwf1 Hs) as H.
  destruct (resetOf ev (gameState s1)) as [ [ | ] | ]; [ | | exact H ].
  - rewrite H. clear. induction (towers s1); simpl; constructor; auto.
  - rewrite H. reflexivity.
Qed.


(** C4, as the code has it.  Each frame computes a time-delta from the
    timestamp and caps it at 50 ([safeDt]), but does not use it: while
    PLAYING, every interceptor and every enemy is advanced by exactly its
    own velocity [(vx, vy)], whatever the timestamp.  The interceptors after
    the frame are the interceptors before, each moved by its velocity,
    without those that arrived, and so are the same for any two timestamps;
    every enemy after the frame is an enemy of before the frame, or the one
    the frame spawned at height -20, moved by its velocity.  The step of an
    entity is therefore bounded by its velocity however large the raw
    delta is. *)
Theorem frame_moves_entities_by_their_velocity
    (time time2 : Q) (cv : Canvas) (s s' s2 : Game) :
  gameState s = PLAYING ->
  update M time (Some cv) s = Some s' ->
  update M time2 (Some cv) s = Some s2 ->
  safeDt time s <= 50 /\ lastTime s' = time /\
  interceptors s' =
    filter (fun p => negb (i_dead p)) (map advanceInterceptor (interceptors s)) /\
  interceptors s2 = interceptors s' /\
  (forall p,
      i_x (advanceInterceptor p) = i_x p + i_vx p /\
      i_y (advanceInterceptor p) = i_y p + i_vy p) /\
  (forall e',
      In e' (enemies s') ->
      exists e, (In e (enemies s) \/ e_y e == -20) /\
                e_x e' = e_x e + e_vx e /\ e_y e' = e_y e + e_vy e /\
                e_vx e' = e_vx e /\ e_vy e' = e_vy e).
Proof.
  intros Hg H1 H2.
  assert (L : forall t g, update M t (Some cv) s = Some g ->
                          gameLogic M t cv (set_lastTime t s) = Some g).
  { intros t g. unfold update. cbn [gameState set_lastTime]. rewrite Hg.
    cbn [GameState_eqb negb]. auto. }
  apply L in H1. apply L in H2.
  pose proof (gameLogic_interceptors _ _ _ _ H1) as I1.
  pose proof (gameLogic_interceptors _ _ _ _ H2) as I2.
  cbn [interceptors set_lastTime] in I1, I2.
  split; [ apply Q.le_min_r | ].
  split.
  { transitivity (lastTime (set_lastTime time s)); [ | reflexivity ].
    clear H2. unfold gameLogic in H1.
    destruct (spawnEnemy M time cv (set_lastTime time s)) as [ g1 | ] eqn:E1;
      [ | discriminate ].
    cbv zeta in H1.
    match type of H1 with
    | match ?r with Some _ => _ | None => _ end = _ =>
        destruct r as [ g2 | ] eqn:E2; [ | discriminate ]
    end.
    injection H1 as <-.
    rewrite (cleanup_frame lastTime) by reflexivity. cbn [lastTime set_floatingTexts set_particles].
    unfold updateEnemies in E2.
    match type of E2 with
    | match ?r with Some _ => _ | None => _ end = _ =>
        destruct r as [ [es g3] | ] eqn:E3; [ | discriminate ]
    end.
    injection E2 as <-. cbn [lastTime set_enemies].
    apply (forEachE_invariant _ (fun a b => lastTime b = lastTime a)) in E3;
      [ | reflexivity | congruence
        | intros a g0 a' g0'; apply (stepEnemy_frame lastTime); reflexivity ].
    rewrite E3. cbn [lastTime set_explosions].
    rewrite (updateInterceptors_frame lastTime) by reflexivity.
    rewrite (checkWaveClear_frame lastTime) by reflexivity.
    apply (spawnEnemy_frame lastTime) in E1; auto. }
  split; [ exact I1 | ]. split; [ congruence | ].
  split.
  { intros p. unfold advanceInterceptor. cbv zeta.
    destruct (distance_lt _ _ _); split; reflexivity. }
  intros e' Hin.
  destruct (gameLogic_enemies _ _ _ _ H1) as (g1 & es & Hsp & Hmv & He).
  rewrite He in Hin. apply filter_In in Hin. destruct Hin as [Hin Halive].
  assert (Hsrc : exists e, In e (enemies g1) /\
                           (e' = moveEnemy e \/ e' = killEnemy (moveEnemy e))).
  { clear - Hmv Hin. induction Hmv as [ | a a' l l' Ha _ IH ]; [ destruct Hin | ].
    destruct Hin as [ <- | Hin ].
    - exists a. split; [ left; reflexivity | assumption ].
    - destruct (IH Hin) as (e & He & Hr). exists e. split; [ right | ]; assumption. }
  destruct Hsrc as (e & Hine & [ -> | -> ]); [ | discriminate ].
  exists e. split; [ | repeat split ].
  destruct (spawnEnemy_enemies _ _ _ _ Hsp) as [ Heq | (e0 & Heq & _ & _ & Hy) ];
    rewrite Heq in Hine; cbn [enemies set_lastTime] in Hine; [ auto | ].
  apply in_app_or in Hine. destruct Hine as [ Hine | [ <- | [] ] ]; auto.
Qed.

Lemma caughtBy_first (e : Enemy) (exps : list Explosion) (b : Explosion) :
  caughtBy e exps = Some b ->
  exists before after,
    exps = before ++ b :: after /\ covers e b = true /\
    Forall (fun b' => covers e b' = false) before.
Proof.
  unfold caughtBy. fold (covers e).
  induction exps as [ | a exps IH ]; simpl; [ discriminate | ].
  destruct (covers e a) eqn:Hc.
  - intros [= <-]. exists [], exps. repeat split; auto.
  - intros H. destruct (IH H) as (before & after & -> & Hb & Hall).
    exists (a :: before), after. repeat split; auto.
Qed.

Lemma score_addScore (a : Z) (x y : Q) (s : Game) :
  score (addScore M a x y s) = (score s + a)%Z.
Proof. reflexivity. Qed.

Lemma explosions_spawnExplosion (x y : Q) (c : string) (s : Game) :
  explosions (spawnExplosion M x y c s) =
  explosions s ++
  [ {| x_id := Math_random M (draws s); x_x := x; x_y := y; x_radius := 0;
       x_maxRadius := 60; x_growthRate := 4; x_life := 1; x_color := c |} ].
Proof. reflexivity. Qed.

(** An enemy inside a blast: what [stepEnemy] does. *)
Lemma stepEnemy_caught (groundY time : Q) (e : Enemy) (s : Game) (b : Explosion) :
  caughtBy (moveEnemy e) (explosions s) = Some b ->
  exists s',
    stepEnemy M groundY time e s = Some (killEnemy (moveEnemy e), s') /\
    score s' = (score s + 20)%Z /\
    (exists id,
        explosions s' =
        explosions s ++
        [ {| x_id := id; x_x := e_x e + e_vx e; x_y := e_y e + e_vy e;
             x_radius := 0; x_maxRadius := 60; x_growthRate := 4; x_life := 1;
             x_color := COLORS.secondary |} ]) /\
    cities s' = cities s /\ towers s' = towers s /\
    gameState s' = gameState s /\ timers s' = timers s /\ shake s' = shake s.
Proof.
  intros Hc. eexists. split.
  - unfold stepEnemy, blastCheck. rewrite Hc.
    cbn [e_dead killEnemy negb andb]. reflexivity.
  - split.
    { rewrite (spawnExplosion_frame score) by reflexivity.
      rewrite (spawnParticles_frame score) by reflexivity.
      apply score_addScore. }
    split.
    { eexists. rewrite explosions_spawnExplosion.
      rewrite (spawnParticles_frame explosions) by reflexivity.
      rewrite (addScore_frame explosions) by reflexivity. reflexivity. }
    repeat split;
      match goal with
      | |- ?f _ = ?f s =>
          rewrite (spawnExplosion_frame f) by reflexivity;
          rewrite (spawnParticles_frame f) by reflexivity;
          apply (addScore_frame f); reflexivity
      end.
Qed.

(** ** Further properties of the engine *)

(** X1.  No handler throws in any run: with [Math.random()] in the range
    0 to 1 (1 excluded), every sequence of events handled from the mounted
    component yields a game (no read of a missing array element), and that
    game has three towers, six cities, enemies aimed at indices 0 to 8,
    non-negative ammo, only the engine's timers pending and the wave ref in
    step with the wave state. *)
Theorem runs_never_throw (evs : list Event) :
  unitRandom M -> exists s, run M evs mounted = Some s /\ wellFormed s.
Proof.
  intros Hrnd.
  destruct (run_total evs mounted Hrnd mounted_wellFormed) as [ s Hs ].
  exists s. split; [ exact Hs | ].
  eapply run_wellFormed; [ exact Hs | apply mounted_wellFormed ].
Qed.

Lemma In_mapi_from_alive {A : Type} (p : A -> bool) (off : Z) (arr : list A) :
  forall (j k : Z),
    (0 <= k + off)%Z ->
    In j (filter (fun i => negb (i =? -1)%Z)
            (mapi_from (fun a i => if p a then (i + off)%Z else (-1)%Z) k arr)) ->
    exists a, nth_error arr (Z.to_nat (j - off - k)) = Some a /\ p a = true.
Proof.
  induction arr as [ | a arr IH ]; intros j k Hk; simpl; [ tauto | ].
  destruct (p a) eqn:Hp.
  - destruct (Z.eqb_spec (k + off) (-1)); [ lia | ]. simpl.
    intros [ <- | H ].
    + exists a. replace (k + off - off - k)%Z with 0%Z by lia. auto.
    + pose proof H as Hr. apply (In_mapi_from _ off) in Hr;
        [ | intros b i; destruct (p b); auto ].
      apply IH in H; [ | lia ]. destruct H as (b & Hb & Hpb). exists b.
      split; [ | assumption ].
      replace (Z.to_nat (j - off - k)) with (S (Z.to_nat (j - off - (k + 1)))) by lia.
      exact Hb.
  - simpl. intros H. pose proof H as Hr. apply (In_mapi_from _ off) in Hr;
      [ | intros b i; destruct (p b); auto ].
    apply IH in H; [ | lia ]. destruct H as (b & Hb & Hpb). exists b.
    split; [ | assumption ].
    replace (Z.to_nat (j - off - k)) with (S (Z.to_nat (j - off - (k + 1)))) by lia.
    exact Hb.
Qed.

Lemma aliveCities_alive (s : Game) (j : Z) :
  In j (aliveCities s) ->
  (0 <= j)%Z /\ exists c, arrayGet (cities s) j = Some c /\ c_alive c = true.
Proof.
  intros H. pose proof (aliveCities_range s j H) as Hr. split; [ lia | ].
  unfold aliveCities, mapi in H.
  assert (H' : In j (filter (fun i => negb (i =? -1)%Z)
                 (mapi_from (fun c i => if c_alive c then (i + 0)%Z else (-1)%Z) 0
                    (cities s)))).
  { clear Hr. revert H. generalize 0%Z at 1 3. induction (cities s) as [ | c cs IH ];
      intros k; simpl; [ tauto | ].
    rewrite Z.add_0_r. destruct (negb _); simpl; [ | apply IH ].
    intros [ E | E ]; [ left; exact E | right; apply IH; exact E ]. }
  apply In_mapi_from_alive in H'; [ | lia ].
  destruct H' as (c & Hc & Ha). exists c. split; [ | assumption ].
  unfold arrayGet. destruct (Z.ltb_spec j 0); [ lia | ].
  replace (j - 0 - 0)%Z with j in Hc by lia. exact Hc.
Qed.

Lemma aliveTowers_alive (s : Game) (j : Z) :
  In j (aliveTowers s) ->
  (6 <= j)%Z /\ exists t, arrayGet (towers s) (j - 6) = Some t /\ t_alive t = true.
Proof.
  intros H. pose proof (aliveTowers_range s j H) as Hr. split; [ lia | ].
  unfold aliveTowers, mapi in H.
  apply In_mapi_from_alive in H; [ | lia ].
  destruct H as (t & Ht & Ha). exists t. split; [ | assumption ].
  unfold arrayGet. destruct (Z.ltb_spec (j - 6) 0); [ lia | ].
  replace (j - 6 - 0)%Z with (j - 6)%Z in Ht by lia. exact Ht.
Qed.

(** X2.  An enemy is always aimed at a structure that is alive when it is
    spawned: with six cities, when [spawnEnemy] appends an enemy [e], its
    target index is
    that of an alive city (0 to 5) or of an alive tower (6 and above); the
    enemy starts alive at height -20 with an empty trail and the speed of
    the wave, [1 + 0.2 * wave]. *)
Theorem spawned_enemy_aims_at_an_alive_structure
    (time : Q) (cv : Canvas) (s s' : Game) (e : Enemy) :
  List.length (cities s) = 6%nat ->
  spawnEnemy M time cv s = Some s' -> enemies s' = enemies s ++ [ e ] ->
  aimsAtAlive e s /\ e_dead e = false /\ e_y e = -20 /\ e_trail e = [] /\
  e_speed e = 1 + inject_Z (waveRef s) * 0.2 /\
  isWaveClearing s = false /\ spawnTimer s' = time.
Proof.
  intros Hsix. unfold spawnEnemy, random.
  destruct (isWaveClearing s) eqn:Hclear.
  { intros [= <-] He. exfalso. apply (f_equal (@List.length _)) in He.
    rewrite length_app in He. simpl in He. lia. }
  destruct (Qltb _ _).
  2: { intros [= <-] He. exfalso. apply (f_equal (@List.length _)) in He.
       rewrite length_app in He. simpl in He. lia. }
  fields.
  set (targets := aliveCities (set_spawnTimer time s) ++
                  aliveTowers (set_spawnTimer time s)).
  destruct (0 <? numLength targets)%Z.
  2: { intros [= <-] He. exfalso. apply (f_equal (@List.length _)) in He.
       fields. rewrite length_app in He. simpl in He. lia. }
  destruct (arrayGet targets _) as [ targetIdx | ] eqn:Hget; [ | discriminate ].
  assert (Hin : In targetIdx targets).
  { apply arrayGet_Some in Hget. destruct Hget as [_ Hget].
    eapply nth_error_In; eassumption. }
  assert (Halive : forall e0, e_targetIndex e0 = targetIdx -> aimsAtAlive e0 s).
  { intros e0 He0. unfold aimsAtAlive. rewrite He0.
    subst targets. apply in_app_or in Hin. destruct Hin as [ Hin | Hin ].
    - pose proof (aliveCities_range _ _ Hin) as Hr.
      apply aliveCities_alive in Hin. destruct Hin as [H0 Hc].
      unfold aimsAtAlive.
      destruct (Z.ltb_spec targetIdx 6) as [ Hlt | Hge ]; [ exact Hc | ].
      exfalso. unfold numLength in Hr. fields. lia.
    - apply aliveTowers_alive in Hin. destruct Hin as [H6 Ht].
      destruct (Z.ltb_spec targetIdx 6) as [ Hlt | Hge ]; [ lia | exact Ht ]. }
  destruct (if (targetIdx <? 6)%Z then _ else _) as [ t | ]; [ | discriminate ].
  intros [= <-]. fields. intros He. apply app_inj_tail in He.
  destruct He as [_ <-]. cbn [e_dead e_y e_trail e_speed e_targetIndex].
  split; [ apply Halive; reflexivity | ]. repeat split.
Qed.

(** X3.  Enemies are not spawned while the wave is clearing, and never
    faster than the spawn interval [max(500, 2000 - 150 * wave)] allows: if
    the wave is clearing, or the time since the last spawn is at most 500,
    or it is at most [2000 - 150 * wave], then [spawnEnemy] returns the
    game unchanged. *)
Theorem enemies_spawn_no_faster_than_the_interval
    (time : Q) (cv : Canvas) (s : Game) :
  isWaveClearing s = true \/ time - spawnTimer s <= 500 \/
  time - spawnTimer s <= 2000 - inject_Z (waveRef s) * 150 ->
  spawnEnemy M time cv s = Some s.
Proof.
  intros H. unfold spawnEnemy.
  destruct (isWaveClearing s); [ reflexivity | ].
  destruct H as [ H | H ]; [ discriminate | ].
  match goal with |- (if Qltb ?a ?b then _ else _) = _ => destruct (Qltb a b) eqn:E end;
    [ | reflexivity ].
  exfalso. apply Qltb_lt in E.
  pose proof (Q.le_max_l 500 (2000 - inject_Z (waveRef s) * 150)) as H1.
  pose proof (Q.le_max_r 500 (2000 - inject_Z (waveRef s) * 150)) as H2.
  destruct H as [ H | H ]; lra.
Qed.

Lemma mapi_from_none {A : Type} (f : A -> Z -> Z) (arr : list A) :
  (forall a i, In a arr -> f a i = (-1)%Z) ->
  forall k, filter (fun i => negb (i =? -1)%Z) (mapi_from f k arr) = [].
Proof.
  induction arr as [ | a arr IH ]; intros Hf k; simpl; [ reflexivity | ].
  rewrite (Hf a k) by (left; reflexivity). simpl. apply IH.
  intros b i Hb. apply Hf. right. assumption.
Qed.

(** X4.  With no structure left alive nothing is spawned: if every city and
    every tower is dead, [spawnEnemy] adds no enemy and draws no random
    number; it only restarts the spawn timer when the interval has passed. *)
Theorem nothing_spawns_without_an_alive_structure
    (time : Q) (cv : Canvas) (s : Game) :
  existsb c_alive (cities s) = false -> existsb t_alive (towers s) = false ->
  spawnEnemy M time cv s = Some s \/
  spawnEnemy M time cv s = Some (set_spawnTimer time s).
Proof.
  intros Hc Ht. unfold spawnEnemy.
  destruct (isWaveClearing s); [ left; reflexivity | ].
  match goal with |- context [if Qltb ?a ?b then _ else _] => destruct (Qltb a b) end;
    [ | left; reflexivity ].
  right. cbv zeta.
  assert (E1 : aliveCities (set_spawnTimer time s) = []).
  { unfold aliveCities, mapi. fields. apply mapi_from_none. intros c i Hin.
    destruct (c_alive c) eqn:E; [ | reflexivity ].
    exfalso. rewrite <- not_true_iff_false in Hc. apply Hc.
    apply existsb_exists. eauto. }
  assert (E2 : aliveTowers (set_spawnTimer time s) = []).
  { unfold aliveTowers, mapi. fields. apply mapi_from_none. intros t i Hin.
    destruct (t_alive t) eqn:E; [ | reflexivity ].
    exfalso. rewrite <- not_true_iff_false in Ht. apply Ht.
    apply existsb_exists. eauto. }
  rewrite E1, E2. reflexivity.
Qed.

Lemma gameLogic_cleanup (time : Q) (cv : Canvas) (s s' : Game) :
  gameLogic M time cv s = Some s' -> exists g, s' = cleanup g.
Proof.
  unfold gameLogic.
  destruct (spawnEnemy M time cv s) as [ s1 | ]; [ | discriminate ].
  cbv zeta.
  match goal with
  | |- match ?r with Some _ => _ | None => _ end = _ -> _ =>
      destruct r as [ s2 | ]; [ | discriminate ]
  end.
  intros [= <-]. eauto.
Qed.

Lemma Forall_filter {A : Type} (p : A -> bool) (l : list A) :
  Forall (fun a => p a = true) (filter p l).
Proof.
  apply Forall_forall. intros a Ha. apply filter_In in Ha. apply Ha.
Qed.

(** X5.  No entity outlives its tombstone: after a frame handled while
    PLAYING no enemy, interceptor or particle of the game is marked dead,
    and every explosion and every floating text has life above 0. *)
Theorem no_dead_entity_survives_a_frame
    (time : Q) (cv : Canvas) (s s' : Game) :
  gameState s = PLAYING -> update M time (Some cv) s = Some s' ->
  Forall (fun e => e_dead e = false) (enemies s') /\
  Forall (fun p => i_dead p = false) (interceptors s') /\
  Forall (fun p => pt_dead p = false) (particles s') /\
  Forall (fun e => 0 < x_life e) (explosions s') /\
  Forall (fun t => 0 < ft_life t) (floatingTexts s').
Proof.
  intros Hg H. unfold update in H. cbn [gameState set_lastTime] in H.
  rewrite Hg in H. cbn [GameState_eqb negb] in H.
  destruct (gameLogic_cleanup _ _ _ _ H) as [ g -> ]. unfold cleanup. fields.
  repeat split;
    match goal with
    | |- Forall _ (filter ?p ?l) =>
        pose proof (Forall_filter p l) as F; rewrite Forall_forall in *;
        intros a Ha; specialize (F a Ha); cbv beta in F
    end.
  - now apply negb_true_iff in F.
  - now apply negb_true_iff in F.
  - now apply negb_true_iff in F.
  - now apply Qltb_lt in F.
  - now apply Qltb_lt in F.
Qed.

Lemma moved_trail_length {A : Type} (trail : list A) (a : A) (n : nat) :
  (List.length trail <= n)%nat ->
  (List.length (if (Z.of_nat n <? numLength (trail ++ [a]))%Z
                then tl (trail ++ [a]) else trail ++ [a]) <= n)%nat.
Proof.
  intros H. unfold numLength. rewrite length_app. simpl.
  destruct (Z.ltb_spec (Z.of_nat n) (Z.of_nat (List.length trail + 1))).
  - destruct trail; simpl in *; [ lia | ]. rewrite length_app. simpl. lia.
  - rewrite length_app. simpl. lia.
Qed.

Lemma spawnEnemy_fresh (time : Q) (cv : Canvas) (s s' : Game) :
  spawnEnemy M time cv s = Some s' ->
  enemies s' = enemies s \/
  exists e, enemies s' = enemies s ++ [ e ] /\ e_trail e = [] /\ e_dead e = false.
Proof.
  unfold spawnEnemy, random.
  destruct (isWaveClearing s); [ intros [= <-]; auto | ].
  match goal with |- context [if Qltb ?a ?b then _ else _] => destruct (Qltb a b) end;
    [ | intros [= <-]; auto ].
  match goal with |- context [if (?a <? ?b)%Z then _ else _] => destruct (a <? b)%Z end;
    fields; [ | intros [= <-]; auto ].
  match goal with
  | |- match ?r with Some _ => _ | None => _ end = _ -> _ =>
      destruct r as [ targetIdx | ]; [ | discriminate ]
  end.
  match goal with
  | |- match ?r with Some _ => _ | None => _ end = _ -> _ =>
      destruct r as [ t | ]; [ | discriminate ]
  end.
  intros [= <-]. right. eexists. split; [ reflexivity | ]. split; reflexivity.
Qed.

(** X6.  Trails are bounded: if every interceptor holds at most 10 trail
    points and every enemy at most 15 before a frame, so they do after it,
    the enemy spawned by the frame included. *)
Theorem trails_stay_bounded (time : Q) (canvas : option Canvas) (s s' : Game) :
  Forall (fun p => (List.length (i_trail p) <= 10)%nat) (interceptors s) ->
  Forall (fun e => (List.length (e_trail e) <= 15)%nat) (enemies s) ->
  update M time canvas s = Some s' ->
  Forall (fun p => (List.length (i_trail p) <= 10)%nat) (interceptors s') /\
  Forall (fun e => (List.length (e_trail e) <= 15)%nat) (enemies s').
Proof.
  intros Hi He H. unfold update in H.
  destruct canvas as [ cv | ]; [ | injection H as <-; auto ].
  cbn [gameState set_lastTime] in H.
  destruct (negb (negb (GameState_eqb (gameState s) PLAYING)));
    [ | injection H as <-; auto ].
  split.
  - rewrite (gameLogic_interceptors _ _ _ _ H). cbn [interceptors set_lastTime].
    apply Forall_forall. intros p Hp. apply filter_In in Hp. destruct Hp as [Hp _].
    apply in_map_iff in Hp. destruct Hp as (p0 & <- & Hp0).
    rewrite Forall_forall in Hi. specialize (Hi p0 Hp0).
    unfold advanceInterceptor. cbv zeta.
    destruct (distance_lt _ _ _); cbn [i_trail killInterceptor moveInterceptor];
      apply (moved_trail_length _ _ 10%nat); assumption.
  - destruct (gameLogic_enemies _ _ _ _ H) as (g1 & es & Hsp & Hmv & ->).
    assert (H1 : Forall (fun e => (List.length (e_trail e) <= 15)%nat) (enemies g1)).
    { destruct (spawnEnemy_fresh _ _ _ _ Hsp) as [ -> | (e0 & -> & Htr & _) ];
        cbn [enemies set_lastTime]; [ assumption | ].
      apply Forall_app. split; [ assumption | ].
      constructor; [ rewrite Htr; simpl; lia | constructor ]. }
    clear H Hsp He. apply Forall_forall. intros e' Hin.
    apply filter_In in Hin. destruct Hin as [Hin _].
    revert e' Hin. apply Forall_forall.
    induction Hmv as [ | e e' es0 es1 Hee _ IH ]; [ constructor | ].
    inversion H1; subst. constructor; [ | auto ].
    destruct Hee as [ -> | -> ]; cbn [e_trail killEnemy moveEnemy];
      apply (moved_trail_length _ _ 15%nat); assumption.
Qed.

Lemma ammoBonus_nonneg (ts : list Tower) :
  Forall (fun t => (0 <= t_ammo t)%Z) ts -> (0 <= ammoBonus ts)%Z.
Proof.
  unfold ammoBonus. intros H.
  assert (G : forall acc, (0 <= acc)%Z ->
            (0 <= fold_left (fun bonus t => if t_alive t then bonus + t_ammo t * 5 else bonus)
                    ts acc)%Z).
  { induction H as [ | t ts Ht _ IH ]; intros acc Hacc; simpl; [ assumption | ].
    apply IH. destruct (t_alive t); lia. }
  apply G. lia.
Qed.

Lemma settle_fields (a : TimerAction) (b : Z) (x y time : Q) (s : Game) :
  score (set_isWaveClearing false
           (setTimeout a 2000 time (addScore M b x y (set_waveBonus b s)))) =
    (score s + b)%Z /\
  waveBonus (set_isWaveClearing false
               (setTimeout a 2000 time (addScore M b x y (set_waveBonus b s)))) = b /\
  isWaveClearing (set_isWaveClearing false
                    (setTimeout a 2000 time (addScore M b x y (set_waveBonus b s)))) =
    false /\
  timers (set_isWaveClearing false
            (setTimeout a 2000 time (addScore M b x y (set_waveBonus b s)))) =
    timers s ++ [ {| tm_due := time + 2000; tm_action := a |} ].
Proof. repeat split. Qed.

(** The settlement of the wave-clear check, case by case. *)
Lemma checkWaveClear_cases (time : Q) (cv : Canvas) (s : Game) :
  (timers (checkWaveClear M time cv s) = timers s /\
   score (checkWaveClear M time cv s) = score s /\
   waveBonus (checkWaveClear M time cv s) = waveBonus s) \/
  (enemies s = [] /\ explosions s = [] /\
   score (checkWaveClear M time cv s) = (score s + ammoBonus (towers s))%Z /\
   waveBonus (checkWaveClear M time cv s) = ammoBonus (towers s) /\
   isWaveClearing (checkWaveClear M time cv s) = false /\
   exists g,
     timers (checkWaveClear M time cv s) =
       timers s ++ [ {| tm_due := time + 2000; tm_action := SetGameState g |} ] /\
     ((g = VICTORY /\ (1000 <= score s + ammoBonus (towers s))%Z /\
       isEndlessMode s = false /\ gameState s <> VICTORY) \/
      (g = WAVE_COMPLETE /\
       ((score s + ammoBonus (towers s) < 1000)%Z \/ isEndlessMode s = true \/
        gameState s = VICTORY)))).
Proof.
  unfold checkWaveClear. cbv zeta.
  remember (if (waveRef s * 200 <=? score s)%Z && negb (isWaveClearing s)
            then set_isWaveClearing true s else s) as s1 eqn:E1.
  assert (H1 : towers s1 = towers s /\ enemies s1 = enemies s /\
               explosions s1 = explosions s /\ score s1 = score s /\
               timers s1 = timers s /\ isEndlessMode s1 = isEndlessMode s /\
               gameState s1 = gameState s /\ waveBonus s1 = waveBonus s).
  { subst s1. destruct ((waveRef s * 200 <=? score s)%Z && negb (isWaveClearing s));
      repeat split. }
  clear E1. destruct H1 as (Ht & He & Hx & Hs & Htm & Hend & Hg & Hb).
  destruct (isWaveClearing s1); cbn [andb]; [ | left; auto ].
  destruct (enemies s1) as [ | e es ] eqn:Ee; cbn [numLength List.length Z.of_nat Z.eqb andb];
    [ | left; auto ].
  destruct (explosions s1) as [ | x xs ] eqn:Ex;
    cbn [numLength List.length Z.of_nat Z.eqb andb]; [ | left; auto ].
  right. split; [ congruence | ]. split; [ congruence | ].
  rewrite <- Ht, <- Hs, <- Hend, <- Hg, <- Htm.
  rewrite score_addScore.
  change (gameState (addScore M (ammoBonus (towers s1)) (width cv / 2) (height cv / 2)
                       (set_waveBonus (ammoBonus (towers s1)) s1)))
    with (gameState s1).
  change (isEndlessMode (addScore M (ammoBonus (towers s1)) (width cv / 2) (height cv / 2)
                           (set_waveBonus (ammoBonus (towers s1)) s1)))
    with (isEndlessMode s1).
  change (score (set_waveBonus (ammoBonus (towers s1)) s1)) with (score s1).
  destruct (1000 <=? score s1 + ammoBonus (towers s1))%Z eqn:E1000; cbn [andb].
  - destruct (GameState_eqb (gameState s1) VICTORY) eqn:Ev; cbn [negb andb].
    + destruct (settle_fields (SetGameState WAVE_COMPLETE) (ammoBonus (towers s1))
                  (width cv / 2) (height cv / 2) time s1) as (A & B & C & D).
      repeat (split; [ assumption | ]). exists WAVE_COMPLETE. split; [ exact D | ].
      right. split; [ reflexivity | ]. right. right. now apply GameState_eqb_eq in Ev.
    + destruct (isEndlessMode s1) eqn:Een; cbn [negb].
      * destruct (settle_fields (SetGameState WAVE_COMPLETE) (ammoBonus (towers s1))
                    (width cv / 2) (height cv / 2) time s1) as (A & B & C & D).
        repeat (split; [ assumption | ]). exists WAVE_COMPLETE. split; [ exact D | ].
        right. split; [ reflexivity | ]. right. left. reflexivity.
      * destruct (settle_fields (SetGameState VICTORY) (ammoBonus (towers s1))
                    (width cv / 2) (height cv / 2) time s1) as (A & B & C & D).
        repeat (split; [ assumption | ]). exists VICTORY. split; [ exact D | ].
        left. split; [ reflexivity | ]. split; [ now apply Z.leb_le in E1000 | ].
        split; [ reflexivity | now apply GameState_eqb_neq in Ev ].
  - destruct (settle_fields (SetGameState WAVE_COMPLETE) (ammoBonus (towers s1))
                (width cv / 2) (height cv / 2) time s1) as (A & B & C & D).
    repeat (split; [ assumption | ]). exists WAVE_COMPLETE. split; [ exact D | ].
    right. split; [ reflexivity | ]. left. now apply Z.leb_gt in E1000.
Qed.

(** X7.  Victory is gated: when the wave-clear check of a frame schedules a
    transition it does so only with no enemy and no explosion left, it adds
    the ammo bonus of the alive towers to the score once and records it as
    the displayed bonus, and the transition is to VICTORY only if the score
    with the bonus is at least 1000 and endless mode is off; in endless mode
    or below 1000 it is to WAVE_COMPLETE.  Otherwise the check changes
    neither the timers nor the score. *)
Theorem settlement_schedules_victory_only_at_1000
    (time : Q) (cv : Canvas) (s : Game) :
  (timers (checkWaveClear M time cv s) = timers s /\
   score (checkWaveClear M time cv s) = score s /\
   waveBonus (checkWaveClear M time cv s) = waveBonus s) \/
  (enemies s = [] /\ explosions s = [] /\
   score (checkWaveClear M time cv s) = (score s + ammoBonus (towers s))%Z /\
   waveBonus (checkWaveClear M time cv s) = ammoBonus (towers s) /\
   isWaveClearing (checkWaveClear M time cv s) = false /\
   exists g,
     timers (checkWaveClear M time cv s) =
       timers s ++ [ {| tm_due := time + 2000; tm_action := SetGameState g |} ] /\
     ((g = VICTORY /\ (1000 <= score s + ammoBonus (towers s))%Z /\
       isEndlessMode s = false /\ gameState s <> VICTORY) \/
      (g = WAVE_COMPLETE /\
       ((score s + ammoBonus (towers s) < 1000)%Z \/ isEndlessMode s = true \/
        gameState s = VICTORY)))).
Proof. apply checkWaveClear_cases. Qed.

Lemma stepEnemy_score (groundY time : Q) (e e' : Enemy) (s s' : Game) :
  stepEnemy M groundY time e s = Some (e', s') -> (score s <= score s')%Z.
Proof.
  unfold stepEnemy.
  assert (Hb : forall e1 s1, blastCheck M (moveEnemy e) s = (e1, s1) ->
                             (score s <= score s1)%Z).
  { intros e1 s1. unfold blastCheck.
    destruct (caughtBy (moveEnemy e) (explosions s)); intros [= _ <-]; [ | lia ].
    rewrite (spawnExplosion_frame score) by reflexivity.
    rewrite (spawnParticles_frame score) by reflexivity.
    rewrite score_addScore. lia. }
  destruct (blastCheck M (moveEnemy e) s) as [ e1 s1 ].
  specialize (Hb e1 s1 eq_refl).
  destruct (negb (e_dead e1) && Qle_bool (groundY - 5) (e_y e1));
    [ | intros [= _ <-]; exact Hb ].
  match goal with
  | |- match ?r with Some _ => _ | None => _ end = _ -> _ =>
      destruct r as [ s2 | ] eqn:Hr; [ | discriminate ]
  end.
  intros [= _ <-].
  apply (resolveImpact_frame score) in Hr; try reflexivity.
  rewrite Hr. rewrite (triggerShake_frame score) by reflexivity.
  rewrite (spawnParticles_frame score) by reflexivity.
  rewrite (spawnExplosion_frame score) by reflexivity. exact Hb.
Qed.

Lemma gameLogic_score (time : Q) (cv : Canvas) (s s' : Game) :
  Forall (fun t => (0 <= t_ammo t)%Z) (towers s) ->
  gameLogic M time cv s = Some s' -> (score s <= score s')%Z.
Proof.
  intros Hnn. unfold gameLogic.
  destruct (spawnEnemy M time cv s) as [ s1 | ] eqn:H1; [ | discriminate ].
  cbv zeta.
  remember (updateInterceptors M (checkWaveClear M time cv s1)) as s2 eqn:E2.
  assert (H2 : (score s <= score s2)%Z).
  { subst s2. rewrite (updateInterceptors_frame score) by reflexivity.
    pose proof (spawnEnemy_frame score ltac:(reflexivity) ltac:(reflexivity)
                  ltac:(reflexivity) _ _ _ _ H1) as Hs.
    pose proof (spawnEnemy_frame towers ltac:(reflexivity) ltac:(reflexivity)
                  ltac:(reflexivity) _ _ _ _ H1) as Ht.
    destruct (checkWaveClear_cases time cv s1) as [ (_ & -> & _) | (_ & _ & -> & _) ];
      [ lia | ].
    rewrite Ht, Hs. pose proof (ammoBonus_nonneg _ Hnn). lia. }
  clear E2.
  match goal with
  | |- match ?r with Some _ => _ | None => _ end = _ -> _ =>
      destruct r as [ s3 | ] eqn:H3; [ | discriminate ]
  end.
  intros [= <-]. rewrite (cleanup_frame score) by reflexivity. fields.
  unfold updateEnemies in H3.
  match type of H3 with
  | match ?r with Some _ => _ | None => _ end = _ =>
      destruct r as [ [es s4] | ] eqn:Hf; [ | discriminate ]
  end.
  injection H3 as <-. fields.
  apply (forEachE_invariant _ (fun a b => (score a <= score b)%Z)) in Hf;
    [ | intros; lia | intros; lia | intros a g a' g'; apply stepEnemy_score ].
  fields. lia.
Qed.

(** X8.  The score never goes down during a game: from a well-formed game,
    every event other than the game-start reset leaves the score where it
    was or higher. *)
Theorem score_never_decreases (ev : Event) (s s' : Game) :
  wellFormed s -> step M ev s = Some s' ->
  resetOf ev (gameState s) <> Some GameStart -> (score s <= score s')%Z.
Proof.
  intros Hwf H Hr. destruct ev; cbn [step] in H.
  - injection H as <-. destruct (gameState s); cbn in *; try lia; congruence.
  - injection H as <-. destruct (gameState s); cbn in *; try lia; congruence.
  - injection H as <-. unfold pauseButton. destruct (gameState s); cbn; lia.
  - injection H as <-. destruct (gameState s); cbn; lia.
  - injection H as <-. destruct (gameState s); cbn; lia.
  - injection H as <-. destruct (gameState s); cbn; lia.
  - injection H as <-. destruct (gameState s); cbn; lia.
  - apply (handleInput_frame score) in H; try reflexivity. lia.
  - unfold update in H. destruct canvas as [ cv | ]; [ | injection H as <-; cbn; lia ].
    cbn [gameState set_lastTime] in H.
    destruct (negb (negb (GameState_eqb (gameState s) PLAYING)));
      [ | injection H as <-; cbn; lia ].
    apply gameLogic_score in H; [ exact H | apply Hwf ].
  - injection H as <-. unfold fireTimer.
    destruct (nth_error (timers s) n) as [ t | ]; [ | lia ].
    destruct (tm_action t); cbn; lia.
Qed.

(** *** The life of a blast *)

Lemma inject_nat_succ (n : nat) :
  inject_Z (Z.of_nat (S n)) == inject_Z (Z.of_nat n) + 1.
Proof. rewrite Nat2Z.inj_succ. unfold Z.succ. rewrite inject_Z_plus. reflexivity. Qed.

Lemma inject_nat_le (n m : nat) :
  (n <= m)%nat -> inject_Z (Z.of_nat n) <= inject_Z (Z.of_nat m).
Proof. intros H. rewrite <- Zle_Qle. lia. Qed.

Lemma blast_ages (b : Explosion) (n : nat) :
  x_radius b == 0 -> x_maxRadius b == 60 -> x_growthRate b == 4 -> x_life b == 1 ->
  x_maxRadius (Nat.iter n stepExplosion b) == 60 /\
  x_growthRate (Nat.iter n stepExplosion b) == 4 /\
  x_radius (Nat.iter n stepExplosion b) == Qmin 60 (4 * inject_Z (Z.of_nat n)) /\
  x_life (Nat.iter n stepExplosion b) ==
    Qmin 1 (1 - 0.05 * (inject_Z (Z.of_nat n) - 15)).
Proof.
  intros Hr Hm Hg Hl. induction n as [ | n (IHm & IHg & IHr & IHl) ].
  - change (Nat.iter 0 stepExplosion b) with b. change (inject_Z (Z.of_nat 0)) with 0.
    destruct (Q.min_spec 60 (4 * 0)) as [ [? ->] | [? ->] ];
      destruct (Q.min_spec 1 (1 - 0.05 * (0 - 15))) as [ [? ->] | [? ->] ];
      repeat split; lra.
  - change (Nat.iter (S n) stepExplosion b) with (stepExplosion (Nat.iter n stepExplosion b)).
    set (b' := Nat.iter n stepExplosion b) in *.
    pose proof (inject_nat_succ n) as Hs.
    set (q' := inject_Z (Z.of_nat (S n))) in *.
    assert (Hq0 : 0 <= inject_Z (Z.of_nat n)) by (apply (inject_nat_le 0 n); lia).
    assert (Hint : inject_Z (Z.of_nat n) <= 14 \/ 15 <= inject_Z (Z.of_nat n)).
    { destruct (Nat.le_gt_cases n 14) as [ H | H ].
      - left. apply (inject_nat_le n 14 H).
      - right. apply (inject_nat_le 15 n H). }
    set (q := inject_Z (Z.of_nat n)) in *.
    unfold stepExplosion.
    destruct (Qltb (x_radius b') (x_maxRadius b')) eqn:E;
      [ apply Qltb_lt in E | apply Qltb_ge in E ];
      cbn [x_radius x_maxRadius x_growthRate x_life];
      (split; [ exact IHm | ]); (split; [ exact IHg | ]);
      destruct (Q.min_spec 60 (4 * q)) as [ [? Hq1] | [? Hq1] ];
      destruct (Q.min_spec 1 (1 - 0.05 * (q - 15))) as [ [? Hq2] | [? Hq2] ];
      destruct (Q.min_spec 60 (4 * q')) as [ [? ->] | [? ->] ];
      destruct (Q.min_spec 1 (1 - 0.05 * (q' - 15))) as [ [? ->] | [? ->] ];
      rewrite Hq1 in IHr; rewrite Hq2 in IHl; split; lra.
Qed.

(** X9.  A blast as [spawnExplosion] makes it (radius 0, maximal radius 60,
    growth 4, life 1) grows by 4 a frame for 15 frames, keeps the radius 60
    afterwards and loses 0.05 of its life on each later frame, so that the
    cleanup of the 35th frame is the first to remove it. *)
Theorem blast_grows_for_15_frames_and_is_gone_after_35 (b : Explosion) (n : nat) :
  x_radius b == 0 -> x_maxRadius b == 60 -> x_growthRate b == 4 -> x_life b == 1 ->
  x_radius (Nat.iter n stepExplosion b) == Qmin 60 (4 * inject_Z (Z.of_nat n)) /\
  x_life (Nat.iter n stepExplosion b) ==
    Qmin 1 (1 - 0.05 * (inject_Z (Z.of_nat n) - 15)) /\
  (Qltb 0 (x_life (Nat.iter n stepExplosion b)) = true <-> (n < 35)%nat).
Proof.
  intros Hr Hm Hg Hl.
  destruct (blast_ages b n Hr Hm Hg Hl) as (_ & _ & Hrad & Hlife).
  split; [ exact Hrad | ]. split; [ exact Hlife | ].
  rewrite Qltb_lt, Hlife.
  destruct (Q.min_spec 1 (1 - 0.05 * (inject_Z (Z.of_nat n) - 15))) as [ [H ->] | [H ->] ].
  - split; intros H0.
    + destruct (Nat.lt_ge_cases n 35) as [ Hn | Hn ]; [ exact Hn | ].
      pose proof (inject_nat_le 35 n Hn) as Hq. change (inject_Z (Z.of_nat 35)) with 35 in Hq.
      lra.
    + lra.
  - split; intros H0.
    + destruct (Nat.lt_ge_cases n 35) as [ Hn | Hn ]; [ exact Hn | ].
      pose proof (inject_nat_le 35 n Hn) as Hq. change (inject_Z (Z.of_nat 35)) with 35 in Hq.
      lra.
    + assert (Hq : inject_Z (Z.of_nat n) <= 34) by (apply (inject_nat_le n 34); lia).
      lra.
Qed.

(** *** An impact on a ruin *)

Lemma shake_triggerShake (i : Z) (now : Q) (s : Game) :
  shake (triggerShake i now s) = i.
Proof. reflexivity. Qed.

Lemma resolveImpact_ruin (time : Q) (e : Enemy) (s : Game) :
  aimsAtRuin e s -> resolveImpact time e s = Some s.
Proof.
  unfold aimsAtRuin, resolveImpact.
  destruct (e_targetIndex e <? 6)%Z; intros (c & -> & ->); reflexivity.
Qed.

Lemma aimsAtRuin_ext (e e' : Enemy) (s s' : Game) :
  e_targetIndex e' = e_targetIndex e -> cities s' = cities s -> towers s' = towers s ->
  aimsAtRuin e s -> aimsAtRuin e' s'.
Proof. unfold aimsAtRuin. intros -> -> ->. auto. Qed.

(** X10.  An enemy that reaches the ground at a city or tower that is already
    destroyed dies there with the usual warning blast and the small shake,
    and does no damage: cities, towers, the game state and the score stay as
    they are, and the strong shake of a hit is not triggered. *)
Theorem impact_on_a_ruin_does_no_damage
    (groundY time : Q) (e : Enemy) (s : Game) :
  caughtBy (moveEnemy e) (explosions s) = None ->
  e_dead e = false ->
  groundY - 5 <= e_y e + e_vy e ->
  aimsAtRuin e s ->
  exists s',
    stepEnemy M groundY time e s = Some (killEnemy (moveEnemy e), s') /\
    cities s' = cities s /\ towers s' = towers s /\
    gameState s' = gameState s /\ score s' = score s /\ shake s' = 5%Z /\
    explosions s' =
      explosions s ++
      [ {| x_id := Math_random M (draws s); x_x := e_x e + e_vx e;
           x_y := e_y e + e_vy e; x_radius := 0; x_maxRadius := 60;
           x_growthRate := 4; x_life := 1; x_color := COLORS.warning |} ].
Proof.
  intros Hc Hd Hy Hruin. unfold stepEnemy, blastCheck. rewrite Hc.
  change (e_dead (moveEnemy e)) with (e_dead e). rewrite Hd.
  change (e_y (moveEnemy e)) with (e_y e + e_vy e).
  assert (Hq : Qle_bool (groundY - 5) (e_y e + e_vy e) = true)
    by (apply Qle_bool_iff; exact Hy).
  rewrite Hq. cbn [negb andb].
  match goal with
  | |- exists s', match resolveImpact time ?e' ?g with _ => _ end = _ /\ _ =>
      assert (Hg : aimsAtRuin e' g)
  end.
  { apply (aimsAtRuin_ext e _ s); [ reflexivity | | | exact Hruin ].
    - rewrite (triggerShake_frame cities) by reflexivity.
      rewrite (spawnParticles_frame cities) by reflexivity.
      apply (spawnExplosion_frame cities); reflexivity.
    - rewrite (triggerShake_frame towers) by reflexivity.
      rewrite (spawnParticles_frame towers) by reflexivity.
      apply (spawnExplosion_frame towers); reflexivity. }
  rewrite (resolveImpact_ruin time _ _ Hg).
  eexists. split; [ reflexivity | ].
  split.
  { rewrite (triggerShake_frame cities) by reflexivity.
    rewrite (spawnParticles_frame cities) by reflexivity.
    apply (spawnExplosion_frame cities); reflexivity. }
  split.
  { rewrite (triggerShake_frame towers) by reflexivity.
    rewrite (spawnParticles_frame towers) by reflexivity.
    apply (spawnExplosion_frame towers); reflexivity. }
  split.
  { rewrite (triggerShake_frame gameState) by reflexivity.
    rewrite (spawnParticles_frame gameState) by reflexivity.
    apply (spawnExplosion_frame gameState); reflexivity. }
  split.
  { rewrite (triggerShake_frame score) by reflexivity.
    rewrite (spawnParticles_frame score) by reflexivity.
    apply (spawnExplosion_frame score); reflexivity. }
  split; [ apply shake_triggerShake | ].
  rewrite (triggerShake_frame explosions) by reflexivity.
  rewrite (spawnParticles_frame explosions) by reflexivity.
  apply explosions_spawnExplosion.
Qed.

(** *** Ammo and interceptors *)

Lemma totalAmmo_useAmmo (ts : list Tower) (k : nat) (t : Tower) :
  nth_error ts k = Some t ->
  totalAmmo (modify useAmmo k ts) = (totalAmmo ts - 1)%Z.
Proof.
  revert k. induction ts as [ | a ts IH ]; intros [ | k ]; simpl; try discriminate.
  - intros _. lia.
  - intros H. rewrite (IH k H). lia.
Qed.

Lemma handleInput_ammo (clientX clientY : Q) (canvas : option Canvas)
    (rect : Rect) (s s' : Game) :
  List.length (towers s) = 3%nat ->
  handleInput M clientX clientY canvas rect s = Some s' ->
  (totalAmmo (towers s') + Z.of_nat (List.length (interceptors s')) =
   totalAmmo (towers s) + Z.of_nat (List.length (interceptors s)))%Z.
Proof.
  intros Hlen H.
  destruct (handleInput_cases _ _ _ _ _ _ Hlen H) as [ -> | (k & t & p & _ & Hk & _ & ->) ];
    [ reflexivity | ].
  fields. apply arrayGet_Some in Hk. destruct Hk as [_ Hk].
  rewrite (totalAmmo_useAmmo _ _ _ Hk), length_app. simpl List.length. lia.
Qed.

(** X11.  Every launch is paid for: over any sequence of taps the rounds left
    in the towers plus the interceptors in flight stay the same number, so a
    tap either changes nothing or moves exactly one round from a tower into
    one new interceptor. *)
Theorem taps_trade_one_round_for_one_interceptor (evs : list Event) (s s' : Game) :
  forallb isTap evs = true -> wellFormed s -> run M evs s = Some s' ->
  (totalAmmo (towers s') + Z.of_nat (List.length (interceptors s')) =
   totalAmmo (towers s) + Z.of_nat (List.length (interceptors s)))%Z.
Proof.
  revert s. induction evs as [ | ev evs IH ]; intros s Htap Hwf; simpl.
  - intros [= <-]. reflexivity.
  - simpl in Htap. apply andb_prop in Htap. destruct Htap as [Hev Hevs].
    destruct (step M ev s) as [ s1 | ] eqn:Hs; [ | discriminate ].
    intros Hr. rewrite (IH s1 Hevs (step_wellFormed _ _ _ Hs Hwf) Hr).
    destruct ev; try discriminate. cbn [step] in Hs.
    apply (handleInput_ammo _ _ _ _ _ _ (wf_towers _ Hwf) Hs).
Qed.

(** *** Pausing *)

Lemma set_lastTime_same (s : Game) : set_lastTime (lastTime s) s = s.
Proof. destruct s; reflexivity. Qed.

Lemma run_not_playing (evs : list Event) (s : Game) :
  gameState s <> PLAYING -> forallb isFrameOrTap evs = true ->
  run M evs s = Some (set_lastTime (lastFrameTime evs (lastTime s)) s).
Proof.
  intros Hg. revert s Hg.
  induction evs as [ | ev evs IH ]; intros s Hg Hevs; simpl.
  - now rewrite set_lastTime_same.
  - simpl in Hevs. apply andb_prop in Hevs. destruct Hevs as [Hev Hevs].
    destruct ev; try discriminate; cbn [step].
    + unfold handleInput. apply GameState_eqb_neq in Hg. rewrite Hg. cbn [negb].
      apply IH; [ now apply GameState_eqb_neq | exact Hevs ].
    + rewrite (update_not_playing time canvas s Hg).
      rewrite (IH (set_lastTime time s) Hg Hevs). reflexivity.
Qed.

(** X12.  Pausing freezes the game: whatever frames and taps arrive between a
    press of the pause button during play and the next press, the game
    resumes in PLAYING exactly as it was paused, only the timestamp of the
    last frame has moved to the last frame seen. *)
Theorem pause_and_resume_keep_the_game (evs : list Event) (s : Game) :
  gameState s = PLAYING -> forallb isFrameOrTap evs = true ->
  run M (PauseClick :: evs ++ [ PauseClick ]) s =
  Some (set_lastTime (lastFrameTime evs (lastTime s)) s).
Proof.
  intros Hg Hevs. cbn [run step]. unfold pauseButton at 1.
  rewrite Hg. cbn [GameState_eqb]. rewrite run_app.
  rewrite (run_not_playing evs (set_gameState PAUSED s)) by (auto; discriminate).
  cbn [run step]. unfold pauseButton. cbn.
  destruct s; cbn in *. subst. reflexivity.
Qed.

(** *** What a frame does to the explosions *)

Lemma blastsAdded_refl (s : Game) : blastsAdded s s.
Proof. exists []. now rewrite app_nil_r. Qed.

Lemma blastsAdded_trans (s1 s2 s3 : Game) :
  blastsAdded s1 s2 -> blastsAdded s2 s3 -> blastsAdded s1 s3.
Proof.
  intros (l1 & H1 & F1) (l2 & H2 & F2). exists (l1 ++ l2).
  rewrite H2, H1, app_assoc. split; [ reflexivity | ].
  apply Forall_app. auto.
Qed.

Lemma blastsAdded_eq (s s' : Game) : explosions s' = explosions s -> blastsAdded s s'.
Proof. intros H. exists []. now rewrite app_nil_r. Qed.

Lemma blastsAdded_spawnExplosion (x y : Q) (c : string) (s : Game) :
  blastsAdded s (spawnExplosion M x y c s).
Proof.
  eexists. split; [ apply explosions_spawnExplosion | ].
  constructor; [ | constructor ]. repeat split.
Qed.

Lemma forEach_invariant {A : Type} (body : A -> Game -> A * Game)
    (R : Game -> Game -> Prop) :
  (forall s, R s s) ->
  (forall s1 s2 s3, R s1 s2 -> R s2 s3 -> R s1 s3) ->
  (forall a s, R s (snd (body a s))) ->
  forall arr s, R s (snd (forEach body arr s)).
Proof.
  intros Hrefl Htrans Hbody arr.
  induction arr as [ | a arr IH ]; intros s; simpl.
  - apply Hrefl.
  - specialize (Hbody a s). destruct (body a s) as [ a1 s1 ].
    specialize (IH s1). destruct (forEach body arr s1) as [ arr1 s2 ].
    simpl in *. eapply Htrans; eauto.
Qed.

Lemma updateInterceptors_blasts (s : Game) : blastsAdded s (updateInterceptors M s).
Proof.
  unfold updateInterceptors.
  pose proof (forEach_invariant (stepInterceptor M) blastsAdded
                blastsAdded_refl blastsAdded_trans) as H.
  assert (Hb : forall a g, blastsAdded g (snd (stepInterceptor M a g))).
  { intros a g. unfold stepInterceptor.
    destruct (distance_lt (interceptorPoint (moveInterceptor a))
                (i_target (moveInterceptor a)) (i_speed (moveInterceptor a)));
      cbn [snd]; [ apply blastsAdded_spawnExplosion | apply blastsAdded_refl ]. }
  specialize (H Hb (interceptors s) s).
  destruct (forEach (stepInterceptor M) (interceptors s) s) as [ ps s1 ].
  cbn [snd] in H. destruct H as (l & Hl & Fl). exists l. split; [ exact Hl | exact Fl ].
Qed.

Lemma stepEnemy_blasts (groundY time : Q) (e e' : Enemy) (s s' : Game) :
  stepEnemy M groundY time e s = Some (e', s') -> blastsAdded s s'.
Proof.
  unfold stepEnemy.
  assert (Hb : forall e1 s1, blastCheck M (moveEnemy e) s = (e1, s1) -> blastsAdded s s1).
  { intros e1 s1. unfold blastCheck.
    destruct (caughtBy (moveEnemy e) (explosions s)); intros [= _ <-];
      [ | apply blastsAdded_refl ].
    eexists. split.
    - rewrite explosions_spawnExplosion.
      rewrite (spawnParticles_frame explosions) by reflexivity.
      rewrite (addScore_frame explosions) by reflexivity.
      reflexivity.
    - constructor; [ | constructor ]. repeat split. }
  destruct (blastCheck M (moveEnemy e) s) as [ e1 s1 ].
  specialize (Hb e1 s1 eq_refl).
  destruct (negb (e_dead e1) && Qle_bool (groundY - 5) (e_y e1));
    [ | intros [= _ <-]; exact Hb ].
  match goal with
  | |- match ?r with Some _ => _ | None => _ end = _ -> _ =>
      destruct r as [ s2 | ] eqn:Hr; [ | discriminate ]
  end.
  intros [= _ <-].
  apply (resolveImpact_frame explosions) in Hr; try reflexivity.
  apply (blastsAdded_trans _ s1); [ exact Hb | ].
  apply (blastsAdded_trans _ (spawnExplosion M (e_x (killEnemy e1)) (e_y (killEnemy e1))
                                COLORS.warning s1));
    [ apply blastsAdded_spawnExplosion | ].
  apply blastsAdded_eq. rewrite Hr.
  rewrite (triggerShake_frame explosions) by reflexivity.
  rewrite (spawnParticles_frame explosions) by reflexivity.
  reflexivity.
Qed.







(** *** The particles of a burst *)

Lemma spawnParticles_S (x y : Q) (c : string) (n : nat) (s : Game) :
  spawnParticles M x y (S n) c s =
  spawnParticles M x y n c
    (set_particles
       (particles s ++
        [ {| pt_id := Math_random M (S (S (draws s))); pt_x := x; pt_y := y;
             pt_vx := Math_cos M (Math_random M (draws s) * Math_PI M * 2) *
                      fst (randomRange M 1 4 (set_draws (S (draws s)) s));
             pt_vy := Math_sin M (Math_random M (draws s) * Math_PI M * 2) *
                      fst (randomRange M 1 4 (set_draws (S (draws s)) s));
             pt_color := c; pt_dead := false; pt_life := 1; pt_maxLife := 1;
             pt_size := fst (randomRange M 1 3 (set_draws (S (S (S (draws s)))) s)) |} ])
       (set_draws (S (S (S (S (draws s))))) s)).
Proof. reflexivity. Qed.

Lemma round_between (lo hi : Z) (q : Q) :
  roundsToNearest M -> (Z.abs lo <= 2 ^ 53)%Z -> (Z.abs hi <= 2 ^ 53)%Z ->
  inject_Z lo <= q <= inject_Z hi ->
  inject_Z lo <= Number_round M q <= inject_Z hi.
Proof.
  intros [Hmono Hexact] Hlo Hhi [H1 H2]. split.
  - rewrite <- (Hexact lo Hlo). apply Hmono. exact H1.
  - rewrite <- (Hexact hi Hhi). apply Hmono. exact H2.
Qed.

(** The range of [randomRange(min, max)] for whole bounds: both ends
    included, since the sum of the last step can round up to [max]. *)
Lemma randomRange_range (lo hi : Z) (s : Game) :
  unitRandom M -> roundsToNearest M -> (lo <= hi)%Z ->
  (Z.abs lo <= 2 ^ 53)%Z -> (Z.abs hi <= 2 ^ 53)%Z -> (hi - lo <= 2 ^ 53)%Z ->
  inject_Z lo <= fst (randomRange M (inject_Z lo) (inject_Z hi) s) <= inject_Z hi.
Proof.
  intros Hu Hr Hle Hlo Hhi Hd. unfold randomRange, random. cbn [fst].
  destruct (Hu (draws s)) as [H0 H1].
  set (r := Math_random M (draws s)) in *.
  assert (Hw : inject_Z (hi - lo) <= Number_round M (inject_Z hi - inject_Z lo)
               <= inject_Z (hi - lo)).
  { apply round_between; try assumption; try lia.
    unfold Z.sub. rewrite inject_Z_plus, inject_Z_opp. split; lra. }
  assert (Hpos : 0 <= inject_Z (hi - lo)) by (rewrite <- (Zle_Qle 0); lia).
  set (w := Number_round M (inject_Z hi - inject_Z lo)) in *.
  assert (Hp : inject_Z 0 <= Number_round M (r * w) <= inject_Z (hi - lo)).
  { apply round_between; try assumption; try lia.
    change (inject_Z 0) with 0. split; nra. }
  change (inject_Z 0) with 0 in Hp.
  apply round_between; try assumption.
  unfold Z.sub in Hp. rewrite inject_Z_plus, inject_Z_opp in Hp. lra.
Qed.

(** X14.  A burst of particles: [spawnParticles(x, y, count, color)] appends
    exactly [count] particles to the list, all at the point and in the colour
    given, alive, with life 1 and a size from 1 to 3, both included (in
    doubles the sum [r * 2 + 1] rounds up to 3 for the largest [r] below 1),
    and draws four random numbers for each. *)
Theorem burst_adds_count_particles_at_the_point
    (x y : Q) (c : string) (n : nat) (s : Game) :
  unitRandom M -> roundsToNearest M ->
  exists ps,
    particles (spawnParticles M x y n c s) = particles s ++ ps /\
    List.length ps = n /\ Forall (freshParticle x y c) ps /\
    draws (spawnParticles M x y n c s) = (draws s + 4 * n)%nat.
Proof.
  intros Hu Hr. revert s. induction n as [ | n IH ]; intros s.
  - exists []. change (spawnParticles M x y 0 c s) with s.
    rewrite app_nil_r, Nat.add_0_r. repeat split. constructor.
  - rewrite spawnParticles_S.
    match goal with
    | |- exists ps, particles (spawnParticles M x y n c ?g) = _ /\ _ =>
        destruct (IH g) as (ps & Hp & Hlen & Hf & Hd)
    end.
    fields. eexists. split; [ rewrite Hp, <- app_assoc; reflexivity | ].
    split; [ simpl; now rewrite Hlen | ].
    split.
    + constructor; [ | exact Hf ].
      pose proof (randomRange_range 1 3 (set_draws (S (S (S (draws s)))) s) Hu Hr
                    ltac:(lia) ltac:(lia) ltac:(lia) ltac:(lia)) as Hsize.
      unfold freshParticle. cbn [pt_x pt_y pt_color pt_dead pt_life pt_maxLife pt_size].
      repeat split; apply Hsize.
    + rewrite Hd. lia.
Qed.

(** *** Enemies and the ground *)

Lemma stepEnemy_grounded (groundY time : Q) (e e' : Enemy) (s s' : Game) :
  stepEnemy M groundY time e s = Some (e', s') ->
  e_dead e' = true \/ e_y e' < groundY - 5.
Proof.
  unfold stepEnemy, blastCheck.
  destruct (caughtBy (moveEnemy e) (explosions s)).
  - cbn [e_dead killEnemy negb andb]. intros [= <- _]. left. reflexivity.
  - destruct (e_dead (moveEnemy e)) eqn:Hd; cbn [negb andb].
    + intros [= <- _]. left. exact Hd.
    + destruct (Qle_bool (groundY - 5) (e_y (moveEnemy e))) eqn:Hy.
      * match goal with
        | |- match ?r with Some _ => _ | None => _ end = _ -> _ =>
            destruct r as [ s2 | ]; [ | discriminate ]
        end.
        intros [= <- _]. left. reflexivity.
      * intros [= <- _]. right. apply Qnot_le_lt. intros Hle.
        apply Qle_bool_iff in Hle. congruence.
Qed.

Lemma Forall2_right {A : Type} (P : A -> Prop) (l l' : list A) :
  Forall2 (fun _ a' => P a') l l' -> Forall P l'.
Proof. induction 1; constructor; auto. Qed.

(** X15.  No enemy survives reaching the ground: after a frame of play every
    enemy left in the list is above the impact line, 45 below the bottom of
    the canvas. *)
Theorem no_enemy_is_left_at_the_ground
    (time : Q) (cv : Canvas) (s s' : Game) :
  gameState s = PLAYING -> update M time (Some cv) s = Some s' ->
  Forall (fun e => e_y e < height cv - 40 - 5) (enemies s').
Proof.
  intros Hg. unfold update. cbn [gameState set_lastTime]. rewrite Hg.
  cbn [GameState_eqb negb]. unfold gameLogic.
  destruct (spawnEnemy M time cv (set_lastTime time s)) as [ s1 | ]; [ | discriminate ].
  cbv zeta.
  remember (updateInterceptors M (checkWaveClear M time cv s1)) as s2 eqn:E2.
  clear E2. unfold updateEnemies. fields.
  match goal with
  | |- match match ?r with Some _ => _ | None => _ end with _ => _ end = _ -> _ =>
      destruct r as [ [es s3] | ] eqn:Hf; [ | discriminate ]
  end.
  intros [= <-]. unfold cleanup. fields.
  apply (forEachE_Forall2 _ (fun _ e' => e_dead e' = true \/ e_y e' < height cv - 40 - 5))
    in Hf; [ | intros a g a' g'; apply stepEnemy_grounded ].
  apply Forall2_right in Hf.
  induction Hf as [ | e es [ Hd | Hy ] _ IH ]; simpl; [ constructor | | ].
  - rewrite Hd. exact IH.
  - destruct (e_dead e); simpl; [ exact IH | constructor; assumption ].
Qed.

(** ** The page and its rendered behaviour *)

(** [step] is the page rendered since the last write: on a button that the
    page carries it runs the handler as written, the pause button testing
    the current state. *)
Lemma step_is_the_rendered_page (ev : Event) (s : Game) :
  offered ev (gameState s) = true -> step M ev s = handle M ev (gameState s) s.
Proof.
  intros Ho. destruct ev; cbn [step handle]; try reflexivity;
    destruct (gameState s); try discriminate Ho; reflexivity.
Qed.

(** The pause button acts on the state the page shows, whatever the ref
    holds. *)
Lemma pause_click_acts_on_the_shown_state (p : Page) :
  shown p = PLAYING ->
  pageStep M (Handle PauseClick) p =
  Some {| refs := set_gameState PAUSED (refs p); shown := PAUSED |}.
Proof. intros H. unfold pageStep. cbn. rewrite H. reflexivity. Qed.

End Properties.

(** ** The engine on concrete runs *)

(** C1.  The end-of-wave bonus is not settled once per wave: the settlement
    clears [isWaveClearing] but the game stays PLAYING for the two seconds of
    the grace delay, the score is still above the target, so the next frame
    arms the flag again and settles again.  In the scenario of the claim
    (wave 3, score 600, towers alive with 10 and 0 ammo, bonus 50) two
    consecutive frames 16 ms apart bring the score to 650 and then to 700,
    and schedule two callbacks.  In a first wave played from the mounted
    component the bonus of 395 is added on each of three consecutive frames
    (200, 595, 990, 1385). *)
Theorem wave_bonus_is_settled_on_consecutive_frames :
  ammoBonus (towers waveThreeCleared) = 50%Z /\
  option_map (fun s => (gameState s, score s, waveBonus s, List.length (timers s)))
    (run quietMath (frames canvas800 1 1500 16) waveThreeCleared)
  = Some (PLAYING, 650%Z, 50%Z, 1%nat) /\
  option_map (fun s => (gameState s, score s, waveBonus s, List.length (timers s)))
    (run quietMath (frames canvas800 2 1500 16) waveThreeCleared)
  = Some (PLAYING, 700%Z, 50%Z, 2%nat) /\
  option_map (fun s => (gameState s, score s, isWaveClearing s,
                        List.length (enemies s), List.length (explosions s),
                        map t_ammo (towers s)))
    (run columnMath firstWave mounted)
  = Some (PLAYING, 200%Z, true, 0%nat, 0%nat, [20; 39; 20]%Z) /\
  map (fun n => option_map score
                  (run columnMath (firstWave ++ frames canvas800 n 21136 16) mounted))
      [1; 2; 3]%nat
  = [Some 595%Z; Some 990%Z; Some 1385%Z].
Proof. vm_compute. repeat split. Qed.

(** C2.  A restart does not cancel the deferred transition.  In the first
    wave played from the mounted component the settlement at time 21136
    schedules the WAVE_COMPLETE callback for 23136; the player pauses, quits
    to the menu and starts a new game at 22000, which is PLAYING with score 0
    and wave 1 and still has the callback pending; when the callback runs,
    the fresh game is put in WAVE_COMPLETE. *)
Theorem stale_callback_changes_the_reset_game :
  option_map (fun s => (gameState s, score s, wave s, timers s))
    (run columnMath
       (firstWave ++ [ Frame 21136 (Some canvas800); PauseClick; QuitClick;
                       StartClick 22000 ]) mounted)
  = Some (PLAYING, 0%Z, 1%Z,
          [ {| tm_due := 23136; tm_action := SetGameState WAVE_COMPLETE |} ]) /\
  option_map (fun s => (gameState s, score s, wave s, timers s))
    (run columnMath
       (firstWave ++ [ Frame 21136 (Some canvas800); PauseClick; QuitClick;
                       StartClick 22000; Timeout 0 ]) mounted)
  = Some (WAVE_COMPLETE, 0%Z, 1%Z, []).
Proof. vm_compute. repeat split. Qed.

Lemma frame_outside_playing_changes_nothing_witness :
  gameState mounted <> PLAYING /\
  exists s', update quietMath 16 (Some canvas800) mounted = Some s' /\
             enemies s' = enemies mounted /\ score s' = score mounted.
Proof.
  assert (H : gameState mounted <> PLAYING) by discriminate.
  split; [ exact H | ].
  destruct (frame_outside_playing_changes_nothing quietMath 16 (Some canvas800)
              mounted H) as (s' & Hu & _ & _ & Hs & _ & _ & _ & _ & He & _).
  exists s'. split; [ exact Hu | ]. split; [ exact He | exact Hs ].
Defined.




Lemma game_over_iff_all_cities_dead_witness :
  run siegeMath siege mounted = Some lastStand /\
  step siegeMath lastFrame lastStand = Some fallen /\
  someCityAlive lastStand = true /\ allCitiesDead fallen = true /\
  gameState lastStand = PLAYING /\ gameState fallen = GAME_OVER.
Proof.
  assert (H : exists s s2,
             run siegeMath siege mounted = Some s /\
             step siegeMath lastFrame s = Some s2 /\
             someCityAlive s = true /\ allCitiesDead s2 = true /\
             gameState s = PLAYING).
  { eexists. eexists. split; [ vm_compute; reflexivity | ].
    split; [ vm_compute; reflexivity | ]. split; [ vm_compute; reflexivity | ].
    split; vm_compute; reflexivity. }
  destruct H as (s & s2 & H1 & H2 & Ha & Hd & Hp).
  assert (E1 : lastStand = s)
    by (unfold lastStand, stateAfter; rewrite H1; reflexivity).
  assert (E2 : fallen = s2).
  { unfold fallen, stateAfter. rewrite E1. cbn [run]. rewrite H2. reflexivity. }
  rewrite E1, E2.
  destruct (game_over_iff_all_cities_dead siegeMath siege lastFrame s s2 H1 H2)
    as (_ & _ & H & _).
  destruct (H Ha Hd) as [Hg _].
  split; [ exact H1 | ]. split; [ exact H2 | ]. split; [ exact Ha | ].
  split; [ exact Hd | ]. split; [ exact Hp | exact Hg ].
Defined.

(** C4 as the claim states it fails: from the game with one interceptor in
    flight (frame clock at 0) a frame at time 10 and a frame at time 40 have
    clamped deltas 10 and 40, and both move the interceptor from height 540
    to height 525; no factor makes the step of -15 proportional to both
    deltas. *)
Lemma displacement_is_not_proportional_to_the_delta :
  safeDt 10 airborne == 10 /\ safeDt 40 airborne == 40 /\
  sameNumbers (map i_y (interceptors airborne)) [540] = true /\
  option_map (fun s => sameNumbers (map i_y (interceptors s)) [525])
    (update quietMath 10 (Some canvas800) airborne) = Some true /\
  option_map (fun s => sameNumbers (map i_y (interceptors s)) [525])
    (update quietMath 40 (Some canvas800) airborne) = Some true /\
  ~ (exists k : Q, 525 - 540 == k * safeDt 10 airborne /\
                   525 - 540 == k * safeDt 40 airborne).
Proof.
  assert (H10 : safeDt 10 airborne == 10) by (vm_compute; reflexivity).
  assert (H40 : safeDt 40 airborne == 40) by (vm_compute; reflexivity).
  split; [ exact H10 | ]. split; [ exact H40 | ].
  split; [ vm_compute; reflexivity | ].
  split; [ vm_compute; reflexivity | ].
  split; [ vm_compute; reflexivity | ].
  intros (k & Ha & Hb). rewrite H10 in Ha. rewrite H40 in Hb. lra.
Qed.

Lemma frame_moves_entities_by_their_velocity_witness :
  gameState airborne = PLAYING /\
  (exists s' s2,
      update quietMath 10 (Some canvas800) airborne = Some s' /\
      update quietMath 40 (Some canvas800) airborne = Some s2 /\
      interceptors s2 = interceptors s').
Proof.
  split; [ vm_compute; reflexivity | ].
  destruct (update quietMath 10 (Some canvas800) airborne) as [ s' | ] eqn:H1;
    [ | vm_compute in H1; discriminate ].
  destruct (update quietMath 40 (Some canvas800) airborne) as [ s2 | ] eqn:H2;
    [ | vm_compute in H2; discriminate ].
  exists s', s2. split; [ reflexivity | ]. split; [ reflexivity | ].
  apply (frame_moves_entities_by_their_velocity quietMath 10 40 canvas800 airborne
           s' s2); [ vm_compute; reflexivity | assumption | assumption ].
Defined.

(** C6 as the claim states it fails: in a run from the mounted component
    the player starts a game, fires once (ammo 20, 39, 20), pauses and quits
    to the menu; the start button then refills the middle tower to 40 at
    wave 1, without a new-wave reset (the wave stays 1). *)
Lemma game_start_refills_ammo_without_a_new_wave :
  option_map (fun s => (gameState s, wave s, map t_ammo (towers s)))
    (run quietMath [ StartClick 0; tapMiddle; PauseClick; QuitClick ] mounted)
  = Some (MENU, 1%Z, [20; 39; 20]%Z) /\
  option_map (fun s => (gameState s, wave s, map t_ammo (towers s)))
    (run quietMath [ StartClick 0; tapMiddle; PauseClick; QuitClick;
                     StartClick 1000 ] mounted)
  = Some (PLAYING, 1%Z, [20; 40; 20]%Z) /\
  resetOf (StartClick 1000) MENU = Some GameStart.
Proof. vm_compute. repeat split. Qed.

Lemma ammo_grows_only_by_a_reset_witness :
  wellFormed deployed /\
  forallb keepsWave (tapMiddle :: frames canvas800 3 16 16) = true /\
  exists s1 s',
    run quietMath (tapMiddle :: frames canvas800 3 16 16) deployed = Some s1 /\
    step quietMath tapMiddle s1 = Some s' /\
    Forall2 (fun t t1 => (0 <= t_ammo t1 <= t_ammo t)%Z) (towers deployed) (towers s1).
Proof.
  assert (Hwf : wellFormed deployed) by (apply initGame_wellFormed; reflexivity).
  split; [ exact Hwf | ]. split; [ reflexivity | ].
  destruct (run quietMath (tapMiddle :: frames canvas800 3 16 16) deployed)
    as [ s1 | ] eqn:H1; [ | vm_compute in H1; discriminate ].
  destruct (step quietMath tapMiddle s1) as [ s' | ] eqn:H2.
  - exists s1, s'. split; [ reflexivity | ]. split; [ exact H2 | ].
    apply (ammo_grows_only_by_a_reset quietMath
             (tapMiddle :: frames canvas800 3 16 16) tapMiddle deployed s1 s' Hwf
             eq_refl H1 H2).
  - exfalso. revert H2. vm_compute in H1. injection H1 as <-.
    vm_compute. discriminate.
Defined.

(** The listed transitions also leave out the quit button: with an
    interceptor in flight the player pauses and presses quit; the state goes
    from PAUSED to MENU, which is none of the listed transitions, and the
    game is not reset: the interceptor and the spent ammo are still there. *)
Lemma quit_goes_from_paused_to_menu_without_reset :
  option_map (fun s => (gameState s, List.length (interceptors s), map t_ammo (towers s)))
    (run quietMath [ StartClick 0; tapMiddle; PauseClick ] mounted)
  = Some (PAUSED, 1%nat, [20; 39; 20]%Z) /\
  option_map (fun s => (gameState s, List.length (interceptors s), map t_ammo (towers s)))
    (run quietMath [ StartClick 0; tapMiddle; PauseClick; QuitClick ] mounted)
  = Some (MENU, 1%nat, [20; 39; 20]%Z) /\
  listedTransition PAUSED MENU = false.
Proof. vm_compute. repeat split. Qed.

(** C7.  A pause click acts from GAME_OVER.  In the run that loses the six
    cities the last frame writes GAME_OVER to the React state and to the
    ref; until React renders, the page still shows PLAYING and the pause
    button still tests the PLAYING of its closure.  A click on it then
    writes PAUSED and a second click writes PLAYING: the lost game goes from
    GameOver to Paused, which is no listed transition, by an action that
    does not apply in GameOver, and on to Playing, where the frames run the
    game logic again over six dead cities (the frame at 14000 spawns an
    enemy).  Had React rendered before the click, the same click would have
    changed nothing. *)
Theorem pause_click_leaves_game_over_before_the_render :
  exists p,
    pageRun siegeMath (map Handle (siege ++ [ lastFrame ])) mountedPage = Some p /\
    gameState (refs p) = GAME_OVER /\ shown p = PLAYING /\
    allCitiesDead (refs p) = true /\
    option_map (fun q => (gameState (refs q), shown q))
      (pageRun siegeMath [ Handle PauseClick ] p) = Some (PAUSED, PAUSED) /\
    listedTransition GAME_OVER PAUSED = false /\
    option_map (fun q => (gameState (refs q), shown q, allCitiesDead (refs q)))
      (pageRun siegeMath [ Handle PauseClick; Handle PauseClick ] p)
    = Some (PLAYING, PLAYING, true) /\
    option_map (fun q => (gameState (refs q), List.length (enemies (refs q))))
      (pageRun siegeMath
         [ Handle PauseClick; Handle PauseClick;
           Handle (Frame 14000 (Some canvas100)) ] p)
    = Some (PLAYING, 1%nat) /\
    option_map (fun q => (gameState (refs q), List.length (enemies (refs q))))
      (pageRun siegeMath [ Handle (Frame 14000 (Some canvas100)) ] p)
    = Some (GAME_OVER, 0%nat) /\
    option_map (fun q => (gameState (refs q), shown q))
      (pageRun siegeMath [ Render; Handle PauseClick ] p)
    = Some (GAME_OVER, GAME_OVER).
Proof.
  eexists. split; [ vm_compute; reflexivity | ].
  split; [ reflexivity | ]. split; [ reflexivity | ].
  split; [ vm_compute; reflexivity | ].
  split; [ vm_compute; reflexivity | ].
  split; [ reflexivity | ].
  split; [ vm_compute; reflexivity | ].
  split; [ vm_compute; reflexivity | ].
  split; [ vm_compute; reflexivity | ].
  vm_compute; reflexivity.
Qed.


(** C8.  In the step of an enemy the blasts are tested before the ground:
    when some blast covers the moved enemy (its radius exceeds the distance
    to its centre) the loop stops at the first such blast in the order of
    the collection, the enemy is marked dead, the score grows by 20 exactly
    once, one secondary blast of radius 0 is appended at the enemy's
    position, and no ground impact is resolved whatever the height of the
    enemy: cities, towers and the game state are as before.  In the chain
    scenario one tap fires one interceptor (ammo 40 to 39); it arrives in
    frame 16; the first enemy is destroyed in frame 26 (score 20) and the
    second, out of reach of the interceptor's blast, is destroyed in frame
    40 by the secondary blast (score 40), with no further tap. *)
Theorem blast_is_tested_first_and_chains :
  (forall (M : MathObject) (groundY time : Q) (e : Enemy) (s : Game)
          (b : Explosion),
      caughtBy (moveEnemy e) (explosions s) = Some b ->
      (exists before after,
          explosions s = before ++ b :: after /\
          covers (moveEnemy e) b = true /\
          Forall (fun b' => covers (moveEnemy e) b' = false) before) /\
      exists s',
        stepEnemy M groundY time e s = Some (killEnemy (moveEnemy e), s') /\
        e_dead (killEnemy (moveEnemy e)) = true /\
        score s' = (score s + 20)%Z /\
        (exists id,
            explosions s' =
            explosions s ++
            [ {| x_id := id; x_x := e_x e + e_vx e; x_y := e_y e + e_vy e;
                 x_radius := 0; x_maxRadius := 60; x_growthRate := 4;
                 x_life := 1; x_color := COLORS.secondary |} ]) /\
        cities s' = cities s /\ towers s' = towers s /\
        gameState s' = gameState s) /\
  map (fun n => option_map tally (run quietMath (chain n) chainStart))
      [15; 16; 25; 26; 39; 40]%nat
  = [ Some (0%Z, 2%nat, 1%nat, 0%nat, [20; 39; 20]%Z);
      Some (0%Z, 2%nat, 0%nat, 1%nat, [20; 39; 20]%Z);
      Some (0%Z, 2%nat, 0%nat, 1%nat, [20; 39; 20]%Z);
      Some (20%Z, 1%nat, 0%nat, 2%nat, [20; 39; 20]%Z);
      Some (20%Z, 1%nat, 0%nat, 2%nat, [20; 39; 20]%Z);
      Some (40%Z, 0%nat, 0%nat, 3%nat, [20; 39; 20]%Z) ].
Proof.
  split.
  - intros M groundY time e s b Hc. split.
    + apply caughtBy_first. assumption.
    + destruct (stepEnemy_caught M groundY time e s b Hc)
        as (s' & Hs & Hsc & Hx & Hci & Ht & Hg & _).
      exists s'. split; [ exact Hs | ]. split; [ reflexivity | ].
      split; [ exact Hsc | ]. split; [ exact Hx | ]. auto.
  - vm_compute. reflexivity.
Qed.

Lemma blast_is_tested_first_and_chains_witness :
  caughtBy (moveEnemy (fallingAt 440 289 3)) (explosions underBlast) = Some blastAt400 /\
  exists s',
    stepEnemy quietMath 560 16 (fallingAt 440 289 3) underBlast
    = Some (killEnemy (moveEnemy (fallingAt 440 289 3)), s') /\
    score s' = (score underBlast + 20)%Z.
Proof.
  assert (Hc : caughtBy (moveEnemy (fallingAt 440 289 3)) (explosions underBlast)
               = Some blastAt400) by (vm_compute; reflexivity).
  split; [ exact Hc | ].
  destruct blast_is_tested_first_and_chains as [H _].
  destruct (H quietMath 560 16 (fallingAt 440 289 3) underBlast blastAt400 Hc)
    as (_ & s' & Hs & _ & Hsc & _).
  exists s'. split; [ exact Hs | exact Hsc ].
Defined.

(** ** The further properties on concrete games *)

Lemma quietMath_unitRandom : unitRandom quietMath.
Proof. intros k. split; [ discriminate | reflexivity ]. Qed.

Lemma deployed_wellFormed : wellFormed deployed.
Proof. apply initGame_wellFormed. reflexivity. Qed.

Lemma runs_never_throw_witness :
  unitRandom quietMath /\
  exists s,
    run quietMath [ StartClick 0; tapMiddle; Frame 16 (Some canvas800); PauseClick ]
        mounted = Some s /\ wellFormed s.
Proof.
  split; [ exact quietMath_unitRandom | ].
  apply (runs_never_throw quietMath
           [ StartClick 0; tapMiddle; Frame 16 (Some canvas800); PauseClick ]
           quietMath_unitRandom).
Defined.

Lemma spawned_enemy_aims_at_an_alive_structure_witness :
  exists s' e,
    List.length (cities deployed) = 6%nat /\
    spawnEnemy quietMath 2000 canvas800 deployed = Some s' /\
    enemies s' = enemies deployed ++ [ e ] /\
    aimsAtAlive e deployed /\ e_dead e = false /\ e_y e = -20.
Proof.
  assert (H : exists s' e, spawnEnemy quietMath 2000 canvas800 deployed = Some s' /\
                           enemies s' = enemies deployed ++ [ e ]).
  { vm_compute. eexists. eexists. split; reflexivity. }
  destruct H as (s' & e & Hs & He). exists s', e.
  assert (H6 : List.length (cities deployed) = 6%nat) by reflexivity.
  split; [ exact H6 | ]. split; [ exact Hs | ]. split; [ exact He | ].
  destruct (spawned_enemy_aims_at_an_alive_structure quietMath 2000 canvas800
              deployed s' e H6 Hs He) as (Ha & Hd & Hy & _).
  split; [ exact Ha | ]. split; [ exact Hd | exact Hy ].
Defined.

Lemma enemies_spawn_no_faster_than_the_interval_witness :
  16 - spawnTimer deployed <= 500 /\
  spawnEnemy quietMath 16 canvas800 deployed = Some deployed.
Proof.
  assert (H : 16 - spawnTimer deployed <= 500) by (vm_compute; discriminate).
  split; [ exact H | ].
  apply (enemies_spawn_no_faster_than_the_interval quietMath 16 canvas800 deployed).
  right. left. exact H.
Defined.

Lemma nothing_spawns_without_an_alive_structure_witness :
  existsb c_alive (cities razed) = false /\ existsb t_alive (towers razed) = false /\
  (spawnEnemy quietMath 2000 canvas800 razed = Some razed \/
   spawnEnemy quietMath 2000 canvas800 razed = Some (set_spawnTimer 2000 razed)).
Proof.
  split; [ reflexivity | ]. split; [ reflexivity | ].
  apply (nothing_spawns_without_an_alive_structure quietMath 2000 canvas800 razed);
    reflexivity.
Defined.

Lemma no_dead_entity_survives_a_frame_witness :
  exists s',
    gameState crossfire = PLAYING /\
    update quietMath 16 (Some canvas800) crossfire = Some s' /\
    List.length (enemies crossfire) = 3%nat /\
    List.length (enemies s') = 1%nat /\
    List.length (interceptors crossfire) = 1%nat /\
    List.length (interceptors s') = 0%nat /\
    List.length (explosions s') = 3%nat /\
    List.length (particles s') = 25%nat /\
    List.length (floatingTexts s') = 1%nat /\
    Forall (fun e => e_dead e = false) (enemies s') /\
    Forall (fun p => i_dead p = false) (interceptors s') /\
    Forall (fun p => pt_dead p = false) (particles s') /\
    Forall (fun e => 0 < x_life e) (explosions s') /\
    Forall (fun t => 0 < ft_life t) (floatingTexts s').
Proof.
  assert (H : exists s',
             update quietMath 16 (Some canvas800) crossfire = Some s' /\
             List.length (enemies s') = 1%nat /\
             List.length (interceptors s') = 0%nat /\
             List.length (explosions s') = 3%nat /\
             List.length (particles s') = 25%nat /\
             List.length (floatingTexts s') = 1%nat).
  { vm_compute. eexists. split; [ reflexivity | ]. repeat split. }
  destruct H as (s' & Hs & H1 & H2 & H3 & H4 & H5). exists s'.
  assert (Hg : gameState crossfire = PLAYING) by reflexivity.
  split; [ exact Hg | ]. split; [ exact Hs | ]. split; [ reflexivity | ].
  split; [ exact H1 | ]. split; [ reflexivity | ]. split; [ exact H2 | ].
  split; [ exact H3 | ]. split; [ exact H4 | ]. split; [ exact H5 | ].
  apply (no_dead_entity_survives_a_frame quietMath 16 canvas800 crossfire s' Hg Hs).
Defined.

Lemma trails_stay_bounded_witness :
  exists s',
    Forall (fun p => (List.length (i_trail p) <= 10)%nat) (interceptors trailing) /\
    Forall (fun e => (List.length (e_trail e) <= 15)%nat) (enemies trailing) /\
    update quietMath 16 (Some canvas800) trailing = Some s' /\
    map (fun p => List.length (i_trail p)) (interceptors trailing) = [ 10%nat ] /\
    map (fun e => List.length (e_trail e)) (enemies trailing) = [ 15%nat ] /\
    map (fun p => List.length (i_trail p)) (interceptors s') = [ 10%nat ] /\
    map (fun e => List.length (e_trail e)) (enemies s') = [ 15%nat ] /\
    Forall (fun p => (List.length (i_trail p) <= 10)%nat) (interceptors s') /\
    Forall (fun e => (List.length (e_trail e) <= 15)%nat) (enemies s').
Proof.
  assert (H : exists s',
             update quietMath 16 (Some canvas800) trailing = Some s' /\
             map (fun p => List.length (i_trail p)) (interceptors s') = [ 10%nat ] /\
             map (fun e => List.length (e_trail e)) (enemies s') = [ 15%nat ]).
  { vm_compute. eexists. split; [ reflexivity | ]. split; reflexivity. }
  destruct H as (s' & Hs & H1 & H2). exists s'.
  assert (Hi : Forall (fun p => (List.length (i_trail p) <= 10)%nat)
                 (interceptors trailing)).
  { constructor; [ apply Nat.le_refl | constructor ]. }
  assert (He : Forall (fun e => (List.length (e_trail e) <= 15)%nat) (enemies trailing)).
  { constructor; [ apply Nat.le_refl | constructor ]. }
  split; [ exact Hi | ]. split; [ exact He | ]. split; [ exact Hs | ].
  split; [ reflexivity | ]. split; [ reflexivity | ].
  split; [ exact H1 | ]. split; [ exact H2 | ].
  apply (trails_stay_bounded quietMath 16 (Some canvas800) trailing s' Hi He Hs).
Defined.

Lemma underFire_wellFormed : wellFormed underFire.
Proof.
  constructor; try reflexivity.
  - repeat constructor; discriminate.
  - repeat constructor; discriminate.
  - repeat constructor; discriminate.
Qed.

Lemma waveThreeCleared_wellFormed : wellFormed waveThreeCleared.
Proof.
  constructor; try reflexivity.
  - constructor.
  - repeat constructor; discriminate.
  - repeat constructor; discriminate.
Qed.

Lemma score_never_decreases_witness :
  exists s' s'',
    wellFormed underFire /\
    step quietMath (Frame 16 (Some canvas800)) underFire = Some s' /\
    resetOf (Frame 16 (Some canvas800)) (gameState underFire) <> Some GameStart /\
    score underFire = 0%Z /\ score s' = 20%Z /\ (score underFire <= score s')%Z /\
    wellFormed waveThreeCleared /\
    step quietMath (Frame 1500 (Some canvas800)) waveThreeCleared = Some s'' /\
    score waveThreeCleared = 600%Z /\ score s'' = 650%Z /\
    (score waveThreeCleared <= score s'')%Z.
Proof.
  assert (H : exists s', step quietMath (Frame 16 (Some canvas800)) underFire = Some s' /\
                         score s' = 20%Z).
  { vm_compute. eexists. split; reflexivity. }
  assert (H' : exists s'',
             step quietMath (Frame 1500 (Some canvas800)) waveThreeCleared = Some s'' /\
             score s'' = 650%Z).
  { vm_compute. eexists. split; reflexivity. }
  destruct H as (s' & Hs & H20). destruct H' as (s'' & Hs' & H650). exists s', s''.
  assert (Hr : resetOf (Frame 16 (Some canvas800)) (gameState underFire) <> Some GameStart)
    by discriminate.
  assert (Hr' : resetOf (Frame 1500 (Some canvas800)) (gameState waveThreeCleared)
                <> Some GameStart) by discriminate.
  split; [ exact underFire_wellFormed | ]. split; [ exact Hs | ]. split; [ exact Hr | ].
  split; [ reflexivity | ]. split; [ exact H20 | ].
  split; [ exact (score_never_decreases quietMath (Frame 16 (Some canvas800)) underFire s'
                    underFire_wellFormed Hs Hr) | ].
  split; [ exact waveThreeCleared_wellFormed | ]. split; [ exact Hs' | ].
  split; [ reflexivity | ]. split; [ exact H650 | ].
  exact (score_never_decreases quietMath (Frame 1500 (Some canvas800)) waveThreeCleared
           s'' waveThreeCleared_wellFormed Hs' Hr').
Defined.

Lemma blast_grows_for_15_frames_and_is_gone_after_35_witness :
  x_radius newBlast == 0 /\ x_maxRadius newBlast == 60 /\
  x_growthRate newBlast == 4 /\ x_life newBlast == 1 /\
  x_radius (Nat.iter 20 stepExplosion newBlast) ==
    Qmin 60 (4 * inject_Z (Z.of_nat 20)) /\
  (Qltb 0 (x_life (Nat.iter 20 stepExplosion newBlast)) = true <-> (20 < 35)%nat).
Proof.
  assert (Hr : x_radius newBlast == 0) by reflexivity.
  assert (Hm : x_maxRadius newBlast == 60) by reflexivity.
  assert (Hg : x_growthRate newBlast == 4) by reflexivity.
  assert (Hl : x_life newBlast == 1) by reflexivity.
  split; [ exact Hr | ]. split; [ exact Hm | ]. split; [ exact Hg | ].
  split; [ exact Hl | ].
  destruct (blast_grows_for_15_frames_and_is_gone_after_35 newBlast 20 Hr Hm Hg Hl)
    as (H1 & _ & H3).
  split; [ exact H1 | exact H3 ].
Defined.

Lemma impact_on_a_ruin_does_no_damage_witness :
  caughtBy (moveEnemy (fallingAt 400 555 2)) (explosions battered) = None /\
  e_dead (fallingAt 400 555 2) = false /\
  560 - 5 <= e_y (fallingAt 400 555 2) + e_vy (fallingAt 400 555 2) /\
  aimsAtRuin (fallingAt 400 555 2) battered /\
  exists s',
    stepEnemy quietMath 560 16 (fallingAt 400 555 2) battered =
      Some (killEnemy (moveEnemy (fallingAt 400 555 2)), s') /\
    cities s' = cities battered /\ towers s' = towers battered /\
    gameState s' = gameState battered.
Proof.
  assert (Hc : caughtBy (moveEnemy (fallingAt 400 555 2)) (explosions battered) = None)
    by reflexivity.
  assert (Hd : e_dead (fallingAt 400 555 2) = false) by reflexivity.
  assert (Hy : 560 - 5 <= e_y (fallingAt 400 555 2) + e_vy (fallingAt 400 555 2))
    by (vm_compute; discriminate).
  assert (Hr : aimsAtRuin (fallingAt 400 555 2) battered).
  { vm_compute. eexists. split; reflexivity. }
  split; [ exact Hc | ]. split; [ exact Hd | ]. split; [ exact Hy | ].
  split; [ exact Hr | ].
  destruct (impact_on_a_ruin_does_no_damage quietMath 560 16 (fallingAt 400 555 2)
              battered Hc Hd Hy Hr) as (s' & Hs & H1 & H2 & H3 & _).
  exists s'. split; [ exact Hs | ]. split; [ exact H1 | ]. split; [ exact H2 | exact H3 ].
Defined.

Lemma taps_trade_one_round_for_one_interceptor_witness :
  exists s',
    forallb isTap [ tapMiddle; tapMiddle ] = true /\ wellFormed deployed /\
    run quietMath [ tapMiddle; tapMiddle ] deployed = Some s' /\
    (totalAmmo (towers s') + Z.of_nat (List.length (interceptors s')) =
     totalAmmo (towers deployed) + Z.of_nat (List.length (interceptors deployed)))%Z.
Proof.
  assert (H : exists s', run quietMath [ tapMiddle; tapMiddle ] deployed = Some s').
  { vm_compute. eexists. reflexivity. }
  destruct H as (s' & Hs). exists s'.
  assert (Ht : forallb isTap [ tapMiddle; tapMiddle ] = true) by reflexivity.
  split; [ exact Ht | ]. split; [ exact deployed_wellFormed | ]. split; [ exact Hs | ].
  apply (taps_trade_one_round_for_one_interceptor quietMath [ tapMiddle; tapMiddle ]
           deployed s' Ht deployed_wellFormed Hs).
Defined.

Lemma pause_and_resume_keep_the_game_witness :
  gameState deployed = PLAYING /\
  forallb isFrameOrTap [ Frame 16 (Some canvas800); tapMiddle;
                         Frame 32 (Some canvas800) ] = true /\
  run quietMath
      (PauseClick :: [ Frame 16 (Some canvas800); tapMiddle;
                       Frame 32 (Some canvas800) ] ++ [ PauseClick ]) deployed =
  Some (set_lastTime 32 deployed).
Proof.
  assert (Hg : gameState deployed = PLAYING) by reflexivity.
  assert (Hf : forallb isFrameOrTap [ Frame 16 (Some canvas800); tapMiddle;
                                      Frame 32 (Some canvas800) ] = true)
    by reflexivity.
  split; [ exact Hg | ]. split; [ exact Hf | ].
  apply (pause_and_resume_keep_the_game quietMath
           [ Frame 16 (Some canvas800); tapMiddle; Frame 32 (Some canvas800) ]
           deployed Hg Hf).
Defined.


Lemma coarseMath_unitRandom : unitRandom coarseMath.
Proof. intros k. split; [ discriminate | reflexivity ]. Qed.

Lemma coarseMath_roundsToNearest : roundsToNearest coarseMath.
Proof.
  split.
  - intros a b Hab.
    change (roundToHalves a <= roundToHalves b). unfold roundToHalves.
    assert (H : (Qfloor (2 * a + (1 # 2)) <= Qfloor (2 * b + (1 # 2)))%Z)
      by (apply Qfloor_resp_le; lra).
    rewrite Zle_Qle in H. revert H.
    generalize (inject_Z (Qfloor (2 * a + (1 # 2))))
               (inject_Z (Qfloor (2 * b + (1 # 2)))).
    intros u v H. unfold Qdiv. apply Qmult_le_compat_r; [ exact H | discriminate ].
  - intros n _.
    change (roundToHalves (inject_Z n) == inject_Z n). unfold roundToHalves.
    pose proof (Qfloor_le (2 * inject_Z n + (1 # 2))) as H1.
    pose proof (Qlt_floor (2 * inject_Z n + (1 # 2))) as H2.
    set (z := Qfloor (2 * inject_Z n + (1 # 2))) in *.
    rewrite inject_Z_plus in H2. change (inject_Z 1) with 1 in H2.
    assert (Hz : z = (2 * n)%Z).
    { assert (Ha : (z < 2 * n + 1)%Z).
      { rewrite Zlt_Qlt, inject_Z_plus, inject_Z_mult.
        change (inject_Z 2) with 2. change (inject_Z 1) with 1.
        revert H1 H2. generalize (inject_Z z) (inject_Z n). intros u v H1 H2. lra. }
      assert (Hb : (2 * n < z + 1)%Z).
      { rewrite Zlt_Qlt, inject_Z_plus, inject_Z_mult.
        change (inject_Z 2) with 2. change (inject_Z 1) with 1.
        revert H1 H2. generalize (inject_Z z) (inject_Z n). intros u v H1 H2. lra. }
      lia. }
    rewrite Hz, inject_Z_mult. change (inject_Z 2) with 2. field.
Qed.

Lemma burst_adds_count_particles_at_the_point_witness :
  unitRandom coarseMath /\ roundsToNearest coarseMath /\
  forallb (fun p => Qeq_bool (pt_size p) 3)
    (particles (spawnParticles coarseMath 400 300 3 COLORS.danger deployed)) = true /\
  exists ps,
    particles (spawnParticles coarseMath 400 300 3 COLORS.danger deployed) =
      particles deployed ++ ps /\
    List.length ps = 3%nat /\ Forall (freshParticle 400 300 COLORS.danger) ps.
Proof.
  split; [ exact coarseMath_unitRandom | ].
  split; [ exact coarseMath_roundsToNearest | ].
  split; [ vm_compute; reflexivity | ].
  destruct (burst_adds_count_particles_at_the_point coarseMath 400 300 COLORS.danger 3
              deployed coarseMath_unitRandom coarseMath_roundsToNearest)
    as (ps & Hp & Hl & Hf & _).
  exists ps. split; [ exact Hp | ]. split; [ exact Hl | exact Hf ].
Defined.

Lemma no_enemy_is_left_at_the_ground_witness :
  exists s',
    gameState atTheLine = PLAYING /\
    update quietMath 16 (Some canvas800) atTheLine = Some s' /\
    map e_y (enemies atTheLine) = [ 554; 100 ] /\
    List.length (enemies s') = 1%nat /\
    map c_alive (cities s') = [ true; true; true; false; true; true ] /\
    Forall (fun e => e_y e < height canvas800 - 40 - 5) (enemies s').
Proof.
  assert (H : exists s',
             update quietMath 16 (Some canvas800) atTheLine = Some s' /\
             List.length (enemies s') = 1%nat /\
             map c_alive (cities s') = [ true; true; true; false; true; true ]).
  { vm_compute. eexists. split; [ reflexivity | ]. split; reflexivity. }
  destruct H as (s' & Hs & H1 & H2). exists s'.
  assert (Hg : gameState atTheLine = PLAYING) by reflexivity.
  split; [ exact Hg | ]. split; [ exact Hs | ]. split; [ reflexivity | ].
  split; [ exact H1 | ]. split; [ exact H2 | ].
  apply (no_enemy_is_left_at_the_ground quietMath 16 canvas800 atTheLine s' Hg Hs).
Defined.
